(** * Justitia: incentive and scheduling core of a sharded chain

    A shallow embedding of the Go sources of the Justitia mechanism
    (Shapley split, classification, subsidy engine, fee tracker,
    three-phase scheduler, pending ledger, CSV fee computation and
    shard map), together with the properties the specification states
    about them.

    Conventions.
    - [*big.Int] is [option Z]: [None] is the nil pointer, [Some z] an
      arbitrary-precision integer.  [big.Int.Div] is Euclidean division,
      which for a positive divisor is the floor division [Z.div].
    - Go [int], [int64], [uint64] values are [Z]; where the source can
      wrap, the wrap-around is written out.
    - Go maps are [gmap]s, slices are lists.
    - [float64] is the IEEE 754 binary64 format of [SpecFloat] with
      precision 53 and maximal exponent 1024. *)

From Stdlib Require Import ZArith Lia Bool List Ascii String.
From Stdlib Require Import Sorting.Sorted Sorting.Permutation.
From Stdlib Require Import Floats.SpecFloat.
From stdpp Require Import base option list sorting gmap strings fin_maps pretty.

Local Open Scope Z_scope.

(** ** Nil-tolerant big integers *)

(** The guard [if x == nil { x = big.NewInt(0) }] that opens most
    functions of package justitia. *)
Definition orZero (x : option Z) : Z :=
  match x with
  | Some z => z
  | None => 0
  end.

(** * Package justitia: Shapley split and classification *)

Module Justitia.

(** [Split2] of justitia.go: the 2-party Shapley split. *)
Definition Split2 (fAB R EA EB : option Z) : Z * Z :=
  let fAB := orZero fAB in
  let R := orZero R in
  let EA := orZero EA in
  let EB := orZero EB in
  let total := fAB + R in
  let diff := EA - EB in
  let uA_calc := (total + diff) / 2 in
  let uB_calc := (total - diff) / 2 in
  if uA_calc <? 0 then (0, total)
  else if uB_calc <? 0 then (total, 0)
  else (uA_calc, uB_calc).

(** [type Case int]: the constants are [iota + 1]; the integer 0 is the
    value carried by intra-shard transactions. *)
Inductive Case : Set :=
  | CaseNone
  | Case1
  | Case2
  | Case3.

Definition Case_to_int (c : Case) : Z :=
  match c with
  | CaseNone => 0
  | Case1 => 1
  | Case2 => 2
  | Case3 => 3
  end.

#[global] Instance Case_eq_dec : EqDecision Case.
Proof. solve_decision. Defined.

(** [Classify] of justitia.go. *)
Definition Classify (uA EA EB : option Z) : Case :=
  let uA := orZero uA in
  let EA := orZero EA in
  let EB := orZero EB in
  if uA >=? EA then Case1
  else if EB >=? EA then
    (if Z.sgn uA <=? 0 then Case2 else Case3)
  else
    let threshold := EA - EB in
    if uA <=? threshold then Case2 else Case3.

(** [ComputeCTXScore], the stateless variant. *)
Definition ComputeCTXScore (fAB R EA EB : option Z) (isSourceShard : bool) : Z :=
  let '(uA, uB) := Split2 fAB R EA EB in
  if isSourceShard then uA else uB.

End Justitia.

(** * IEEE 754 binary64, the Go type [float64] *)

Module F64.

Definition prec : Z := 53.
Definition emax : Z := 1024.

Definition float64 : Set := spec_float.

Definition add : float64 -> float64 -> float64 := SFadd prec emax.
Definition sub : float64 -> float64 -> float64 := SFsub prec emax.
Definition mul : float64 -> float64 -> float64 := SFmul prec emax.
Definition div : float64 -> float64 -> float64 := SFdiv prec emax.
Definition neg : float64 -> float64 := SFopp.

(** Go's [a < b] and [a <= b]; [a > b] is [ltb b a].  Every comparison
    with a NaN is false. *)
Definition ltb : float64 -> float64 -> bool := SFltb.
Definition leb : float64 -> float64 -> bool := SFleb.

(** The conversion [float64(n)] of an integer, and [big.Float.Float64]
    of an integral [big.Float]: round to nearest, ties to even,
    overflowing to an infinity. *)
Definition of_Z (n : Z) : float64 := binary_normalize prec emax n 0 false.

Definition zero : float64 := S754_zero false.

(** The decimal literal [n/d] for integers that are exact in binary64:
    the correctly rounded quotient is the double nearest to the
    literal. *)
Definition lit (n d : Z) : float64 := div (of_Z n) (of_Z d).

Definition is_nan (x : float64) : bool :=
  match x with
  | S754_nan => true
  | _ => false
  end.

(** Neither a NaN nor an infinity. *)
Definition is_finite (x : float64) : bool :=
  match x with
  | S754_zero _ | S754_finite _ _ _ => true
  | _ => false
  end.

(** A finite number other than zero. *)
Definition is_finite_nonzero (x : float64) : bool :=
  match x with
  | S754_finite _ _ _ => true
  | _ => false
  end.

End F64.

(** ** Arbitrary-precision floats, the part of [math/big.Float] used to
    scale a subsidy *)

Module BigFloat.

(** [big.Float] exponents are 32-bit; there are no subnormals. *)
Definition emax : Z := 2 ^ 31.

(** Number of bits of [|n|], [big.Int.BitLen]. *)
Definition BitLen (n : Z) : Z := Z.log2 (Z.abs n) + (if Z.abs n =? 0 then 0 else 1).

(** Truncation toward zero of a finite value, [big.Float.Int]. *)
Definition trunc (x : spec_float) : option Z :=
  match x with
  | S754_zero _ => Some 0
  | S754_finite s m e =>
      let a := if 0 <=? e then Z.pos m * 2 ^ e else Z.pos m / 2 ^ (- e) in
      Some (if s then - a else a)
  | _ => None
  end.

(** [new(big.Float).Mul(new(big.Float).SetInt(EB), big.NewFloat(m)).Int(nil)]
    followed by the caller's [result.Sign()].

    - [SetInt] is exact and gives the precision [max(BitLen(EB), 64)];
    - [NewFloat] panics on a NaN and has precision 53;
    - [Mul] with a receiver of precision 0 takes the larger precision of
      its operands, rounds to nearest even, and panics on zero times
      infinity;
    - [Int] truncates toward zero and returns nil for an infinity, on
      which [Sign] dereferences a nil pointer.

    [None] is a run-time panic. *)
Definition scaleInt (EB : Z) (m : F64.float64) : option Z :=
  match m with
  | S754_nan => None
  | S754_infinity _ => None
  | S754_zero _ => Some 0
  | S754_finite s mm e =>
      let p := Z.max (BitLen EB) 64 in
      let signed_m := if s then Z.neg mm else Z.pos mm in
      trunc (binary_normalize p emax (EB * signed_m) e false)
  end.

End BigFloat.

(** ** Library functions of the Go runtime that the model takes as given *)

(** [math.Pow] is not an IEEE 754 basic operation; the subsidy engine is
    verified for every function standing in its place. *)
Class GoMath := { math_Pow : F64.float64 -> F64.float64 -> F64.float64 }.

(** * Package justitia: the subsidy engine *)

Module Subsidy.
Import F64.

(** [type SubsidyMode int] with its seven constants; [SubsidyUnknown]
    stands for every other integer, which the [default] branches
    receive. *)
Inductive SubsidyMode : Set :=
  | SubsidyNone
  | SubsidyDestAvg
  | SubsidySumAvg
  | SubsidyCustom
  | SubsidyExtremeFixed
  | SubsidyPID
  | SubsidyLagrangian
  | SubsidyUnknown.

#[global] Instance SubsidyMode_eq_dec : EqDecision SubsidyMode.
Proof. solve_decision. Defined.

Record DynamicMetrics : Type := {
  QueueLengthA : Z;
  QueueLengthB : Z;
  AvgWaitTimeA : float64;
  AvgWaitTimeB : float64;
  CurrentInflation : option Z
}.

(** [time.Time] is an instant in nanoseconds; [time.Duration] is an
    [int64] count of nanoseconds and [Time.Sub] saturates. *)
Definition Time : Set := Z.

Definition minDuration : Z := - 2 ^ 63.
Definition maxDuration : Z := 2 ^ 63 - 1.

Definition Time_Sub (t u : Time) : Z :=
  Z.max minDuration (Z.min maxDuration (t - u)).

(** [Duration.Seconds]: [float64(d / Second) + float64(d % Second) / 1e9]
    with Go's truncated integer division. *)
Definition Duration_Seconds (d : Z) : float64 :=
  let sec := Z.quot d 1000000000 in
  let nsec := Z.rem d 1000000000 in
  add (of_Z sec) (div (of_Z nsec) (of_Z 1000000000)).

Record PIDState : Set := {
  Integral : float64;
  PrevError : float64;
  pidLastUpdate : Time
}.

Record PIDParams : Set := {
  Kp : float64;
  Ki : float64;
  Kd : float64;
  TargetUtilization : float64;
  CapacityB : float64;
  MinSubsidy : float64;
  MaxSubsidy : float64
}.

Record LagrangianState : Set := {
  Lambda : float64;
  TotalSubsidy : option Z;
  LastUpdate : Time;
  EpochStartTime : Time
}.

Record LagrangianParams : Set := {
  Alpha : float64;
  WindowSize : float64;
  MinLambda : float64;
  MaxLambda : float64;
  CongestionExp : float64
}.

(** A custom subsidy function: two big integers to a big integer, each
    possibly nil. *)
Definition CustomFn : Type := option Z -> option Z -> option Z.

Record Config : Type := {
  Mode : SubsidyMode;
  WindowBlocks : Z;
  CustomF : option CustomFn;
  GammaMin : option Z;
  GammaMax : option Z;
  pidParams : PIDParams;
  lagrangianParams : LagrangianParams;
  MaxInflation : option Z;
  TargetQueueLen : Z
}.

Record Mechanism : Type := {
  config : Config;
  pidState : PIDState;
  lagrangianState : LagrangianState
}.

(** [DefaultConfig]. *)
Definition DefaultConfig : Config := {|
  Mode := SubsidyDestAvg;
  WindowBlocks := 16;
  CustomF := None;
  GammaMin := Some 0;
  GammaMax := Some 0;
  pidParams := {|
    Kp := lit 15 10;
    Ki := lit 1 10;
    Kd := lit 5 100;
    TargetUtilization := lit 7 10;
    CapacityB := of_Z 1000;
    MinSubsidy := zero;
    MaxSubsidy := of_Z 5
  |};
  lagrangianParams := {|
    Alpha := lit 1 100;
    WindowSize := of_Z 1000;
    MinLambda := of_Z 1;
    MaxLambda := of_Z 10;
    CongestionExp := of_Z 2
  |};
  MaxInflation := Some 1000000000000000000;
  TargetQueueLen := 100
|}.

(** [NewMechanism]; [now] is the reading of [time.Now()]. *)
Definition NewMechanism (cfg : option Config) (now : Time) : Mechanism :=
  let cfg := match cfg with Some c => c | None => DefaultConfig end in
  {| config := cfg;
     pidState := {| Integral := zero; PrevError := zero; pidLastUpdate := now |};
     lagrangianState := {| Lambda := of_Z 1; TotalSubsidy := Some 0;
                           LastUpdate := now; EpochStartTime := now |} |}.

(** [calcPIDSubsidy].  The state is mutated through its pointer: the
    result carries the state after the call.  [None] is a panic inside
    [math/big]. *)
Definition calcPIDSubsidy (metrics : option DynamicMetrics) (cfg : Config)
    (state : PIDState) (EB : option Z) (now : Time) : option (Z * PIDState) :=
  match metrics, EB with
  | Some metrics, Some EB =>
      let params := pidParams cfg in
      let currentUtilization :=
        if ltb zero (CapacityB params)
        then div (of_Z (QueueLengthB metrics)) (CapacityB params)
        else div (of_Z (QueueLengthB metrics)) (of_Z 1000) in
      let error := sub currentUtilization (TargetUtilization params) in
      let dt := Duration_Seconds (Time_Sub now (pidLastUpdate state)) in
      let dt := if leb dt zero then of_Z 1 else dt in
      let integral := add (Integral state) (mul error dt) in
      let maxIntegral := of_Z 10 in
      let integral :=
        if ltb maxIntegral integral then maxIntegral
        else if ltb integral (neg maxIntegral) then neg maxIntegral
        else integral in
      let derivative := div (sub error (PrevError state)) dt in
      let output :=
        add (add (mul (Kp params) error) (mul (Ki params) integral))
            (mul (Kd params) derivative) in
      let state' :=
        {| Integral := integral; PrevError := error; pidLastUpdate := now |} in
      let multiplier := add (of_Z 1) output in
      let multiplier :=
        if ltb multiplier (MinSubsidy params) then MinSubsidy params else multiplier in
      let multiplier :=
        if ltb (MaxSubsidy params) multiplier then MaxSubsidy params else multiplier in
      match BigFloat.scaleInt EB multiplier with
      | Some result => Some (if result <? 0 then 0 else result, state')
      | None => None
      end
  | _, _ => Some (0, state)
  end.

(** [calcLagrangianSubsidy]; it reads the state and does not change it. *)
Definition calcLagrangianSubsidy `{GoMath} (metrics : option DynamicMetrics)
    (cfg : Config) (state : LagrangianState) (EB : option Z) : option Z :=
  match metrics, EB with
  | Some metrics, Some EB =>
      let params := lagrangianParams cfg in
      let congestionFactor :=
        if ltb zero (WindowSize params)
        then math_Pow (div (of_Z (QueueLengthB metrics)) (WindowSize params))
                      (CongestionExp params)
        else math_Pow (div (of_Z (QueueLengthB metrics)) (of_Z 1000))
                      (CongestionExp params) in
      let lambda := Lambda state in
      let lambda := if ltb lambda (MinLambda params) then MinLambda params else lambda in
      let multiplier := div congestionFactor lambda in
      match BigFloat.scaleInt EB multiplier with
      | Some result => Some (if result <? 0 then 0 else result)
      | None => None
      end
  | _, _ => Some 0
  end.

(** [Mechanism.UpdateShadowPrice]; [now] is the reading of [time.Now()]
    stored in [LastUpdate]. *)
Definition UpdateShadowPrice (m : Mechanism)
    (totalSubsidyIssued inflationLimit : option Z) (now : Time) : Mechanism :=
  match totalSubsidyIssued, inflationLimit with
  | Some total, Some limit =>
      let params := lagrangianParams (config m) in
      let state := lagrangianState m in
      let violation := total - limit in
      let violationVal := of_Z violation in
      let limitVal := of_Z limit in
      let normalizedViolation :=
        if ltb zero limitVal then div violationVal limitVal else zero in
      let newLambda := add (Lambda state) (mul (Alpha params) normalizedViolation) in
      let newLambda :=
        if ltb newLambda (MinLambda params) then MinLambda params else newLambda in
      let newLambda :=
        if ltb (MaxLambda params) newLambda then MaxLambda params else newLambda in
      {| config := config m;
         pidState := pidState m;
         lagrangianState :=
           {| Lambda := newLambda;
              TotalSubsidy := Some total;
              LastUpdate := now;
              EpochStartTime := EpochStartTime state |} |}
  | _, _ => m
  end.

(** [Mechanism.ResetEpoch]. *)
Definition ResetEpoch (m : Mechanism) (now : Time) : Mechanism :=
  {| config := config m;
     pidState := pidState m;
     lagrangianState :=
       {| Lambda := Lambda (lagrangianState m);
          TotalSubsidy := Some 0;
          LastUpdate := now;
          EpochStartTime := now |} |}.

Definition GetShadowPrice (m : Mechanism) : float64 := Lambda (lagrangianState m).

Definition oneETH : Z := 1000000000000000000.

(** The static modes, shared verbatim by [calculateRABInternal] and the
    stateless [RAB]. *)
Definition destAvg (EB : option Z) : Z := orZero EB.

Definition sumAvg (EA EB : option Z) : Z :=
  match EA, EB with
  | None, None => 0
  | None, Some eb => eb
  | Some ea, None => ea
  | Some ea, Some eb => ea + eb
  end.

Definition custom (customF : option CustomFn) (EA EB : option Z) : Z :=
  match customF with
  | Some f => orZero (f EA EB)
  | None => destAvg EB
  end.

(** [Mechanism.calculateRABInternal], and [Mechanism.CalculateRAB] which
    only adds the lock. *)
Definition calculateRABInternal `{GoMath} (m : Mechanism) (EA EB : option Z)
    (metrics : option DynamicMetrics) (now : Time) : option (Z * Mechanism) :=
  match Mode (config m) with
  | SubsidyNone => Some (0, m)
  | SubsidyDestAvg => Some (destAvg EB, m)
  | SubsidySumAvg => Some (sumAvg EA EB, m)
  | SubsidyCustom => Some (custom (CustomF (config m)) EA EB, m)
  | SubsidyExtremeFixed => Some (oneETH, m)
  | SubsidyPID =>
      match calcPIDSubsidy metrics (config m) (pidState m) EB now with
      | Some (r, st) =>
          Some (r, {| config := config m; pidState := st;
                      lagrangianState := lagrangianState m |})
      | None => None
      end
  | SubsidyLagrangian =>
      match calcLagrangianSubsidy metrics (config m) (lagrangianState m) EB with
      | Some r => Some (r, m)
      | None => None
      end
  | SubsidyUnknown => Some (0, m)
  end.

Definition CalculateRAB `{GoMath} (m : Mechanism) (EA EB : option Z)
    (metrics : option DynamicMetrics) (now : Time) : option (Z * Mechanism) :=
  calculateRABInternal m EA EB metrics now.

(** The stateless [RAB]: PID and Lagrangian fall back to DestAvg. *)
Definition RAB (mode : SubsidyMode) (EA EB : option Z)
    (metrics : option DynamicMetrics) (customF : option CustomFn) : Z :=
  match mode with
  | SubsidyNone => 0
  | SubsidyDestAvg => destAvg EB
  | SubsidySumAvg => sumAvg EA EB
  | SubsidyCustom => custom customF EA EB
  | SubsidyExtremeFixed => oneETH
  | SubsidyPID => destAvg EB
  | SubsidyLagrangian => destAvg EB
  | SubsidyUnknown => 0
  end.

(** [Mechanism.ComputeCTXScore]: the subsidy from the mechanism, then the
    split; the result is the score and the mechanism after the call. *)
Definition ComputeCTXScore `{GoMath} (m : Mechanism) (fAB EA EB : option Z)
    (metrics : option DynamicMetrics) (isSourceShard : bool) (now : Time)
    : option (Z * Mechanism) :=
  match CalculateRAB m EA EB metrics now with
  | Some (R, m') =>
      let '(uA, uB) := Justitia.Split2 fAB (Some R) EA EB in
      Some (if isSourceShard then uA else uB, m')
  | None => None
  end.

(** The update of the shadow price in the words of the specification:
    [clamp(x, lo, hi)] and the violation normalized by the limit, 0 when
    the limit is not positive. *)
Definition clamp (x lo hi : float64) : float64 :=
  let x := if ltb x lo then lo else x in
  if ltb hi x then hi else x.

Definition normalizedViolation (total limit : Z) : float64 :=
  if ltb zero (of_Z limit) then div (of_Z (total - limit)) (of_Z limit) else zero.

(** A run of [UpdateShadowPrice] calls: each call is the total issued,
    the limit (either may be nil) and the clock reading. *)
Definition ShadowCall : Set := option Z * option Z * Time.

Definition updateAll (m : Mechanism) (calls : list ShadowCall) : Mechanism :=
  fold_left
    (fun m call => UpdateShadowPrice m (fst (fst call)) (snd (fst call)) (snd call))
    calls m.

(** A call that gets past the nil guard. *)
Definition effective (call : ShadowCall) : bool :=
  match call with
  | (Some _, Some _, _) => true
  | _ => false
  end.

(** The limit of the call, when there is one, converts to a finite
    binary64 number. *)
Definition limitInRange (call : ShadowCall) : bool :=
  match snd (fst call) with
  | Some limit => is_finite (of_Z limit)
  | None => true
  end.

(** [lambda_min <= x <= lambda_max]. *)
Definition inBounds (P : LagrangianParams) (x : float64) : Prop :=
  leb (MinLambda P) x = true /\ leb x (MaxLambda P) = true.

(** The three errors of [ValidateConfig]. *)
Inductive ConfigError : Set :=
  | ErrWindowBlocks (got : Z)
  | ErrCustomFMissing
  | ErrGammaOrder.

(** [ValidateConfig] on a non-nil configuration: the first failed check,
    or none. *)
Definition ValidateConfig (cfg : Config) : option ConfigError :=
  if WindowBlocks cfg <=? 0 then Some (ErrWindowBlocks (WindowBlocks cfg))
  else if bool_decide (Mode cfg = SubsidyCustom)
          && match CustomF cfg with Some _ => false | None => true end
  then Some ErrCustomFMissing
  else
    match GammaMax cfg, GammaMin cfg with
    | Some gammaMax, Some gammaMin =>
        if (0 <? gammaMax) && (gammaMin >? gammaMax) then Some ErrGammaOrder else None
    | _, _ => None
    end.

(** [Mechanism.GetConfig]. *)
Definition GetConfig (m : Mechanism) : Config := config m.

End Subsidy.

(** * Package expectation: the per-shard fee tracker *)

Module Expectation.

(** Go's [int] on a 64-bit platform: the value of [n] after wrap-around. *)
Definition wrap_int (n : Z) : Z := (n + 2 ^ 63) mod 2 ^ 64 - 2 ^ 63.

(** [Tracker].  Window entries are always freshly allocated integers, so
    a window is a list of integers; the lock is not modelled. *)
Record Tracker : Type := {
  WindowSize : Z;
  itxWindows : gmap Z (list Z);
  blockCount : gmap Z Z;
  avg : gmap Z Z
}.

(** [NewTracker]. *)
Definition NewTracker (windowSize : Z) : Tracker :=
  let windowSize := if windowSize <=? 0 then 16 else windowSize in
  {| WindowSize := windowSize; itxWindows := ∅; blockCount := ∅; avg := ∅ |}.

(** The cap of [OnBlockFinalized]: [big.NewInt(1e14)], 0.0001 ETH. *)
Definition feeCap : Z := 100000000000000.

(** The loop of [OnBlockFinalized] over the fees of the block: a fee
    enters the sum only when it is non-nil and positive, at most with the
    value of the cap, and only then is counted. *)
Fixpoint cappedSum (fees : list (option Z)) (sum count : Z) : Z * Z :=
  match fees with
  | [] => (sum, count)
  | fee :: rest =>
      match fee with
      | Some f =>
          if 0 <? f
          then cappedSum rest (sum + (if f >? feeCap then feeCap else f)) (count + 1)
          else cappedSum rest sum count
      | None => cappedSum rest sum count
      end
  end.

(** The block mean computed at the top of [OnBlockFinalized]. *)
Definition blockMean (itxFeesInBlock : list (option Z)) : Z :=
  if 0 <? Z.of_nat (length itxFeesInBlock) then
    let '(sum, count) := cappedSum itxFeesInBlock 0 0 in
    if 0 <? count then sum / count else 0
  else 0.

(** The sum loop of [recomputeAvg]. *)
Definition windowSum (window : list Z) : Z := fold_left Z.add window 0.

(** [recomputeAvg]. *)
Definition recomputeAvg (t : Tracker) (shardID : Z) : Tracker :=
  let window := default [] (itxWindows t !! shardID) in
  let a :=
    if Z.of_nat (length window) =? 0 then 0
    else windowSum window / Z.of_nat (length window) in
  {| WindowSize := WindowSize t;
     itxWindows := itxWindows t;
     blockCount := blockCount t;
     avg := <[shardID := a]> (avg t) |}.

(** [OnBlockFinalized].  [None] is the run-time panic of [make] and of
    the slice expression when [WindowSize] is negative. *)
Definition OnBlockFinalized (t : Tracker) (shardID : Z)
    (itxFeesInBlock : list (option Z)) : option Tracker :=
  if WindowSize t <? 0 then None
  else
    let blockAvg := blockMean itxFeesInBlock in
    let t1 :=
      match itxWindows t !! shardID with
      | Some _ => t
      | None =>
          {| WindowSize := WindowSize t;
             itxWindows := <[shardID := []]> (itxWindows t);
             blockCount := <[shardID := 0]> (blockCount t);
             avg := <[shardID := 0]> (avg t) |}
      end in
    let window := default [] (itxWindows t1 !! shardID) ++ [blockAvg] in
    let count := wrap_int (default 0 (blockCount t1 !! shardID) + 1) in
    let window :=
      if Z.of_nat (length window) >? WindowSize t1
      then drop (Z.to_nat (Z.of_nat (length window) - WindowSize t1)) window
      else window in
    Some (recomputeAvg
            {| WindowSize := WindowSize t1;
               itxWindows := <[shardID := window]> (itxWindows t1);
               blockCount := <[shardID := count]> (blockCount t1);
               avg := avg t1 |}
            shardID).

(** [GetAvgITXFee]: 0 while no data has arrived. *)
Definition GetAvgITXFee (t : Tracker) (shardID : Z) : Z :=
  default 0 (avg t !! shardID).

(** [GetBlockCount]. *)
Definition GetBlockCount (t : Tracker) (shardID : Z) : Z :=
  default 0 (blockCount t !! shardID).

(** [Reset] and [ResetAll]. *)
Definition Reset (t : Tracker) (shardID : Z) : Tracker :=
  {| WindowSize := WindowSize t;
     itxWindows := delete shardID (itxWindows t);
     blockCount := delete shardID (blockCount t);
     avg := delete shardID (avg t) |}.

Definition ResetAll (t : Tracker) : Tracker :=
  {| WindowSize := WindowSize t; itxWindows := ∅; blockCount := ∅; avg := ∅ |}.

(** [UpdateRemoteShardFee].  (The panic of [make] on a negative window
    size, which [NewTracker] rules out, is not modelled here.) *)
Definition UpdateRemoteShardFee (t : Tracker) (shardID : Z) (avgFee : option Z) : Tracker :=
  let avgFee := orZero avgFee in
  let fresh := match avg t !! shardID with Some _ => false | None => true end in
  {| WindowSize := WindowSize t;
     itxWindows := if fresh then <[shardID := []]> (itxWindows t) else itxWindows t;
     blockCount := if fresh then <[shardID := 0]> (blockCount t) else blockCount t;
     avg := <[shardID := avgFee]> (avg t) |}.

(** A run of [OnBlockFinalized] calls on one tracker. *)
Fixpoint finalizeAll (t : Tracker) (blocks : list (Z * list (option Z))) : option Tracker :=
  match blocks with
  | [] => Some t
  | (shardID, fees) :: rest =>
      match OnBlockFinalized t shardID fees with
      | Some t' => finalizeAll t' rest
      | None => None
      end
  end.

(** The block mean in the words of the specification: the sum of the
    passed fees divided by their count, 0 for the empty list. *)
Definition specBlockMean (fees : list Z) : Z :=
  if Z.of_nat (length fees) =? 0 then 0
  else fold_left Z.add fees 0 / Z.of_nat (length fees).

(** Vocabulary for the statements about the block mean: the fees that
    the loop of [OnBlockFinalized] takes into account, and their capped
    values. *)
Fixpoint positiveFees (fees : list (option Z)) : list Z :=
  match fees with
  | [] => []
  | Some f :: rest => if 0 <? f then f :: positiveFees rest else positiveFees rest
  | None :: rest => positiveFees rest
  end.

Definition capFee (f : Z) : Z := Z.min f feeCap.

End Expectation.

(** ** [sort.Slice] *)

(** A comparison [less] is a strict weak order: it is asymmetric and its
    negation is transitive. *)
Record StrictWeak {A : Type} (less : A -> A -> bool) : Prop := {
  less_asym : forall x y, less x y = true -> less y x = false;
  less_negtrans : forall x y z, less x y = false -> less y z = false -> less x z = false
}.

(** No element is [less] than an earlier one. *)
Definition SortedBy {A : Type} (less : A -> A -> bool) (l : list A) : Prop :=
  StronglySorted (fun x y => less y x = false) l.

(** The contract of [sort.Slice]: the result is a rearrangement of the
    argument, in order whenever [less] is a strict weak order.  The sort
    is not stable: the order of elements that [less] does not separate
    is left to the implementation. *)
Class GoSort := {
  sort_Slice : forall {A : Type}, (A -> A -> bool) -> list A -> list A;
  sort_Slice_perm : forall A (less : A -> A -> bool) l,
    Permutation (sort_Slice less l) l;
  sort_Slice_sorted : forall A (less : A -> A -> bool) l,
    StrictWeak less -> SortedBy less (sort_Slice less l)
}.

(** The insertion sort that [sort.Slice] runs on slices of at most 12
    elements: each element in turn moves left while it is [less] than
    its left neighbour.  [insertLess] works on the sorted prefix held in
    reverse, nearest neighbour first. *)
Fixpoint insertLess {A : Type} (less : A -> A -> bool) (x : A) (revPrefix : list A)
    : list A :=
  match revPrefix with
  | [] => [x]
  | y :: rest => if less x y then y :: insertLess less x rest else x :: y :: rest
  end.

Definition insertionSort {A : Type} (less : A -> A -> bool) (l : list A) : list A :=
  rev (fold_left (fun revPrefix x => insertLess less x revPrefix) l []).

(** [math.Pow] at the exponent 2 of the default configuration is the
    correctly rounded square; under this instance every other exponent
    is a NaN, on which the engine panics, so that the instance decides
    nothing about them. *)
Definition powSquare (x y : F64.float64) : F64.float64 :=
  match SFcompare y (F64.of_Z 2) with
  | Some Eq => F64.mul x x
  | _ => S754_nan
  end.

#[local] Instance squareGoMath : GoMath := {| math_Pow := powSquare |}.

(** * Package core: transactions *)

Module Core.

(** [Transaction]: identity, routing and Justitia fields.  The broker and
    relay bookkeeping fields, which the scheduler does not touch, are
    left out. *)
Record Transaction : Type := {
  Sender : string;
  Recipient : string;
  Nonce : Z;
  Value : option Z;
  TxHash : string;
  FromShard : Z;
  ToShard : Z;
  IsCrossShard : bool;
  PairID : string;
  FeeToProposer : option Z;
  ArrivalTime : Subsidy.Time;
  TxSize : Z;
  SubsidyR : option Z;
  UtilityA : option Z;
  UtilityB : option Z;
  JustitiaCase : Z
}.

(** The write-back of the scheduler onto a scored transaction. *)
Definition setJustitia (tx : Transaction) (R uA uB : Z) (c : Z) : Transaction :=
  {| Sender := Sender tx; Recipient := Recipient tx; Nonce := Nonce tx;
     Value := Value tx; TxHash := TxHash tx;
     FromShard := FromShard tx; ToShard := ToShard tx;
     IsCrossShard := IsCrossShard tx; PairID := PairID tx;
     FeeToProposer := FeeToProposer tx; ArrivalTime := ArrivalTime tx;
     TxSize := TxSize tx;
     SubsidyR := Some R; UtilityA := Some uA; UtilityB := Some uB;
     JustitiaCase := c |}.

(** The same transaction paying another fee. *)
Definition withFee (tx : Transaction) (fee : option Z) : Transaction :=
  {| Sender := Sender tx; Recipient := Recipient tx; Nonce := Nonce tx;
     Value := Value tx; TxHash := TxHash tx;
     FromShard := FromShard tx; ToShard := ToShard tx;
     IsCrossShard := IsCrossShard tx; PairID := PairID tx;
     FeeToProposer := fee; ArrivalTime := ArrivalTime tx;
     TxSize := TxSize tx;
     SubsidyR := SubsidyR tx; UtilityA := UtilityA tx; UtilityB := UtilityB tx;
     JustitiaCase := JustitiaCase tx |}.

End Core.

(** * Package scheduler: the three-phase selector *)

Module Scheduler.
Import Justitia Subsidy Core.

Record TxWithScore : Type := {
  Tx : Transaction;
  Score : Z;
  TxCase : Case
}.

(** [Scheduler].  The tracker is shared and only read here. *)
Record Scheduler : Type := {
  ShardID : Z;
  NumShards : Z;
  FeeTracker : Expectation.Tracker;
  SubsidyMode_ : SubsidyMode;
  CustomSubsidy : option CustomFn;
  Mechanism_ : option Mechanism;
  epochSubsidyTotal : Z;
  epochTxCount : Z
}.

Definition withMechanism (s : Scheduler) (m : option Mechanism) (total count : Z) : Scheduler :=
  {| ShardID := ShardID s; NumShards := NumShards s; FeeTracker := FeeTracker s;
     SubsidyMode_ := SubsidyMode_ s; CustomSubsidy := CustomSubsidy s;
     Mechanism_ := m; epochSubsidyTotal := total; epochTxCount := count |}.

(** The metrics [scoreCTX] builds for the dynamic modes: only
    [QueueLengthB] is set. *)
Definition schedulerMetrics : DynamicMetrics :=
  {| QueueLengthA := 0; QueueLengthB := 600;
     AvgWaitTimeA := F64.zero; AvgWaitTimeB := F64.zero;
     CurrentInflation := None |}.

(** The subsidy step of [scoreCTX]: the mechanism when there is one, the
    stateless [RAB] otherwise.  The transaction is not an argument. *)
Definition subsidyFor `{GoMath} (s : Scheduler) (EA EB : Z) (now : Time)
    : option (Z * option Mechanism) :=
  match Mechanism_ s with
  | Some m =>
      match CalculateRAB m (Some EA) (Some EB) (Some schedulerMetrics) now with
      | Some (R, m') => Some (R, Some m')
      | None => None
      end
  | None => Some (RAB (SubsidyMode_ s) (Some EA) (Some EB) None (CustomSubsidy s), None)
  end.

(** [scoreCTX]: the transaction after the write-back, its score and
    case, and the scheduler after the epoch bookkeeping.  [now] is the
    clock reading of this call. *)
Definition scoreCTX `{GoMath} (s : Scheduler) (tx : Transaction) (EA : Z) (now : Time)
    : option (Transaction * Z * Case * Scheduler) :=
  let isSourceShard := FromShard tx =? ShardID s in
  let EA := if isSourceShard then EA
            else Expectation.GetAvgITXFee (FeeTracker s) (FromShard tx) in
  let EB := if isSourceShard then Expectation.GetAvgITXFee (FeeTracker s) (ToShard tx)
            else Expectation.GetAvgITXFee (FeeTracker s) (ShardID s) in
  match subsidyFor s EA EB now with
  | None => None
  | Some (R, m') =>
      let lagr :=
        match Mechanism_ s with
        | Some _ => bool_decide (SubsidyMode_ s = SubsidyLagrangian)
        | None => false
        end in
      let total := if lagr then epochSubsidyTotal s + R else epochSubsidyTotal s in
      let count := if lagr then Expectation.wrap_int (epochTxCount s + 1)
                   else epochTxCount s in
      let s' := withMechanism s m' total count in
      let fee := orZero (FeeToProposer tx) in
      let '(uA, uB) := Split2 (Some fee) (Some R) (Some EA) (Some EB) in
      if isSourceShard then
        let txCase := Classify (Some uA) (Some EA) (Some EB) in
        Some (setJustitia tx R uA uB (Case_to_int txCase), uA, txCase, s')
      else
        let c := if JustitiaCase tx =? 0 then Case_to_int Case1 else JustitiaCase tx in
        Some (setJustitia tx R uA uB c, uB, Case1, s')
  end.

(** The scoring loop of [SelectForBlock]; [clock i] is the reading of
    [time.Now()] while the [i]-th transaction of the pool is scored. *)
Fixpoint scoreAll `{GoMath} (s : Scheduler) (EA : Z) (clock : nat -> Time) (i : nat)
    (txPool : list Transaction) : option (list TxWithScore * Scheduler) :=
  match txPool with
  | [] => Some ([], s)
  | tx :: rest =>
      if IsCrossShard tx then
        match scoreCTX s tx EA (clock i) with
        | None => None
        | Some (tx', score, txCase, s') =>
            match scoreAll s' EA clock (S i) rest with
            | None => None
            | Some (scored, s'') =>
                Some ({| Tx := tx'; Score := score; TxCase := txCase |} :: scored, s'')
            end
        end
      else
        match scoreAll s EA clock (S i) rest with
        | None => None
        | Some (scored, s'') =>
            Some ({| Tx := tx; Score := orZero (FeeToProposer tx); TxCase := CaseNone |}
                    :: scored, s'')
        end
  end.

(** The phase of a scored transaction: 1, 2 or 3, or none for a
    cross-shard transaction without a case. *)
Definition phaseOf (EA : Z) (x : TxWithScore) : option Z :=
  if IsCrossShard (Tx x) then
    match TxCase x with
    | Case1 => Some 1
    | Case2 => Some 3
    | Case3 => Some 2
    | CaseNone => None
    end
  else if Score x >=? EA then Some 1 else Some 2.

(** The partition loop: the three phase slices, each in pool order. *)
Fixpoint partition3 (EA : Z) (scored : list TxWithScore)
    : list TxWithScore * list TxWithScore * list TxWithScore :=
  match scored with
  | [] => ([], [], [])
  | x :: rest =>
      let '(phase1, phase2, phase3) := partition3 EA rest in
      match phaseOf EA x with
      | Some 1 => (x :: phase1, phase2, phase3)
      | Some 2 => (phase1, x :: phase2, phase3)
      | Some 3 => (phase1, phase2, x :: phase3)
      | _ => (phase1, phase2, phase3)
      end
  end.

(** The comparison handed to [sort.Slice] for every phase: descending
    score, then earlier arrival. *)
Definition lessScore (a b : TxWithScore) : bool :=
  if negb (Score a =? Score b) then Score a >? Score b
  else ArrivalTime (Tx a) <? ArrivalTime (Tx b).

(** The fill loop: append until the block is full. *)
Fixpoint fill (capacity : Z) (selected : list Transaction) (phase : list TxWithScore)
    : list Transaction :=
  match phase with
  | [] => selected
  | x :: rest =>
      if Z.of_nat (length selected) >=? capacity then selected
      else fill capacity (selected ++ [Tx x]) rest
  end.

(** [SelectForBlock]. *)
Definition SelectForBlock `{GoMath} `{GoSort} (s : Scheduler) (capacity : Z)
    (txPool : list Transaction) (clock : nat -> Time)
    : option (list Transaction * Scheduler) :=
  if (capacity <=? 0) || (Z.of_nat (length txPool) =? 0) then Some ([], s)
  else
    let EA := Expectation.GetAvgITXFee (FeeTracker s) (ShardID s) in
    match scoreAll s EA clock 0 txPool with
    | None => None
    | Some (scored, s') =>
        let '(phase1, phase2, phase3) := partition3 EA scored in
        let selected := fill capacity [] (sort_Slice lessScore phase1) in
        let selected :=
          if Z.of_nat (length selected) <? capacity
          then fill capacity selected (sort_Slice lessScore phase2)
          else selected in
        let selected :=
          if (Z.of_nat (length selected) <? capacity) && (0 <? Z.of_nat (length phase3))
          then fill capacity selected (sort_Slice lessScore phase3)
          else selected in
        Some (selected, s')
    end.

(** [EstimateBlockReward]. *)
Definition EstimateBlockReward (s : Scheduler) (txs : list Transaction) : Z :=
  fold_left
    (fun totalReward tx =>
       if FromShard tx =? ShardID s then totalReward + orZero (UtilityA tx)
       else if ToShard tx =? ShardID s then totalReward + orZero (UtilityB tx)
       else totalReward)
    txs 0.

(** [UpdateEpoch]; the two clock readings are those of
    [UpdateShadowPrice] and [ResetEpoch]. *)
Definition UpdateEpoch (s : Scheduler) (now1 now2 : Time) : Scheduler :=
  match Mechanism_ s with
  | Some m =>
      if bool_decide (SubsidyMode_ s = SubsidyLagrangian) then
        let inflationLimit := MaxInflation (config m) in
        let m1 := UpdateShadowPrice m (Some (epochSubsidyTotal s)) inflationLimit now1 in
        let m2 := ResetEpoch m1 now2 in
        withMechanism s (Some m2) 0 0
      else s
  | None => s
  end.

(** What a scoring step leaves of the subsidy engine: the subsidy written
    onto the transaction and the scheduler with its mechanism and epoch
    counters. *)
Definition subsidyView (r : option (Transaction * Z * Case * Scheduler))
    : option (option Z * Scheduler) :=
  match r with
  | Some (tx, _, _, s) => Some (SubsidyR tx, s)
  | None => None
  end.


(** The scored transactions of phase [k], in pool order. *)
Definition phase (EA : Z) (k : Z) (scored : list TxWithScore) : list TxWithScore :=
  List.filter (fun x => bool_decide (phaseOf EA x = Some k)) scored.

(** A scored entry and the pool transaction it was made from: an
    intra-shard transaction is carried as it is with its fee as score, a
    cross-shard one with the Justitia fields written and a case. *)
Definition scoredFrom (tx : Transaction) (x : TxWithScore) : Prop :=
  if IsCrossShard tx
  then (exists R uA uB c, Tx x = setJustitia tx R uA uB c) /\ TxCase x <> CaseNone
  else Tx x = tx /\ Score x = orZero (FeeToProposer tx) /\ TxCase x = CaseNone.


(** Whether [scoreCTX] keeps the epoch books: only with a mechanism and
    in the Lagrangian mode. *)
Definition keepsEpoch (s : Scheduler) : bool :=
  match Mechanism_ s with
  | Some _ => bool_decide (SubsidyMode_ s = SubsidyLagrangian)
  | None => false
  end.

(** [NewScheduler].  [cfg] is the configuration that
    [params.GetJustitiaConfig] assembles from the global parameters and
    [now] the clock reading of [NewMechanism]; the log line is not
    modelled. *)
Definition NewScheduler (shardID numShards : Z) (feeTracker : Expectation.Tracker)
    (mode : SubsidyMode) (cfg : Config) (now : Time) : Scheduler :=
  let mechanism :=
    if bool_decide (mode = SubsidyPID) || bool_decide (mode = SubsidyLagrangian)
    then Some (NewMechanism (Some cfg) now)
    else None in
  {| ShardID := shardID; NumShards := numShards; FeeTracker := feeTracker;
     SubsidyMode_ := mode; CustomSubsidy := None; Mechanism_ := mechanism;
     epochSubsidyTotal := 0; epochTxCount := 0 |}.

(** [SetCustomSubsidy]. *)
Definition SetCustomSubsidy (s : Scheduler) (f : option CustomFn) : Scheduler :=
  {| ShardID := ShardID s; NumShards := NumShards s; FeeTracker := FeeTracker s;
     SubsidyMode_ := SubsidyMode_ s; CustomSubsidy := f; Mechanism_ := Mechanism_ s;
     epochSubsidyTotal := epochSubsidyTotal s; epochTxCount := epochTxCount s |}.

(** [GetEpochStats]. *)
Definition GetEpochStats (s : Scheduler) : Z * Z * F64.float64 :=
  match Mechanism_ s with
  | Some m =>
      if bool_decide (SubsidyMode_ s = SubsidyLagrangian)
      then (epochSubsidyTotal s, epochTxCount s, GetShadowPrice m)
      else (0, 0, F64.zero)
  | None => (0, 0, F64.zero)
  end.

(** The subsidies that a scoring pass wrote on the cross-shard
    transactions of its result, and the number of those transactions. *)
Definition subsidyWritten (scored : list TxWithScore) : Z :=
  fold_left
    (fun acc x => if IsCrossShard (Tx x) then acc + orZero (SubsidyR (Tx x)) else acc)
    scored 0.

Definition crossShardCount (txPool : list Transaction) : Z :=
  Z.of_nat (length (List.filter IsCrossShard txPool)).

End Scheduler.

(** * Package pending: the ledger of unsettled cross-shard rewards *)

Module Pending.

(** [Pending]. *)
Record Pending : Set := {
  PairID : string;
  ShardA : Z;
  ShardB : Z;
  FAB : Z;
  R : Z;
  EA : Z;
  EB : Z;
  UtilityA : Z;
  UtilityB : Z;
  SourceBlockID : string;
  CreatedAt : Z
}.

(** [Ledger]: the two maps; the lock is not modelled.  An entry is held
    by value: the model does not follow later writes of a caller through
    the pointer it handed to [Add]. *)
Record Ledger : Set := {
  pending : gmap string Pending;
  settled : gmap string bool
}.

(** The three errors the ledger builds with [fmt.Errorf]. *)
Inductive LedgerError : Set :=
  | ErrAlreadySettled (pairID : string)
  | ErrAlreadyPending (pairID : string)
  | ErrNotFound (pairID : string).

Definition LedgerError_message (e : LedgerError) : string :=
  match e with
  | ErrAlreadySettled id => "transaction " +:+ id +:+ " already settled"
  | ErrAlreadyPending id => "transaction " +:+ id +:+ " already pending"
  | ErrNotFound id => "transaction " +:+ id +:+ " not found in pending ledger"
  end.

(** [NewLedger]. *)
Definition NewLedger : Ledger := {| pending := ∅; settled := ∅ |}.

(** Reading [l.settled[pairID]]: false for an absent key. *)
Definition settledFlag (l : Ledger) (pairID : string) : bool :=
  default false (settled l !! pairID).

(** [Ledger.Add]: the ledger after the call and the returned error. *)
Definition Add (l : Ledger) (p : Pending) : Ledger * option LedgerError :=
  if settledFlag l (PairID p) then (l, Some (ErrAlreadySettled (PairID p)))
  else
    match pending l !! PairID p with
    | Some _ => (l, Some (ErrAlreadyPending (PairID p)))
    | None =>
        ({| pending := <[PairID p := p]> (pending l); settled := settled l |}, None)
    end.

(** [Ledger.Get]. *)
Definition Get (l : Ledger) (pairID : string) : option Pending := pending l !! pairID.

(** [fmt.Sprintf("proposer_shard_%d_block_%s", shard, blockID)]. *)
Definition proposerID (shard : Z) (blockID : string) : string :=
  "proposer_shard_" +:+ pretty shard +:+ "_block_" +:+ blockID.

(** [Ledger.Settle].  The credit callback acts on a world [W] of its
    own; the result is the ledger, the world after the callback's calls
    and the returned error. *)
Definition Settle {W : Type} (l : Ledger) (pairID destBlockID : string)
    (creditFunc : Z -> string -> Z -> W -> W) (w : W)
    : Ledger * W * option LedgerError :=
  if settledFlag l pairID then (l, w, Some (ErrAlreadySettled pairID))
  else
    match pending l !! pairID with
    | None => (l, w, Some (ErrNotFound pairID))
    | Some p =>
        let sourceProposerID := proposerID (ShardA p) (SourceBlockID p) in
        let destProposerID := proposerID (ShardB p) destBlockID in
        let w := creditFunc (ShardA p) sourceProposerID (UtilityA p) w in
        let w := creditFunc (ShardB p) destProposerID (UtilityB p) w in
        ({| pending := delete pairID (pending l);
            settled := <[pairID := true]> (settled l) |}, w, None)
    end.

(** A callback that records its calls in order. *)
Definition Credit : Set := Z * string * Z.

Definition recordCredit (shardID : Z) (proposer : string) (amount : Z)
    (log : list Credit) : list Credit :=
  log ++ [(shardID, proposer, amount)].

(** [IsPending], [IsSettled] and the counts. *)
Definition IsPending (l : Ledger) (pairID : string) : bool :=
  bool_decide (is_Some (pending l !! pairID)).

Definition IsSettled (l : Ledger) (pairID : string) : bool := settledFlag l pairID.

Definition GetPendingCount (l : Ledger) : Z := Z.of_nat (size (pending l)).

Definition GetSettledCount (l : Ledger) : Z := Z.of_nat (size (settled l)).

(** [Ledger.CleanupOld]: the loop over the pending map, deleting as it
    goes, and the number of entries removed. *)
Definition CleanupOld (l : Ledger) (olderThan : Z) : Ledger * Z :=
  let '(pend, count) :=
    map_fold
      (fun pairID p '(pend, count) =>
         if CreatedAt p <? olderThan then (delete pairID pend, count + 1)
         else (pend, count))
      (pending l, 0) (pending l) in
  ({| pending := pend; settled := settled l |}, count).

(** [Ledger.Reset]. *)
Definition Reset (l : Ledger) : Ledger := NewLedger.

(** Go's [uint64] arithmetic: the value after wrap-around. *)
Definition wrap_uint64 (n : Z) : Z := n mod 2 ^ 64.

(** [Stats]. *)
Record Stats : Set := {
  PendingCount : Z;
  SettledCount : Z;
  TotalSubsidy : Z;
  TotalFees : Z
}.

(** [Ledger.GetStats]: the two totals are [uint64] sums over the pending
    entries. *)
Definition GetStats (l : Ledger) : Stats :=
  let '(subsidy, fees) :=
    map_fold
      (fun _ p '(subsidy, fees) =>
         (wrap_uint64 (subsidy + R p), wrap_uint64 (fees + FAB p)))
      (0, 0) (pending l) in
  {| PendingCount := Z.of_nat (size (pending l));
     SettledCount := Z.of_nat (size (settled l));
     TotalSubsidy := subsidy;
     TotalFees := fees |}.

(** A call of one of the three methods that change a ledger in service,
    and a run of such calls: the ledger and the credit log after the
    run, and the error of every call in turn. *)
Inductive Call : Set :=
  | CallAdd (p : Pending)
  | CallSettle (pairID destBlockID : string)
  | CallCleanupOld (olderThan : Z).

Definition call (l : Ledger) (log : list Credit) (c : Call)
    : Ledger * list Credit * option LedgerError :=
  match c with
  | CallAdd p => (fst (Add l p), log, snd (Add l p))
  | CallSettle pairID destBlockID => Settle l pairID destBlockID recordCredit log
  | CallCleanupOld olderThan => (fst (CleanupOld l olderThan), log, None)
  end.

Fixpoint run (l : Ledger) (log : list Credit) (calls : list Call)
    : Ledger * list Credit * list (option LedgerError) :=
  match calls with
  | [] => (l, log, [])
  | c :: rest =>
      let '(l', log', err) := call l log c in
      let '(l'', log'', errs) := run l' log' rest in
      (l'', log'', err :: errs)
  end.

(** A ledger whose two maps agree: no pair is pending and settled at
    once, every pending entry is filed under its own pair identifier,
    and the settled map holds no false flag. *)
Definition consistent (l : Ledger) : Prop :=
  forall pairID,
    (is_Some (pending l !! pairID) -> settledFlag l pairID = false)
    /\ (forall p, pending l !! pairID = Some p -> PairID p = pairID)
    /\ (forall b, settled l !! pairID = Some b -> b = true).

(** The calls of a run that settled [pairID] with success. *)
Fixpoint settledWithSuccess (pairID : string) (calls : list Call)
    (errs : list (option LedgerError)) : list Call :=
  match calls, errs with
  | CallSettle id destBlockID :: calls', None :: errs' =>
      if bool_decide (id = pairID)
      then CallSettle id destBlockID :: settledWithSuccess pairID calls' errs'
      else settledWithSuccess pairID calls' errs'
  | _ :: calls', _ :: errs' => settledWithSuccess pairID calls' errs'
  | _, _ => []
  end.

End Pending.

(** * SHA-256, as [crypto/sha256.Sum256] computes it (FIPS 180-4) *)

Module SHA256.

Definition w32 (x : Z) : Z := x mod 2 ^ 32.

Definition rotr (n x : Z) : Z := w32 (Z.lor (Z.shiftr x n) (Z.shiftl x (32 - n))).

Definition Ch (x y z : Z) : Z := Z.lxor (Z.land x y) (Z.land (w32 (Z.lnot x)) z).
Definition Maj (x y z : Z) : Z :=
  Z.lxor (Z.lxor (Z.land x y) (Z.land x z)) (Z.land y z).
Definition Sigma0 (x : Z) : Z := Z.lxor (Z.lxor (rotr 2 x) (rotr 13 x)) (rotr 22 x).
Definition Sigma1 (x : Z) : Z := Z.lxor (Z.lxor (rotr 6 x) (rotr 11 x)) (rotr 25 x).
Definition sigma0 (x : Z) : Z := Z.lxor (Z.lxor (rotr 7 x) (rotr 18 x)) (Z.shiftr x 3).
Definition sigma1 (x : Z) : Z := Z.lxor (Z.lxor (rotr 17 x) (rotr 19 x)) (Z.shiftr x 10).

(** The round constants are the first 32 bits of the fractional parts of
    the cube roots of the first 64 primes, the initial hash value those
    of the square roots of the first 8 primes. *)
Definition isPrime (n : Z) : bool :=
  forallb (fun d => negb (n mod Z.of_nat d =? 0)) (seq 2 (Z.to_nat (Z.sqrt n) - 1)).

Definition primes (count : nat) : list Z :=
  firstn count (filter isPrime (map Z.of_nat (seq 2 400))).

(** The integer cube root, one bit at a time from bit [bits - 1] down. *)
Fixpoint cbrtBits (bits : nat) (n r : Z) : Z :=
  match bits with
  | O => r
  | S b =>
      let r' := r + 2 ^ Z.of_nat b in
      cbrtBits b n (if r' * r' * r' <=? n then r' else r)
  end.

Definition K : list Z :=
  Eval vm_compute in map (fun p => w32 (cbrtBits 40 (p * 2 ^ 96) 0)) (primes 64).

Definition H0 : list Z :=
  Eval vm_compute in map (fun p => w32 (Z.sqrt (p * 2 ^ 64))) (primes 8).

(** The padded message: the bytes, [0x80], zeros up to 56 modulo 64, and
    the bit length as 8 big-endian bytes. *)
Definition bigEndian (nbytes : nat) (x : Z) : list Z :=
  map (fun i => Z.shiftr x (8 * Z.of_nat i) mod 256) (rev (seq 0 nbytes)).

Definition pad (msg : list Z) : list Z :=
  let len := Z.of_nat (length msg) in
  let zeros := Z.to_nat ((55 - len) mod 64) in
  msg ++ [0x80] ++ repeat 0 zeros ++ bigEndian 8 (8 * len).

Definition fromBigEndian (bytes : list Z) : Z :=
  fold_left (fun acc b => acc * 256 + b) bytes 0.

(** The 16 words of a 64-byte block. *)
Fixpoint words (n : nat) (block : list Z) : list Z :=
  match n with
  | O => []
  | S n' => fromBigEndian (firstn 4 block) :: words n' (skipn 4 block)
  end.

(** The message schedule, held most recent word first. *)
Fixpoint schedule (n : nat) (recent : list Z) : list Z :=
  match n with
  | O => recent
  | S n' =>
      let w := w32 (sigma1 (nth 1 recent 0) + nth 6 recent 0
                    + sigma0 (nth 14 recent 0) + nth 15 recent 0) in
      schedule n' (w :: recent)
  end.

Definition State : Set := Z * Z * Z * Z * Z * Z * Z * Z.

Definition round (st : State) (kw : Z * Z) : State :=
  let '(a, b, c, d, e, f, g, h) := st in
  let '(k, w) := kw in
  let t1 := h + Sigma1 e + Ch e f g + k + w in
  let t2 := Sigma0 a + Maj a b c in
  (w32 (t1 + t2), a, b, c, w32 (d + t1), e, f, g).

Definition compress (hs : State) (block : list Z) : State :=
  let ws := rev (schedule 48 (rev (words 16 block))) in
  let '(a, b, c, d, e, f, g, h) := fold_left round (combine K ws) hs in
  let '(h0, h1, h2, h3, h4, h5, h6, h7) := hs in
  (w32 (h0 + a), w32 (h1 + b), w32 (h2 + c), w32 (h3 + d),
   w32 (h4 + e), w32 (h5 + f), w32 (h6 + g), w32 (h7 + h)).

Fixpoint blocks (n : nat) (hs : State) (padded : list Z) : State :=
  match n with
  | O => hs
  | S n' => blocks n' (compress hs (firstn 64 padded)) (skipn 64 padded)
  end.

Definition initial : State :=
  (nth 0 H0 0, nth 1 H0 0, nth 2 H0 0, nth 3 H0 0,
   nth 4 H0 0, nth 5 H0 0, nth 6 H0 0, nth 7 H0 0).

(** [sha256.Sum256]: the 32 bytes of the digest. *)
Definition Sum256 (msg : list Z) : list Z :=
  let padded := pad msg in
  let '(a, b, c, d, e, f, g, h) := blocks (length padded / 64) initial padded in
  flat_map (bigEndian 4) [a; b; c; d; e; f; g; h].

End SHA256.

(** * Package ethcsv: proposer fee and shard map of a CSV row *)

(** On a string with a byte above 127 [strings.ToLower] maps the string
    rune by rune with [unicode.ToLower], writing U+FFFD for every byte
    that is not valid UTF-8.  That mapping rests on the case tables of
    Unicode and is taken as given: the shard map is verified for every
    function standing in its place. *)
Class GoUnicode := { strings_Map_ToLower : string -> string }.

Module Ethcsv.

(** [TxRow]. *)
Record TxRow : Set := {
  BlockNumber : Z;
  Timestamp : Z;
  TxHash : string;
  From : string;
  To : string;
  ToCreate : string;
  Value : option Z;
  GasLimit : Z;
  GasPrice : option Z;
  GasUsed : Z;
  EIP2718Type : Z;
  BaseFeePerGas : option Z;
  MaxFeePerGas : option Z;
  MaxPriorityFeePerGas : option Z;
  IsError : bool;
  BlobHashes : list string;
  BlobBaseFeePerGas : option Z;
  BlobGasUsed : Z
}.

(** [ComputeProposerFee]. *)
Definition ComputeProposerFee (r : TxRow) : Z :=
  if GasUsed r =? 0 then 0
  else
    let gu := GasUsed r in
    if (EIP2718Type r =? 0) || (EIP2718Type r =? 1) then
      match GasPrice r with
      | None => 0
      | Some gasPrice => gu * gasPrice
      end
    else if (EIP2718Type r =? 2) || (EIP2718Type r =? 3) then
      match BaseFeePerGas r, MaxFeePerGas r, MaxPriorityFeePerGas r with
      | Some baseFee, Some maxFee, Some maxPriority =>
          let sum := baseFee + maxPriority in
          let effective := if sum <? maxFee then sum else maxFee in
          let tip := effective - baseFee in
          let tip := if Z.sgn tip <? 0 then 0 else tip in
          gu * tip
      | _, _, _ => 0
      end
    else 0.

(** [ToAddress]. *)
Definition ToAddress (r : TxRow) : string :=
  if bool_decide (To r = "") then ToCreate r else To r.

(** The ASCII path of [strings.ToLower]: the letters [A] to [Z] move to
    [a] to [z], every other byte stays. *)
Definition lowerByte (c : ascii) : ascii :=
  let n := nat_of_ascii c in
  if (65 <=? n)%nat && (n <=? 90)%nat then ascii_of_nat (n + 32) else c.

Fixpoint lowerASCII (s : string) : string :=
  match s with
  | EmptyString => EmptyString
  | String c rest => String (lowerByte c) (lowerASCII rest)
  end.

(** Every byte is below 128, [utf8.RuneSelf]. *)
Fixpoint isASCII (s : string) : bool :=
  match s with
  | EmptyString => true
  | String c rest => (nat_of_ascii c <? 128)%nat && isASCII rest
  end.

(** [strings.ToLower]: a string of ASCII bytes is lowered byte by byte;
    any other string goes through [strings.Map(unicode.ToLower, s)]. *)
Definition ToLower `{GoUnicode} (s : string) : string :=
  if isASCII s then lowerASCII s else strings_Map_ToLower s.

(** [strings.HasPrefix] and [strings.TrimPrefix]. *)
Fixpoint HasPrefix (s prefix : string) {struct prefix} : bool :=
  match prefix, s with
  | EmptyString, _ => true
  | String p prefix', String c s' => bool_decide (p = c) && HasPrefix s' prefix'
  | String _ _, EmptyString => false
  end.

Fixpoint dropBytes (n : nat) (s : string) : string :=
  match n, s with
  | S n', String _ s' => dropBytes n' s'
  | _, _ => s
  end.

Definition TrimPrefix (s prefix : string) : string :=
  if HasPrefix s prefix then dropBytes (String.length prefix) s else s.

(** The conversion [[]byte(addr)]. *)
Fixpoint bytesOf (s : string) : list Z :=
  match s with
  | EmptyString => []
  | String c rest => Z.of_nat (nat_of_ascii c) :: bytesOf rest
  end.

(** [MapShard]. *)
Definition MapShard `{GoUnicode} (addr : string) (shards : Z) : Z :=
  if shards <=? 0 then 0
  else
    let addr := TrimPrefix (ToLower addr) "0x" in
    let hash := SHA256.Sum256 (bytesOf addr) in
    let hashNum := SHA256.fromBigEndian (firstn 8 hash) in
    hashNum mod shards.

(** [IsCrossShard]. *)
Definition IsCrossShard `{GoUnicode} (fromAddr toAddr : string) (shards : Z) : bool :=
  if shards <=? 1 then false
  else negb (MapShard fromAddr shards =? MapShard toAddr shards).

(** Two strings that differ at most in the case of their ASCII letters. *)
Definition sameLetter (c d : ascii) : bool :=
  bool_decide (c = d)
  || (let n := nat_of_ascii c in let m := nat_of_ascii d in
      ((65 <=? n)%nat && (n <=? 90)%nat && (m =? n + 32)%nat)
      || ((65 <=? m)%nat && (m <=? 90)%nat && (n =? m + 32)%nat)).

Fixpoint sameModuloCase (s t : string) : bool :=
  match s, t with
  | EmptyString, EmptyString => true
  | String c s', String d t' => sameLetter c d && sameModuloCase s' t'
  | _, _ => false
  end.



End Ethcsv.

(** The examples hash ASCII addresses only.  On those [strings.ToLower]
    never reaches the rune mapping, so that the instance under which
    they are computed decides nothing about them. *)
#[local] Instance asciiGoUnicode : GoUnicode :=
  {| strings_Map_ToLower := Ethcsv.lowerASCII |}.

(** * Package utils: the shard of an account address *)

Module Utils.

(** [ShardForAddress]: the address is hashed byte for byte as it is
    given. *)
Definition ShardForAddress (address : string) (numShards : Z) : Z :=
  if numShards <=? 0 then 0
  else
    let hash := SHA256.Sum256 (Ethcsv.bytesOf address) in
    let hashVal := SHA256.fromBigEndian (firstn 8 hash) in
    hashVal mod numShards.

(** [IsCrossShard]. *)
Definition IsCrossShard (sender recipient : string) (numShards : Z) : bool :=
  if numShards <=? 1 then false
  else
    let senderShard := ShardForAddress sender numShards in
    let recipientShard := ShardForAddress recipient numShards in
    negb (senderShard =? recipientShard).

(** [GetTxShards]. *)
Definition GetTxShards (sender recipient : string) (numShards : Z) : Z * Z :=
  (ShardForAddress sender numShards, ShardForAddress recipient numShards).

End Utils.

(** * Package subsidy_budget: the per-block subsidy budget *)

Module SubsidyBudget.

(** Every quantity of the package is a [uint64]: a [Z] whose arithmetic
    wraps at [2^64]. *)
Definition wrap_uint64 (n : Z) : Z := n mod 2 ^ 64.

Definition isUint64 (n : Z) : Prop := 0 <= n < 2 ^ 64.

Record Budget : Set := {
  Bmin : Z;
  Bmax : Z
}.

Inductive BudgetError : Set :=
  | ErrMinExceedsMax (min max : Z)
  | ErrBlockInterval (blockIntervalMs : Z).

(** [NewBudget]. *)
Definition NewBudget (min max : Z) : Budget + BudgetError :=
  if (max >? 0) && (min >? max) then inr (ErrMinExceedsMax min max)
  else inl {| Bmin := min; Bmax := max |}.

Record ScalingFactor : Set := {
  Num : Z;
  Den : Z
}.

(** [Budget.Apply]. *)
Definition Apply (b : Budget) (sumR : Z) : ScalingFactor :=
  if Bmax b =? 0 then {| Num := 1; Den := 1 |}
  else if sumR >? Bmax b then {| Num := Bmax b; Den := sumR |}
  else if (Bmin b >? 0) && (sumR <? Bmin b) && (sumR >? 0)
  then {| Num := Bmin b; Den := sumR |}
  else {| Num := 1; Den := 1 |}.

(** [ScalingFactor.ScaleSubsidy]: the product wraps before the
    division. *)
Definition ScaleSubsidy (sf : ScalingFactor) (R : Z) : Z :=
  if Den sf =? 0 then R
  else wrap_uint64 (R * Num sf) / Den sf.

(** [ScalingFactor.IsScalingNeeded]. *)
Definition IsScalingNeeded (sf : ScalingFactor) : bool := negb (Num sf =? Den sf).

(** [AnnualToPerBlock]. *)
Definition AnnualToPerBlock (annualBudget blocksPerYear : Z) : Z :=
  if blocksPerYear =? 0 then 0
  else annualBudget / blocksPerYear.

(** The constant [uint64(365.25 * 24 * 60 * 60 * 1000)]. *)
Definition msPerYear : Z := 31557600000.

(** [ComputeBlocksPerYear]. *)
Definition ComputeBlocksPerYear (blockIntervalMs : Z) : Z :=
  if blockIntervalMs <=? 0 then 0
  else msPerYear / blockIntervalMs.

Record BudgetConfig : Set := {
  GammaMinAnnual : Z;
  GammaMaxAnnual : Z;
  BlockIntervalMs : Z
}.

(** [BudgetConfig.ToBudget]. *)
Definition ToBudget (cfg : BudgetConfig) : Budget + BudgetError :=
  let blocksPerYear := ComputeBlocksPerYear (BlockIntervalMs cfg) in
  if blocksPerYear =? 0 then inr (ErrBlockInterval (BlockIntervalMs cfg))
  else
    let bmin := AnnualToPerBlock (GammaMinAnnual cfg) blocksPerYear in
    let bmax := AnnualToPerBlock (GammaMaxAnnual cfg) blocksPerYear in
    NewBudget bmin bmax.

(** The sum loop of [ApplyBudgetToBlock]. *)
Definition sumSubsidies (subsidies : list Z) : Z :=
  fold_left (fun sumR r => wrap_uint64 (sumR + r)) subsidies 0.

(** [ApplyBudgetToBlock] on a non-nil budget. *)
Definition ApplyBudgetToBlock (budget : Budget) (subsidies : list Z)
    : list Z * ScalingFactor :=
  let sumR := sumSubsidies subsidies in
  let sf := Apply budget sumR in
  if negb (IsScalingNeeded sf) then (subsidies, sf)
  else (map (ScaleSubsidy sf) subsidies, sf).

(** The plain sum of a list of subsidies. *)
Definition total (subsidies : list Z) : Z := fold_left Z.add subsidies 0.

End SubsidyBudget.

(** * Package expectation: the trimming helper *)

(** [Tracker.trimExtremes] sorts, so that it is stated over [sort.Slice];
    it does not read the tracker.  [None] is the run-time panic of the
    slice expression on a negative bound. *)
Module TrimmedMean.
Import Expectation.

Definition trimExtremes `{GoSort} (fees : list (option Z)) (percentile : Z)
    : option (list (option Z)) :=
  if Z.of_nat (length fees) <? 4 then Some fees
  else
    let validFees := positiveFees fees in
    if Z.of_nat (length validFees) <? 4 then Some (map Some validFees)
    else
      let validFees := sort_Slice Z.ltb validFees in
      let n := Z.of_nat (length validFees) in
      let trimCount := Z.quot (wrap_int (n * percentile)) 100 in
      let trimCount :=
        if wrap_int (trimCount * 2) >=? n then Z.quot (n - 1) 2 else trimCount in
      let start := trimCount in
      let end_ := wrap_int (n - trimCount) in
      if (start <? 0) || (end_ <? start) || (Z.of_nat (length fees) <? end_) then None
      else Some (map Some (take (Z.to_nat (end_ - start)) (drop (Z.to_nat start) validFees))).

End TrimmedMean.

(** * Example data *)

(** An EIP-1559 row of the test suite: base fee 30 gwei, fee cap 31 gwei,
    priority fee 2 gwei, a failed transaction. *)
Definition exampleRow : Ethcsv.TxRow :=
  {| Ethcsv.BlockNumber := 1; Ethcsv.Timestamp := 0; Ethcsv.TxHash := "h";
     Ethcsv.From := "a"; Ethcsv.To := "b"; Ethcsv.ToCreate := "";
     Ethcsv.Value := Some 0; Ethcsv.GasLimit := 21000; Ethcsv.GasPrice := None;
     Ethcsv.GasUsed := 21000; Ethcsv.EIP2718Type := 2;
     Ethcsv.BaseFeePerGas := Some 30000000000;
     Ethcsv.MaxFeePerGas := Some 31000000000;
     Ethcsv.MaxPriorityFeePerGas := Some 2000000000;
     Ethcsv.IsError := true; Ethcsv.BlobHashes := [];
     Ethcsv.BlobBaseFeePerGas := None; Ethcsv.BlobGasUsed := 0 |}.

(** Scenario S5: one pending entry between shards 0 and 1 with
    utilities 75 and 75. *)
Definition entryS5 : Pending.Pending :=
  {| Pending.PairID := "tx1"; Pending.ShardA := 0; Pending.ShardB := 1;
     Pending.FAB := 100; Pending.R := 50; Pending.EA := 80; Pending.EB := 80;
     Pending.UtilityA := 75; Pending.UtilityB := 75;
     Pending.SourceBlockID := "blockA"; Pending.CreatedAt := 1000 |}.

Definition ledgerS5 : Pending.Ledger := fst (Pending.Add Pending.NewLedger entryS5).

(** Scenario S3: the first three blocks of fees on shard 0. *)
Definition blocksS3 : list (Z * list (option Z)) :=
  [ (0, [Some 100; Some 200; Some 300]);
    (0, [Some 400; Some 500]);
    (0, [Some 600]) ].

(** Scenario S6: the default parameters ([alpha = 0.01], [lambda] in
    [1, 10]) and blocks that issue [6 * 10^18] against a limit of
    [5 * 10^18]. *)
Definition mechanismS6 : Subsidy.Mechanism := Subsidy.NewMechanism None 0.

Definition overBudget (blocks : nat) : list Subsidy.ShadowCall :=
  map (fun i => (Some 6000000000000000000, Some 5000000000000000000, Z.of_nat i))
      (seq 1 blocks).

(** Scenario S7: shard 0 with [E(f_0) = 1000], its peers with
    [E(f_1) = 0] and [E(f_2) = 990], no subsidy; two intra-shard
    transactions paying 1200 and 500, a transfer to shard 1 paying 2000
    (utility 1500, Case1) and a transfer to shard 2 paying 10 (utility
    10, Case2). *)
Definition trackerS7 : Expectation.Tracker :=
  Expectation.UpdateRemoteShardFee
    (Expectation.UpdateRemoteShardFee
       (Expectation.UpdateRemoteShardFee (Expectation.NewTracker 16) 0 (Some 1000))
       1 (Some 0))
    2 (Some 990).

Definition schedulerS7 : Scheduler.Scheduler :=
  {| Scheduler.ShardID := 0; Scheduler.NumShards := 3;
     Scheduler.FeeTracker := trackerS7;
     Scheduler.SubsidyMode_ := Subsidy.SubsidyNone;
     Scheduler.CustomSubsidy := None; Scheduler.Mechanism_ := None;
     Scheduler.epochSubsidyTotal := 0; Scheduler.epochTxCount := 0 |}.

Definition txS7 (name : string) (toShard : Z) (fee arrival : Z) : Core.Transaction :=
  {| Core.Sender := "alice"; Core.Recipient := "bob"; Core.Nonce := 0;
     Core.Value := Some 0; Core.TxHash := name;
     Core.FromShard := 0; Core.ToShard := toShard;
     Core.IsCrossShard := negb (toShard =? 0); Core.PairID := name;
     Core.FeeToProposer := Some fee; Core.ArrivalTime := arrival; Core.TxSize := 1;
     Core.SubsidyR := Some 0; Core.UtilityA := Some 0; Core.UtilityB := Some 0;
     Core.JustitiaCase := 0 |}.

Definition poolS7 : list Core.Transaction :=
  [ txS7 "itx500" 0 500 1; txS7 "ctxLow" 2 10 2;
    txS7 "itx1200" 0 1200 3; txS7 "ctxHigh" 1 2000 4 ].

(** The default configuration switched to the Lagrangian mode, and the
    scheduler of shard 0 that [NewScheduler] builds on it over the
    tracker of scenario S7. *)
Definition lagrangianConfig : Subsidy.Config :=
  {| Subsidy.Mode := Subsidy.SubsidyLagrangian;
     Subsidy.WindowBlocks := Subsidy.WindowBlocks Subsidy.DefaultConfig;
     Subsidy.CustomF := None;
     Subsidy.GammaMin := Subsidy.GammaMin Subsidy.DefaultConfig;
     Subsidy.GammaMax := Subsidy.GammaMax Subsidy.DefaultConfig;
     Subsidy.pidParams := Subsidy.pidParams Subsidy.DefaultConfig;
     Subsidy.lagrangianParams := Subsidy.lagrangianParams Subsidy.DefaultConfig;
     Subsidy.MaxInflation := Subsidy.MaxInflation Subsidy.DefaultConfig;
     Subsidy.TargetQueueLen := Subsidy.TargetQueueLen Subsidy.DefaultConfig |}.

Definition schedulerLagrangian : Scheduler.Scheduler :=
  Scheduler.NewScheduler 0 3 trackerS7 Subsidy.SubsidyLagrangian lagrangianConfig 0.

(** The Lagrangian scheduler late in an epoch: seven cross-shard
    transactions scored, two ETH of subsidy issued against the limit of
    one ETH. *)
Definition schedulerEpoch : Scheduler.Scheduler :=
  Scheduler.withMechanism schedulerLagrangian
    (Scheduler.Mechanism_ schedulerLagrangian) 2000000000000000000 7.

(** The same scheduler under a configuration without an inflation limit
    and with the lower bound 2 for a shadow price that starts at 1. *)
Definition unlimitedConfig : Subsidy.Config :=
  {| Subsidy.Mode := Subsidy.SubsidyLagrangian;
     Subsidy.WindowBlocks := Subsidy.WindowBlocks Subsidy.DefaultConfig;
     Subsidy.CustomF := None;
     Subsidy.GammaMin := Subsidy.GammaMin Subsidy.DefaultConfig;
     Subsidy.GammaMax := Subsidy.GammaMax Subsidy.DefaultConfig;
     Subsidy.pidParams := Subsidy.pidParams Subsidy.DefaultConfig;
     Subsidy.lagrangianParams :=
       {| Subsidy.Alpha := F64.lit 1 100;
          Subsidy.WindowSize := F64.of_Z 1000;
          Subsidy.MinLambda := F64.of_Z 2;
          Subsidy.MaxLambda := F64.of_Z 10;
          Subsidy.CongestionExp := F64.of_Z 2 |};
     Subsidy.MaxInflation := None;
     Subsidy.TargetQueueLen := Subsidy.TargetQueueLen Subsidy.DefaultConfig |}.

Definition schedulerUnlimited : Scheduler.Scheduler :=
  Scheduler.withMechanism
    (Scheduler.NewScheduler 0 3 trackerS7 Subsidy.SubsidyLagrangian unlimitedConfig 0)
    (Some (Subsidy.NewMechanism (Some unlimitedConfig) 0)) 2000000000000000000 7.

(** The default configuration in PID mode, and a mechanism built from it
    at the instant 0. *)
Definition pidConfig : Subsidy.Config :=
  {| Subsidy.Mode := Subsidy.SubsidyPID;
     Subsidy.WindowBlocks := Subsidy.WindowBlocks Subsidy.DefaultConfig;
     Subsidy.CustomF := None;
     Subsidy.GammaMin := Subsidy.GammaMin Subsidy.DefaultConfig;
     Subsidy.GammaMax := Subsidy.GammaMax Subsidy.DefaultConfig;
     Subsidy.pidParams := Subsidy.pidParams Subsidy.DefaultConfig;
     Subsidy.lagrangianParams := Subsidy.lagrangianParams Subsidy.DefaultConfig;
     Subsidy.MaxInflation := Subsidy.MaxInflation Subsidy.DefaultConfig;
     Subsidy.TargetQueueLen := Subsidy.TargetQueueLen Subsidy.DefaultConfig |}.

Definition mechanismPID : Subsidy.Mechanism :=
  Subsidy.NewMechanism (Some pidConfig) 0.

(** A Lagrangian mechanism at the instant 0, and the same mechanism
    after an epoch that issued twice the inflation limit. *)
Definition mechanismLagrangian : Subsidy.Mechanism :=
  Subsidy.NewMechanism (Some lagrangianConfig) 0.

Definition mechanismLagrangianOver : Subsidy.Mechanism :=
  Subsidy.UpdateShadowPrice mechanismLagrangian
    (Some 2000000000000000000) (Some 1000000000000000000) 0.

(** A Lagrangian configuration whose lower bound of the shadow price is
    2, above the 1.0 at which [NewMechanism] starts it, and a mechanism
    built from it. *)
Definition minLambdaConfig : Subsidy.Config :=
  {| Subsidy.Mode := Subsidy.SubsidyLagrangian;
     Subsidy.WindowBlocks := Subsidy.WindowBlocks Subsidy.DefaultConfig;
     Subsidy.CustomF := None;
     Subsidy.GammaMin := Subsidy.GammaMin Subsidy.DefaultConfig;
     Subsidy.GammaMax := Subsidy.GammaMax Subsidy.DefaultConfig;
     Subsidy.pidParams := Subsidy.pidParams Subsidy.DefaultConfig;
     Subsidy.lagrangianParams :=
       {| Subsidy.Alpha := F64.lit 1 100;
          Subsidy.WindowSize := F64.of_Z 1000;
          Subsidy.MinLambda := F64.of_Z 2;
          Subsidy.MaxLambda := F64.of_Z 10;
          Subsidy.CongestionExp := F64.of_Z 2 |};
     Subsidy.MaxInflation := Subsidy.MaxInflation Subsidy.DefaultConfig;
     Subsidy.TargetQueueLen := Subsidy.TargetQueueLen Subsidy.DefaultConfig |}.

Definition mechanismMinLambda : Subsidy.Mechanism :=
  Subsidy.NewMechanism (Some minLambdaConfig) 0.

(** * Properties *)

(** ** Shapley split *)

Section SplitFacts.
Import Justitia.

(** Both utilities are non-negative on non-negative inputs. *)
Lemma Split2_nonneg (f R EA EB : Z) :
  0 <= f -> 0 <= R -> 0 <= EA -> 0 <= EB ->
  0 <= fst (Split2 (Some f) (Some R) (Some EA) (Some EB))
  /\ 0 <= snd (Split2 (Some f) (Some R) (Some EA) (Some EB)).
Proof.
  intros Hf HR HA HB. unfold Split2; simpl.
  destruct (Z.ltb_spec ((f + R + (EA - EB)) / 2) 0) as [H1|H1]; simpl.
  - lia.
  - destruct (Z.ltb_spec ((f + R - (EA - EB)) / 2) 0) as [H2|H2]; simpl; lia.
Qed.

(** When a raw half is negative the clamp hands the whole total to the
    other side, and the sum is the total. *)
Lemma Split2_sum_clamped (f R EA EB : Z) :
  (f + R + (EA - EB)) / 2 < 0 \/ (f + R - (EA - EB)) / 2 < 0 ->
  fst (Split2 (Some f) (Some R) (Some EA) (Some EB))
  + snd (Split2 (Some f) (Some R) (Some EA) (Some EB)) = f + R.
Proof.
  intros H. unfold Split2; simpl.
  destruct (Z.ltb_spec ((f + R + (EA - EB)) / 2) 0) as [H1|H1]; simpl; [lia|].
  destruct (Z.ltb_spec ((f + R - (EA - EB)) / 2) 0) as [H2|H2]; simpl; lia.
Qed.

(** When no clamp applies the two floor divisions each drop the
    remainder of [f + R + EA - EB] by 2: the sum is the total exactly
    when that number is even, and one less when it is odd. *)
Lemma Split2_sum_unclamped (f R EA EB : Z) :
  0 <= (f + R + (EA - EB)) / 2 -> 0 <= (f + R - (EA - EB)) / 2 ->
  fst (Split2 (Some f) (Some R) (Some EA) (Some EB))
  + snd (Split2 (Some f) (Some R) (Some EA) (Some EB))
  = f + R - (f + R + EA - EB) mod 2.
Proof.
  intros H1 H2. unfold Split2; simpl.
  destruct (Z.ltb_spec ((f + R + (EA - EB)) / 2) 0) as [H1'|_]; [lia|].
  destruct (Z.ltb_spec ((f + R - (EA - EB)) / 2) 0) as [H2'|_]; [lia|]. simpl.
  assert (E : f + R - (EA - EB) = f + R + (EA - EB) + (- (EA - EB)) * 2) by lia.
  rewrite E, Z.div_add by lia.
  pose proof (Z.div_mod (f + R + (EA - EB)) 2 ltac:(lia)) as D.
  replace (f + R + EA - EB) with (f + R + (EA - EB)) by lia. lia.
Qed.

(** C1. Split conservation is stated for every non-negative
    [(f, R, E_A, E_B)]: the utilities returned by [Split2] are
    non-negative and add up to [f + R].  The code breaks the sum: at
    [f = 1], [R = 0], [E_A = E_B = 0] both halves are floored to 0, so the
    utilities [(0, 0)] add up to 0 and not to the total 1.  The same loss
    of one unit happens whenever [f + R + E_A - E_B] is odd and no clamp
    applies. *)
Theorem Split2_loses_a_unit_on_odd_total :
  Split2 (Some 1) (Some 0) (Some 0) (Some 0) = (0, 0)
  /\ fst (Split2 (Some 1) (Some 0) (Some 0) (Some 0))
     + snd (Split2 (Some 1) (Some 0) (Some 0) (Some 0)) <> 1 + 0.
Proof. split; [reflexivity | vm_compute; discriminate]. Qed.

(** Scenarios S1 and S4 of the specification. *)
Example Split2_S1 : Split2 (Some 1000) (Some 500) (Some 200) (Some 100) = (800, 700).
Proof. reflexivity. Qed.

Example Split2_S4 : Split2 (Some 1000) (Some 500) (Some 100) (Some 200) = (700, 800).
Proof. reflexivity. Qed.

(** ** Classification *)

Lemma Classify_unfold (uA EA EB : Z) :
  Classify (Some uA) (Some EA) (Some EB) =
  if uA >=? EA then Case1
  else if EB >=? EA then (if uA <=? 0 then Case2 else Case3)
  else if uA <=? EA - EB then Case2 else Case3.
Proof.
  unfold Classify; simpl.
  destruct (uA >=? EA); [reflexivity|]. destruct (EB >=? EA); [|reflexivity].
  destruct (Z.leb_spec (Z.sgn uA) 0), (Z.leb_spec uA 0); try reflexivity; lia.
Qed.

(** C4. For non-negative [(u_A, E_A, E_B)], [Classify] returns Case1
    exactly when [u_A >= E_A]; Case2 exactly when [u_A < E_A] and [u_A]
    is at most the threshold [E_A - E_B], a threshold that never goes
    below 0, so that the condition is [u_A <= 0] when [E_B >= E_A];
    and Case3 exactly when [u_A] lies strictly between that threshold
    and [E_A].  The floor at 0 only matters for [u_A = 0] with
    [E_B > E_A], which is Case2 (scenario S2). *)
Theorem Classify_cases (uA EA EB : Z) :
  0 <= uA -> 0 <= EA -> 0 <= EB ->
  (Classify (Some uA) (Some EA) (Some EB) = Case1 <-> uA >= EA)
  /\ (Classify (Some uA) (Some EA) (Some EB) = Case2
      <-> uA < EA /\ uA <= Z.max 0 (EA - EB))
  /\ (EB >= EA ->
      (Classify (Some uA) (Some EA) (Some EB) = Case2 <-> uA < EA /\ uA <= 0))
  /\ (EB < EA ->
      (Classify (Some uA) (Some EA) (Some EB) = Case2 <-> uA < EA /\ uA <= EA - EB))
  /\ (Classify (Some uA) (Some EA) (Some EB) = Case3
      <-> Z.max 0 (EA - EB) < uA < EA)
  /\ (0 < uA \/ EB <= EA ->
      (Classify (Some uA) (Some EA) (Some EB) = Case2 <-> uA < EA /\ uA <= EA - EB)
      /\ (Classify (Some uA) (Some EA) (Some EB) = Case3 <-> EA - EB < uA < EA)).
Proof.
  intros HuA HEA HEB. rewrite Classify_unfold.
  destruct (Z.geb_spec uA EA) as [H1|H1];
    [| destruct (Z.geb_spec EB EA) as [H2|H2];
       [ destruct (Z.leb_spec uA 0) as [H3|H3]
       | destruct (Z.leb_spec uA (EA - EB)) as [H3|H3] ] ];
    repeat split; intros; try discriminate; try lia; try (exfalso; lia).
Qed.

Lemma Classify_cases_witness :
  (0 <= 0 /\ 0 <= 100 /\ 0 <= 500)
  /\ (Classify (Some 0) (Some 100) (Some 500) = Case2
      <-> 0 < 100 /\ 0 <= Z.max 0 (100 - 500)).
Proof.
  split; [lia|].
  exact (proj1 (proj2 (Classify_cases 0 100 500 ltac:(lia) ltac:(lia) ltac:(lia)))).
Defined.

(** Scenario S2 of the specification. *)
Example Classify_S2 :
  Classify (Some 0) (Some 100) (Some 500) = Case2
  /\ Classify (Some 50) (Some 100) (Some 500) = Case3
  /\ Classify (Some 100) (Some 100) (Some 500) = Case1.
Proof. repeat split. Qed.

End SplitFacts.

(** ** Proposer fee of a CSV row *)

Section EthcsvFacts.
Import Ethcsv.

(** A missing price or fee field makes the fee 0. *)
Lemma ComputeProposerFee_nil_fields (r : TxRow) :
  ((EIP2718Type r = 0 \/ EIP2718Type r = 1) -> GasPrice r = None ->
   ComputeProposerFee r = 0)
  /\ ((EIP2718Type r = 2 \/ EIP2718Type r = 3) ->
      BaseFeePerGas r = None \/ MaxFeePerGas r = None \/ MaxPriorityFeePerGas r = None ->
      ComputeProposerFee r = 0).
Proof.
  unfold ComputeProposerFee. split.
  - intros [E|E] G; rewrite E, G; simpl; destruct (GasUsed r =? 0); reflexivity.
  - intros [E|E] G; rewrite E; simpl; destruct (GasUsed r =? 0); try reflexivity;
      destruct G as [G|[G|G]]; rewrite G;
      destruct (BaseFeePerGas r), (MaxFeePerGas r), (MaxPriorityFeePerGas r);
      try reflexivity; discriminate.
Qed.



(** ** Shard map of the CSV side *)

Lemma lowerByte_sameLetter (c d : ascii) :
  sameLetter c d = true -> lowerByte c = lowerByte d.
Proof.
  unfold sameLetter, lowerByte. intros H.
  apply orb_true_iff in H as [H|H].
  { apply bool_decide_eq_true in H. by subst. }
  apply orb_true_iff in H as [H|H];
    repeat (apply andb_true_iff in H as [H ?]);
    repeat match goal with
           | H : (_ <=? _)%nat = true |- _ => apply Nat.leb_le in H
           | H : (_ =? _)%nat = true |- _ => apply Nat.eqb_eq in H
           end.
  - rewrite (proj2 (andb_true_iff _ _) (conj (proj2 (Nat.leb_le _ _) H)
                                             (proj2 (Nat.leb_le _ _) H1))).
    rewrite H0.
    replace ((65 <=? nat_of_ascii c + 32)%nat && (nat_of_ascii c + 32 <=? 90)%nat)
      with false.
    + rewrite <- H0. by rewrite ascii_nat_embedding.
    + symmetry. apply andb_false_iff. right. apply Nat.leb_gt. lia.
  - rewrite (proj2 (andb_true_iff _ _) (conj (proj2 (Nat.leb_le _ _) H)
                                             (proj2 (Nat.leb_le _ _) H1))).
    rewrite H0.
    replace ((65 <=? nat_of_ascii d + 32)%nat && (nat_of_ascii d + 32 <=? 90)%nat)
      with false.
    + rewrite <- H0. by rewrite ascii_nat_embedding.
    + symmetry. apply andb_false_iff. right. apply Nat.leb_gt. lia.
Qed.

Lemma lowerASCII_sameModuloCase (s t : string) :
  sameModuloCase s t = true -> lowerASCII s = lowerASCII t.
Proof.
  revert t. induction s as [|c s IH]; intros [|d t]; simpl; try discriminate; auto.
  intros H. apply andb_true_iff in H as [Hc Hs].
  by rewrite (lowerByte_sameLetter _ _ Hc), (IH _ Hs).
Qed.

(** A change of letter case keeps a byte below 128. *)
Lemma sameLetter_ASCII (c d : ascii) :
  sameLetter c d = true ->
  (nat_of_ascii c <? 128)%nat = true -> (nat_of_ascii d <? 128)%nat = true.
Proof.
  unfold sameLetter. intros H Hc. apply Nat.ltb_lt in Hc. apply Nat.ltb_lt.
  apply orb_true_iff in H as [H|H].
  { apply bool_decide_eq_true in H. by subst. }
  apply orb_true_iff in H as [H|H];
    repeat (apply andb_true_iff in H as [H ?]);
    repeat match goal with
           | H : (_ <=? _)%nat = true |- _ => apply Nat.leb_le in H
           | H : (_ =? _)%nat = true |- _ => apply Nat.eqb_eq in H
           end; lia.
Qed.

Lemma isASCII_sameModuloCase (s t : string) :
  sameModuloCase s t = true -> isASCII s = true -> isASCII t = true.
Proof.
  revert t. induction s as [|c s IH]; intros [|d t]; simpl; try discriminate; auto.
  intros H Hs. apply andb_true_iff in H as [Hc Hst].
  apply andb_true_iff in Hs as [Hcs Hs].
  apply andb_true_iff. split; [by eapply sameLetter_ASCII|by apply IH].
Qed.

Lemma TrimPrefix_absent (s prefix : string) :
  HasPrefix s prefix = false -> TrimPrefix s prefix = s.
Proof. unfold TrimPrefix. by intros ->. Qed.

End EthcsvFacts.

Section ShardMapNormalization.
Context `{GoUnicode}.
Import Ethcsv.

Lemma ToLower_ASCII (s : string) : isASCII s = true -> ToLower s = lowerASCII s.
Proof. unfold ToLower. by intros ->. Qed.

Lemma ToLower_sameModuloCase (s t : string) :
  isASCII s = true -> sameModuloCase s t = true -> ToLower s = ToLower t.
Proof.
  intros Hs Hst. rewrite (ToLower_ASCII s Hs).
  rewrite (ToLower_ASCII t (isASCII_sameModuloCase s t Hst Hs)).
  by apply lowerASCII_sameModuloCase.
Qed.

Lemma TrimPrefix_0x (s : string) :
  isASCII s = true -> TrimPrefix (ToLower ("0x" +:+ s)) "0x" = ToLower s.
Proof.
  intros Hs. rewrite (ToLower_ASCII s Hs).
  assert (isASCII ("0x" +:+ s) = true) as H0 by exact Hs.
  by rewrite (ToLower_ASCII _ H0).
Qed.

(** C10, as amended. For every ASCII address string and every shard
    count [n >= 1], [MapShard] does not change when the case of the
    letters of the address changes, and does not change when ["0x"] is
    put in front of an address that, in lower case, does not itself
    begin with ["0x"].  This holds whatever [strings.ToLower] does to
    strings that are not ASCII. *)
Theorem MapShard_normalizes (addr addr' : string) (n : Z) :
  1 <= n -> isASCII addr = true ->
  (sameModuloCase addr addr' = true -> MapShard addr' n = MapShard addr n)
  /\ (HasPrefix (ToLower addr) "0x" = false ->
      MapShard ("0x" +:+ addr) n = MapShard addr n).
Proof.
  intros Hn Hascii. unfold MapShard. split.
  - intros Hsame. by rewrite (ToLower_sameModuloCase _ _ Hascii Hsame).
  - intros Hpre. rewrite (TrimPrefix_absent _ _ Hpre), (TrimPrefix_0x _ Hascii).
    reflexivity.
Qed.

End ShardMapNormalization.

(** On an ASCII address the shard does not depend on the function that
    stands for the rune mapping. *)
Lemma MapShard_ASCII (U1 U2 : GoUnicode) (addr : string) (n : Z) :
  Ethcsv.isASCII addr = true -> @Ethcsv.MapShard U1 addr n = @Ethcsv.MapShard U2 addr n.
Proof. intros Ha. unfold Ethcsv.MapShard, Ethcsv.ToLower. by rewrite Ha. Qed.

Section ShardMapExamples.
Import Ethcsv.

Lemma MapShard_normalizes_witness :
  (1 <= 4 /\ isASCII "ab12CD" = true)
  /\ MapShard "AB12cd" 4 = MapShard "ab12CD" 4
  /\ MapShard "0xab12CD" 4 = MapShard "ab12CD" 4.
Proof.
  split; [split; [lia|reflexivity]|].
  destruct (MapShard_normalizes "ab12CD" "AB12cd" 4) as [H1 H2];
    [lia | reflexivity |].
  split; [apply H1; reflexivity | apply H2; reflexivity].
Defined.

(** C10, as stated, fails: an address that already carries the prefix
    goes to another shard when a second ["0x"] is put in front of it,
    because only one prefix is stripped before hashing.  The address is
    ASCII, so that the two shards are those of every [strings.ToLower]. *)
Lemma MapShard_second_prefix_counterexample :
  isASCII "0xab" = true /\ isASCII ("0x" +:+ "0xab") = true
  /\ MapShard "0xab" 2 = 0 /\ MapShard ("0x" +:+ "0xab") 2 = 1
  /\ ~ (forall (addr : string) (n : Z), 1 <= n ->
          MapShard ("0x" +:+ addr) n = MapShard addr n).
Proof.
  assert (E1 : MapShard "0xab" 2 = 0) by (vm_compute; reflexivity).
  assert (E2 : MapShard ("0x" +:+ "0xab") 2 = 1) by (vm_compute; reflexivity).
  repeat split; auto.
  intros H. specialize (H "0xab" 2 ltac:(lia)). rewrite E1, E2 in H. discriminate.
Qed.

End ShardMapExamples.


(** ** Pending ledger *)

Section LedgerFacts.
Import Pending.

Lemma Settle_fails_when_settled {W : Type} (l : Ledger) (pairID destBlockID : string)
    (credit : Z -> string -> Z -> W -> W) (w : W) :
  settledFlag l pairID = true ->
  Settle l pairID destBlockID credit w = (l, w, Some (ErrAlreadySettled pairID)).
Proof. unfold Settle. by intros ->. Qed.

Lemma Settle_fails_when_absent {W : Type} (l : Ledger) (pairID destBlockID : string)
    (credit : Z -> string -> Z -> W -> W) (w : W) :
  settledFlag l pairID = false -> pending l !! pairID = None ->
  Settle l pairID destBlockID credit w = (l, w, Some (ErrNotFound pairID)).
Proof. unfold Settle. by intros -> ->. Qed.

Lemma Settle_succeeds {W : Type} (l : Ledger) (pairID destBlockID : string)
    (credit : Z -> string -> Z -> W -> W) (w : W) (p : Pending) :
  settledFlag l pairID = false -> pending l !! pairID = Some p ->
  Settle l pairID destBlockID credit w
  = ({| pending := delete pairID (pending l);
        settled := <[pairID := true]> (settled l) |},
     credit (ShardB p) (proposerID (ShardB p) destBlockID) (UtilityB p)
       (credit (ShardA p) (proposerID (ShardA p) (SourceBlockID p)) (UtilityA p) w),
     None).
Proof. unfold Settle. by intros -> ->. Qed.

(** C2. [Settle] fails exactly when the pair is already settled or is
    not pending.  When it fails the ledger is unchanged and the callback
    has not run: its world is the one it was given, and a recording
    callback has recorded nothing.  When it succeeds the callback has run
    exactly twice, first with the source shard, its proposer and [u_A],
    then with the destination shard, its proposer and [u_B]; the pair has
    left the pending map and entered the settled map, and no other pair
    has moved. *)
Theorem Settle_exactly_once (l : Ledger) (pairID destBlockID : string) :
  (* failure, and nothing happens *)
  (forall (W : Type) (credit : Z -> string -> Z -> W -> W) (w : W),
      snd (Settle l pairID destBlockID credit w) <> None
      <-> settledFlag l pairID = true \/ pending l !! pairID = None)
  /\ (forall (W : Type) (credit : Z -> string -> Z -> W -> W) (w : W),
         snd (Settle l pairID destBlockID credit w) <> None ->
         fst (Settle l pairID destBlockID credit w) = (l, w))
  /\ (forall log,
         snd (Settle l pairID destBlockID recordCredit log) <> None ->
         snd (fst (Settle l pairID destBlockID recordCredit log)) = log)
  (* success: two credits and the move from pending to settled *)
  /\ (forall (W : Type) (credit : Z -> string -> Z -> W -> W) (w : W),
         snd (Settle l pairID destBlockID credit w) = None ->
         exists p,
           pending l !! pairID = Some p
           /\ snd (fst (Settle l pairID destBlockID credit w))
              = credit (ShardB p) (proposerID (ShardB p) destBlockID) (UtilityB p)
                  (credit (ShardA p) (proposerID (ShardA p) (SourceBlockID p))
                     (UtilityA p) w))
  /\ (forall log,
         snd (Settle l pairID destBlockID recordCredit log) = None ->
         exists p,
           pending l !! pairID = Some p
           /\ snd (fst (Settle l pairID destBlockID recordCredit log))
              = log ++ [ (ShardA p, proposerID (ShardA p) (SourceBlockID p), UtilityA p);
                         (ShardB p, proposerID (ShardB p) destBlockID, UtilityB p) ])
  /\ (forall (W : Type) (credit : Z -> string -> Z -> W -> W) (w : W),
         snd (Settle l pairID destBlockID credit w) = None ->
         let l' := fst (fst (Settle l pairID destBlockID credit w)) in
         IsPending l' pairID = false /\ IsSettled l' pairID = true
         /\ (forall other, other <> pairID ->
               pending l' !! other = pending l !! other
               /\ settled l' !! other = settled l !! other)).
Proof.
  assert (Cases : forall (W : Type) (credit : Z -> string -> Z -> W -> W) (w : W),
    (settledFlag l pairID = true
     /\ Settle l pairID destBlockID credit w = (l, w, Some (ErrAlreadySettled pairID)))
    \/ (settledFlag l pairID = false /\ pending l !! pairID = None
        /\ Settle l pairID destBlockID credit w = (l, w, Some (ErrNotFound pairID)))
    \/ (exists p, settledFlag l pairID = false /\ pending l !! pairID = Some p
        /\ Settle l pairID destBlockID credit w
           = ({| pending := delete pairID (pending l);
                 settled := <[pairID := true]> (settled l) |},
              credit (ShardB p) (proposerID (ShardB p) destBlockID) (UtilityB p)
                (credit (ShardA p) (proposerID (ShardA p) (SourceBlockID p))
                   (UtilityA p) w),
              None))).
  { intros W credit w. destruct (settledFlag l pairID) eqn:Es.
    - left. split; [done|]. by apply Settle_fails_when_settled.
    - right. destruct (pending l !! pairID) as [p|] eqn:Ep.
      + right. exists p. repeat split; try done. by apply Settle_succeeds.
      + left. repeat split; try done. by apply Settle_fails_when_absent. }
  repeat apply conj.
  - intros W credit w.
    destruct (Cases W credit w) as [[Es E]|[(Es & Ep & E)|(p & Es & Ep & E)]];
      rewrite E; simpl; split; intros H; try done; auto.
    destruct H as [H|H]; congruence.
  - intros W credit w.
    destruct (Cases W credit w) as [[Es E]|[(Es & Ep & E)|(p & Es & Ep & E)]];
      rewrite E; simpl; intros H; done.
  - intros log.
    destruct (Cases _ recordCredit log) as [[Es E]|[(Es & Ep & E)|(p & Es & Ep & E)]];
      rewrite E; simpl; intros H; done.
  - intros W credit w.
    destruct (Cases W credit w) as [[Es E]|[(Es & Ep & E)|(p & Es & Ep & E)]];
      rewrite E; simpl; intros H; try done. by exists p.
  - intros log.
    destruct (Cases _ recordCredit log) as [[Es E]|[(Es & Ep & E)|(p & Es & Ep & E)]];
      rewrite E; simpl; intros H; try done.
    exists p. split; [done|]. unfold recordCredit. by rewrite <- app_assoc.
  - intros W credit w.
    destruct (Cases W credit w) as [[Es E]|[(Es & Ep & E)|(p & Es & Ep & E)]];
      rewrite E; simpl; intros H; try done.
    unfold IsPending, IsSettled, settledFlag; simpl.
    rewrite lookup_delete_eq, lookup_insert_eq.
    split; [|split; [done|intros other Ho; split]].
    + apply bool_decide_eq_false. by intros [? ?].
    + by rewrite lookup_delete_ne.
    + by rewrite lookup_insert_ne.
Qed.

(** The lookup of a pair after [CleanupOld], for any starting
    accumulator of the loop. *)
Lemma CleanupOld_loop (olderThan : Z) (base m : gmap string Pending) (k : string) :
  fst (map_fold
         (fun pairID p '(pend, count) =>
            if CreatedAt p <? olderThan then (delete pairID pend, count + 1)
            else (pend, count))
         (base, 0) m) !! k
  = match m !! k with
    | Some p => if CreatedAt p <? olderThan then None else base !! k
    | None => base !! k
    end.
Proof.
  apply (map_fold_weak_ind
           (fun (r : gmap string Pending * Z) (m : gmap string Pending) =>
              fst r !! k
              = match m !! k with
                | Some p => if CreatedAt p <? olderThan then None else base !! k
                | None => base !! k
                end)).
  - by rewrite lookup_empty.
  - intros i x m' [pend count] Hi IH. simpl in IH.
    destruct (decide (i = k)) as [->|Hne].
    + rewrite lookup_insert_eq. rewrite Hi in IH.
      destruct (CreatedAt x <? olderThan); simpl; [by rewrite lookup_delete_eq | done].
    + rewrite lookup_insert_ne by done.
      destruct (CreatedAt x <? olderThan); simpl; [by rewrite lookup_delete_ne | done].
Qed.

Lemma CleanupOld_lookup (l : Ledger) (olderThan : Z) (k : string) :
  pending (fst (CleanupOld l olderThan)) !! k
  = match pending l !! k with
    | Some p => if CreatedAt p <? olderThan then None else Some p
    | None => None
    end.
Proof.
  unfold CleanupOld.
  pose proof (CleanupOld_loop olderThan (pending l) (pending l) k) as H.
  destruct (map_fold _ _ _) as [pend count]; simpl in *. rewrite H.
  destruct (pending l !! k) as [p|] eqn:E; [|done].
  by destruct (CreatedAt p <? olderThan).
Qed.

Lemma CleanupOld_settled (l : Ledger) (olderThan : Z) :
  settled (fst (CleanupOld l olderThan)) = settled l.
Proof. unfold CleanupOld. by destruct (map_fold _ _ _). Qed.

(** C9. A pair that is pending and was never settled, and that
    [CleanupOld] removes because its entry is older than the threshold,
    can be added again: the following [Add] of an entry with the same
    pair identifier returns no error and makes that entry pending. *)
Theorem CleanupOld_then_Add (l : Ledger) (olderThan : Z) (old new : Pending) :
  pending l !! PairID new = Some old ->
  settledFlag l (PairID new) = false ->
  CreatedAt old < olderThan ->
  let cleaned := fst (CleanupOld l olderThan) in
  IsPending cleaned (PairID new) = false
  /\ IsSettled cleaned (PairID new) = false
  /\ snd (Add cleaned new) = None
  /\ pending (fst (Add cleaned new)) !! PairID new = Some new.
Proof.
  intros Hp Hs Ht cleaned.
  assert (Hgone : pending cleaned !! PairID new = None).
  { unfold cleaned. rewrite CleanupOld_lookup, Hp.
    by rewrite (proj2 (Z.ltb_lt _ _) Ht). }
  assert (Hflag : settledFlag cleaned (PairID new) = false).
  { unfold settledFlag, cleaned. rewrite CleanupOld_settled. exact Hs. }
  repeat split.
  - unfold IsPending. apply bool_decide_eq_false. rewrite Hgone. by intros [? ?].
  - exact Hflag.
  - unfold Add. by rewrite Hflag, Hgone.
  - unfold Add. rewrite Hflag, Hgone. simpl. by rewrite lookup_insert_eq.
Qed.

End LedgerFacts.

Section LedgerExamples.
Import Pending.

Lemma CleanupOld_then_Add_witness :
  (pending ledgerS5 !! "tx1" = Some entryS5
   /\ settledFlag ledgerS5 "tx1" = false
   /\ CreatedAt entryS5 < 2000)
  /\ snd (Add (fst (CleanupOld ledgerS5 2000)) entryS5) = None.
Proof.
  assert (H1 : pending ledgerS5 !! PairID entryS5 = Some entryS5) by (vm_compute; reflexivity).
  assert (H2 : settledFlag ledgerS5 (PairID entryS5) = false) by (vm_compute; reflexivity).
  assert (H3 : CreatedAt entryS5 < 2000) by (vm_compute; reflexivity).
  split; [exact (conj H1 (conj H2 H3))|].
  exact (proj1 (proj2 (proj2 (CleanupOld_then_Add ledgerS5 2000 entryS5 entryS5 H1 H2 H3)))).
Defined.

(** Scenario S5: the first [Settle] credits 75 to shard 0 and 75 to
    shard 1 and moves the pair; the second fails and records nothing. *)
Example Settle_S5 :
  let '(l1, log1, err1) := Settle ledgerS5 "tx1" "blockB" recordCredit [] in
  let '(l2, log2, err2) := Settle l1 "tx1" "blockC" recordCredit log1 in
  err1 = None
  /\ log1 = [ (0, "proposer_shard_0_block_blockA", 75);
              (1, "proposer_shard_1_block_blockB", 75) ]
  /\ IsPending l1 "tx1" = false /\ IsSettled l1 "tx1" = true
  /\ err2 = Some (ErrAlreadySettled "tx1") /\ log2 = log1.
Proof. vm_compute. repeat split. Qed.

End LedgerExamples.

(** ** Fee tracker *)

Section TrackerFacts.
Import Expectation.

Lemma fold_left_add_acc (l : list Z) (a : Z) :
  fold_left Z.add l a = a + fold_left Z.add l 0.
Proof.
  revert a. induction l as [|x l IH]; intros a; simpl; [lia|].
  rewrite (IH (a + x)), (IH (0 + x)). lia.
Qed.

Lemma last_drop_lt {A : Type} (l : list A) (n : nat) :
  (n < length l)%nat -> last (drop n l) = last l.
Proof.
  intros H. rewrite !last_lookup, lookup_drop, length_drop. f_equal. lia.
Qed.

(** The loop adds the capped positive fees to the sum and their number
    to the count. *)
Lemma cappedSum_spec (fees : list (option Z)) (sum count : Z) :
  cappedSum fees sum count
  = (sum + fold_left Z.add (map capFee (positiveFees fees)) 0,
     count + Z.of_nat (length (positiveFees fees))).
Proof.
  revert sum count.
  induction fees as [|[f|] fees IH]; intros sum count; simpl.
  - apply (f_equal2 pair); lia.
  - destruct (Z.ltb_spec 0 f) as [Hf|Hf]; simpl.
    + rewrite IH. rewrite (fold_left_add_acc _ (0 + capFee f)). unfold capFee.
      destruct (Z.gtb_spec f feeCap); apply (f_equal2 pair); lia.
    + apply IH.
  - apply IH.
Qed.

(** The block mean is the mean of the capped positive fees. *)
Lemma blockMean_spec (fees : list (option Z)) :
  blockMean fees
  = if Z.of_nat (length (positiveFees fees)) =? 0 then 0
    else fold_left Z.add (map capFee (positiveFees fees)) 0
         / Z.of_nat (length (positiveFees fees)).
Proof.
  unfold blockMean. destruct fees as [|f fees].
  - reflexivity.
  - change (0 <? Z.of_nat (length (f :: fees))) with true. cbv iota.
    rewrite cappedSum_spec.
    destruct (Z.ltb_spec 0 (0 + Z.of_nat (length (positiveFees (f :: fees))))) as [H|H];
      destruct (Z.eqb_spec (Z.of_nat (length (positiveFees (f :: fees)))) 0) as [E|E];
      try lia; reflexivity.
Qed.

(** On fees that are all present, positive and at most the cap, the
    block mean is the plain mean of the specification. *)
Lemma blockMean_plain (plain : list Z) :
  Forall (fun f => 0 < f <= feeCap) plain ->
  blockMean (map Some plain) = specBlockMean plain.
Proof.
  intros H. rewrite blockMean_spec. unfold specBlockMean.
  assert (E : positiveFees (map Some plain) = plain).
  { induction H as [|f l Hf Hl IH]; simpl; [done|].
    rewrite IH. destruct (Z.ltb_spec 0 f); [done|lia]. }
  assert (C : map capFee plain = plain).
  { clear E. induction H as [|f l Hf Hl IH]; simpl; [done|].
    rewrite IH. unfold capFee. rewrite Z.min_l by lia. done. }
  by rewrite E, C.
Qed.

(** [OnBlockFinalized] returns, and what it leaves in the tracker. *)
Lemma OnBlockFinalized_window (t : Tracker) (shardID : Z) (fees : list (option Z)) :
  0 <= WindowSize t ->
  exists t',
    OnBlockFinalized t shardID fees = Some t'
    /\ WindowSize t' = WindowSize t
    /\ (let l := default [] (itxWindows t !! shardID) ++ [blockMean fees] in
        let w' := drop (Z.to_nat (Z.of_nat (length l) - WindowSize t)) l in
        itxWindows t' !! shardID = Some w'
        /\ avg t' !! shardID = Some (windowSum w' / Z.of_nat (length w'))).
Proof.
  intros HK. unfold OnBlockFinalized.
  destruct (Z.ltb_spec (WindowSize t) 0) as [?|_]; [lia|].
  eexists. split; [reflexivity|].
  set (t1 := match itxWindows t !! shardID with Some _ => t | None => _ end).
  assert (Hw : default [] (itxWindows t1 !! shardID) = default [] (itxWindows t !! shardID)).
  { unfold t1. destruct (itxWindows t !! shardID) eqn:E; simpl.
    - by rewrite E.
    - by rewrite lookup_insert_eq. }
  assert (HK1 : WindowSize t1 = WindowSize t).
  { unfold t1. by destruct (itxWindows t !! shardID). }
  rewrite Hw, HK1.
  set (l := default [] (itxWindows t !! shardID) ++ [blockMean fees]).
  assert (Hdrop : (if Z.of_nat (length l) >? WindowSize t
                   then drop (Z.to_nat (Z.of_nat (length l) - WindowSize t)) l else l)
                  = drop (Z.to_nat (Z.of_nat (length l) - WindowSize t)) l).
  { destruct (Z.gtb_spec (Z.of_nat (length l)) (WindowSize t)) as [H|H]; [done|].
    replace (Z.to_nat (Z.of_nat (length l) - WindowSize t)) with 0%nat by lia. done. }
  rewrite Hdrop. unfold recomputeAvg; simpl.
  rewrite !lookup_insert_eq; simpl.
  repeat split.
  destruct (Z.eqb_spec (Z.of_nat (length (drop (Z.to_nat (Z.of_nat (length l) - WindowSize t)) l))) 0)
    as [E|E]; [|done].
  rewrite E. by rewrite Z.div_0_r.
Qed.

(** What [OnBlockFinalized] computes.  For every shard and every call
    [OnBlockFinalized(shard, fees)] on a tracker whose window size is
    not negative, the call returns; the value appended to the window of
    the shard is the sum of the present, positive fees, each counted at
    most with the cap of [10^14], divided by the number of those fees (0
    when there is none), which is the plain mean of the passed fees when
    all of them are positive and at most the cap; the window keeps its
    last [WindowSize] entries; and the stored mean afterwards is the sum
    of the window entries divided by the window length.  With window size
    3, finalizing [100,200,300], [400,500] and [600] gives the mean 416,
    and finalizing [900] after that gives 650. *)
Theorem OnBlockFinalized_mean :
  (forall (t : Tracker) (shardID : Z) (fees : list (option Z)),
      0 <= WindowSize t ->
      exists t' w',
        OnBlockFinalized t shardID fees = Some t'
        /\ itxWindows t' !! shardID = Some w'
        /\ w' = (let l := default [] (itxWindows t !! shardID) ++ [blockMean fees] in
                 drop (Z.to_nat (Z.of_nat (length l) - WindowSize t)) l)
        /\ (1 <= WindowSize t -> last w' = Some (blockMean fees))
        /\ blockMean fees
           = (if Z.of_nat (length (positiveFees fees)) =? 0 then 0
              else fold_left Z.add (map capFee (positiveFees fees)) 0
                   / Z.of_nat (length (positiveFees fees)))
        /\ (forall plain, fees = map Some plain ->
              Forall (fun f => 0 < f <= feeCap) plain ->
              blockMean fees = specBlockMean plain)
        /\ GetAvgITXFee t' shardID = windowSum w' / Z.of_nat (length w'))
  /\ (exists t3 t4,
        finalizeAll (NewTracker 3) blocksS3 = Some t3
        /\ GetAvgITXFee t3 0 = 416
        /\ OnBlockFinalized t3 0 [Some 900] = Some t4
        /\ GetAvgITXFee t4 0 = 650).
Proof.
  split.
  - intros t shardID fees HK.
    destruct (OnBlockFinalized_window t shardID fees HK) as (t' & E & _ & Hw & Ha).
    simpl in Hw, Ha. eexists t', _. split; [exact E|]. split; [exact Hw|].
    split; [reflexivity|]. split; [|split; [apply blockMean_spec|split]].
    + intros HK1. rewrite last_drop_lt.
      * by rewrite last_snoc.
      * rewrite length_app; simpl. lia.
    + intros plain -> Hall. by apply blockMean_plain.
    + unfold GetAvgITXFee. by rewrite Ha.
  - eexists _, _. split; [vm_compute; reflexivity|].
    split; [vm_compute; reflexivity|]. split; vm_compute; reflexivity.
Qed.

Lemma OnBlockFinalized_mean_witness :
  0 <= WindowSize (NewTracker 3)
  /\ exists t' w',
       OnBlockFinalized (NewTracker 3) 0 [Some 100; Some 200; Some 300] = Some t'
       /\ itxWindows t' !! 0 = Some w'
       /\ last w' = Some 200
       /\ GetAvgITXFee t' 0 = windowSum w' / Z.of_nat (length w').
Proof.
  assert (HK : 0 <= WindowSize (NewTracker 3)) by (vm_compute; discriminate).
  split; [exact HK|].
  destruct (proj1 OnBlockFinalized_mean (NewTracker 3) 0
              [Some 100; Some 200; Some 300] HK)
    as (t' & w' & E & Hw & _ & Hlast & _ & _ & Havg).
  exists t', w'. repeat split; try assumption.
  apply Hlast. vm_compute; discriminate.
Defined.

(** A fee of 0 is left out of the count, a nil fee likewise, and a fee
    above the cap enters the sum with the value of the cap, so the value
    appended to the window is not the sum of the passed fees divided by
    their count. *)
Lemma OnBlockFinalized_mean_counterexample :
  (exists t', OnBlockFinalized (NewTracker 3) 0 [Some 0; Some 100] = Some t'
              /\ itxWindows t' !! 0 = Some [100])
  /\ specBlockMean [0; 100] = 50
  /\ (exists t', OnBlockFinalized (NewTracker 3) 0 [Some 300000000000000] = Some t'
                 /\ itxWindows t' !! 0 = Some [100000000000000])
  /\ specBlockMean [300000000000000] = 300000000000000
  /\ ~ (forall (t t' : Tracker) (shardID : Z) (plain : list Z),
          OnBlockFinalized t shardID (map Some plain) = Some t' ->
          last (default [] (itxWindows t' !! shardID)) = Some (specBlockMean plain)).
Proof.
  split; [eexists; split; vm_compute; reflexivity|].
  split; [reflexivity|].
  split; [eexists; split; vm_compute; reflexivity|].
  split; [reflexivity|].
  intros H.
  assert (E : exists t', OnBlockFinalized (NewTracker 3) 0 (map Some [0; 100]) = Some t'
                         /\ last (default [] (itxWindows t' !! 0)) = Some 100).
  { eexists; split; vm_compute; reflexivity. }
  destruct E as (t' & E1 & E2).
  specialize (H _ _ _ _ E1). rewrite E2 in H. vm_compute in H. discriminate.
Qed.

(** C3. The block mean of [OnBlockFinalized] is not the mean that the
    claim and the tests of the package state.  In [TestTracker_LargeValues]
    a tracker of window size 4 finalizes the fees of 1, 2 and 3 ETH on
    shard 0 and the test wants the mean 2 ETH, the sum of the passed
    fees divided by their count; the code caps every fee at [10^14] and
    stores [10^14].  In [TestTracker_NilFees] the fees are 100, nil and
    300 and the test wants 133, a nil fee being counted as 0; the code
    leaves the nil fee out of the count and stores 200.  A fee of 0 is
    left out in the same way: 0 and 100 give 100, not 50.  The rolling
    mean of the three-block scenario is not affected: 416, then 650. *)
Theorem OnBlockFinalized_mean_breaks_tests :
  (exists t',
      OnBlockFinalized (NewTracker 4) 0
        [Some 1000000000000000000; Some 2000000000000000000;
         Some 3000000000000000000] = Some t'
      /\ itxWindows t' !! 0 = Some [100000000000000]
      /\ GetAvgITXFee t' 0 = 100000000000000)
  /\ specBlockMean [1000000000000000000; 2000000000000000000; 3000000000000000000]
     = 2000000000000000000
  /\ (exists t',
        OnBlockFinalized (NewTracker 4) 0 [Some 100; None; Some 300] = Some t'
        /\ itxWindows t' !! 0 = Some [200]
        /\ GetAvgITXFee t' 0 = 200)
  /\ specBlockMean (map orZero [Some 100; None; Some 300]) = 133
  /\ (exists t',
        OnBlockFinalized (NewTracker 4) 0 [Some 0; Some 100] = Some t'
        /\ itxWindows t' !! 0 = Some [100]
        /\ GetAvgITXFee t' 0 = 100)
  /\ specBlockMean [0; 100] = 50
  /\ (exists t3 t4,
        finalizeAll (NewTracker 3) blocksS3 = Some t3
        /\ GetAvgITXFee t3 0 = 416
        /\ OnBlockFinalized t3 0 [Some 900] = Some t4
        /\ GetAvgITXFee t4 0 = 650).
Proof.
  split; [eexists; split; [|split]; vm_compute; reflexivity|].
  split; [reflexivity|].
  split; [eexists; split; [|split]; vm_compute; reflexivity|].
  split; [reflexivity|].
  split; [eexists; split; [|split]; vm_compute; reflexivity|].
  split; [reflexivity|].
  eexists _, _. split; [vm_compute; reflexivity|].
  split; [vm_compute; reflexivity|]. split; vm_compute; reflexivity.
Qed.

End TrackerFacts.

(** ** binary64 arithmetic *)

Section FloatFacts.
Import F64.

Lemma shr_1_nonneg (mrs : shr_record) : 0 <= shr_m mrs -> 0 <= shr_m (shr_1 mrs).
Proof.
  destruct mrs as [m r s]; simpl. destruct m as [|p|p]; simpl; intros H; try lia;
    destruct p; simpl; lia.
Qed.

Lemma iter_shr_1_nonneg (p : positive) (mrs : shr_record) :
  0 <= shr_m mrs -> 0 <= shr_m (SpecFloat.iter_pos shr_1 p mrs).
Proof.
  revert mrs. induction p as [p IH|p IH|]; intros mrs H; simpl.
  - apply IH, IH, shr_1_nonneg, H.
  - apply IH, IH, H.
  - apply shr_1_nonneg, H.
Qed.

Lemma shr_fexp_nonneg (p e : Z) (m ex : Z) (l : location) :
  0 <= m -> 0 <= shr_m (fst (shr_fexp p e m ex l)).
Proof.
  intros H. unfold shr_fexp, shr.
  assert (H0 : 0 <= shr_m (shr_record_of_loc m l)).
  { destruct l as [|[| |]]; simpl; exact H. }
  destruct (fexp p e (Zdigits2 m + ex) - ex) as [|q|q]; simpl; try exact H0.
  apply iter_shr_1_nonneg, H0.
Qed.

Lemma round_nearest_even_nonneg (m : Z) (l : location) :
  0 <= m -> 0 <= round_nearest_even m l.
Proof.
  intros H. destruct l as [|[| |]]; simpl; try lia. destruct (Z.even m); lia.
Qed.

(** Rounding a non-negative mantissa never produces a NaN. *)
Lemma binary_round_aux_not_nan (p e : Z) (s : bool) (m ex : Z) (l : location) :
  0 <= m -> is_nan (binary_round_aux p e s m ex l) = false.
Proof.
  intros H. unfold binary_round_aux.
  pose proof (shr_fexp_nonneg p e m ex l H) as H1.
  destruct (shr_fexp p e m ex l) as [mrs' e'] eqn:E1. simpl in H1.
  pose proof (shr_fexp_nonneg p e _ e' loc_Exact
                (round_nearest_even_nonneg _ (loc_of_shr_record mrs') H1)) as H2.
  destruct (shr_fexp p e (round_nearest_even (shr_m mrs') (loc_of_shr_record mrs')) e'
              loc_Exact) as [mrs'' e''] eqn:E2. simpl in H2.
  destruct (shr_m mrs'') as [|q|q]; try reflexivity; [|lia].
  destruct (e'' <=? e - p); reflexivity.
Qed.

Lemma binary_normalize_not_nan (p e : Z) (m ex : Z) (sz : bool) :
  is_nan (binary_normalize p e m ex sz) = false.
Proof.
  unfold binary_normalize, binary_round.
  destruct m as [|q|q]; try reflexivity;
    destruct (shl_align q ex _) as [mz ez]; apply binary_round_aux_not_nan; lia.
Qed.

Lemma of_Z_not_nan (n : Z) : is_nan (of_Z n) = false.
Proof. apply binary_normalize_not_nan. Qed.

(** A sum is a NaN only for a NaN operand or opposite infinities. *)
Lemma add_finite_not_nan (x y : float64) :
  is_finite x = true -> is_nan y = false -> is_nan (add x y) = false.
Proof.
  unfold add, SFadd. destruct x as [sx|sx| |sx mx ex]; try discriminate;
    destruct y as [sy|sy| |sy my ey]; try discriminate; intros _ _; try reflexivity.
  - destruct sx, sy; reflexivity.
  - apply binary_normalize_not_nan.
Qed.

(** A product with a finite non-zero factor is a NaN only for a NaN
    factor. *)
Lemma mul_finite_nonzero_not_nan (x y : float64) :
  is_finite_nonzero x = true -> is_nan y = false -> is_nan (mul x y) = false.
Proof.
  unfold mul, SFmul. destruct x as [sx|sx| |sx mx ex]; try discriminate;
    destruct y as [sy|sy| |sy my ey]; try discriminate; intros _ _; try reflexivity.
  apply binary_round_aux_not_nan. lia.
Qed.

(** A quotient by a finite non-zero divisor is a NaN only for a NaN
    dividend. *)
Lemma div_finite_nonzero_not_nan (x y : float64) :
  is_nan x = false -> is_finite_nonzero y = true -> is_nan (div x y) = false.
Proof.
  unfold div, SFdiv. destruct x as [sx|sx| |sx mx ex]; try discriminate;
    destruct y as [sy|sy| |sy my ey]; try discriminate; intros _ _; try reflexivity.
  unfold SFdiv_core_binary.
  set (m' := match _ with Z.pos _ => _ | 0 => _ | Z.neg _ => _ end).
  assert (Hm : 0 <= m').
  { unfold m'. destruct (_ - _ - _) as [|q|q]; try lia. apply Z.shiftl_nonneg. lia. }
  pose proof (Z.div_eucl_eq m' (Z.pos my) ltac:(lia)) as Hq.
  pose proof (Z.mod_pos_bound m' (Z.pos my) ltac:(lia)) as Hr.
  unfold Z.modulo in Hr.
  destruct (Z.div_eucl m' (Z.pos my)) as [q r]. apply binary_round_aux_not_nan. nia.
Qed.

(** Comparisons. *)
Lemma SFcompare_swap (x y : float64) (c : comparison) :
  SFcompare x y = Some c -> SFcompare y x = Some (CompOpp c).
Proof.
  destruct x as [sx|sx| |sx mx ex], y as [sy|sy| |sy my ey]; simpl;
    intros H; inversion H; subst; clear H;
    try (destruct sx; reflexivity); try (destruct sy; reflexivity);
    try (destruct sx, sy; reflexivity); try reflexivity.
  destruct sx, sy; try reflexivity.
  - rewrite (Z.compare_antisym ey ex). destruct (ey ?= ex) eqn:E; simpl; try reflexivity.
    rewrite CompOpp_involutive. f_equal. exact (Pos.compare_cont_antisym my mx Eq).
  - rewrite (Z.compare_antisym ey ex). destruct (ey ?= ex) eqn:E; simpl; try reflexivity.
    f_equal. symmetry. exact (Pos.compare_cont_antisym mx my Eq).
Qed.

Lemma SFcompare_refl (x : float64) : is_nan x = false -> SFcompare x x = Some Eq.
Proof.
  destruct x as [sx|sx| |sx mx ex]; try discriminate; intros _; simpl;
    try (destruct sx; reflexivity).
  destruct sx; rewrite Z.compare_refl; fold (Pos.compare mx mx);
    by rewrite Pos.compare_refl.
Qed.

Lemma SFcompare_not_nan (x y : float64) :
  is_nan x = false -> is_nan y = false -> exists c, SFcompare x y = Some c.
Proof.
  destruct x as [sx|sx| |sx mx ex], y as [sy|sy| |sy my ey]; try discriminate;
    intros _ _; simpl; eauto.
Qed.

Lemma leb_not_nan (x y : float64) :
  leb x y = true -> is_nan x = false /\ is_nan y = false.
Proof.
  unfold leb, SFleb.
  destruct x as [sx|sx| |sx mx ex], y as [sy|sy| |sy my ey]; simpl;
    try discriminate; auto.
Qed.

(** Without NaNs, "not less" is "greater or equal". *)
Lemma ltb_false_leb (x y : float64) :
  is_nan x = false -> is_nan y = false -> ltb x y = false -> leb y x = true.
Proof.
  intros Hx Hy. unfold ltb, leb, SFltb, SFleb.
  destruct (SFcompare_not_nan x y Hx Hy) as [c Hc]. rewrite Hc.
  rewrite (SFcompare_swap _ _ _ Hc). destruct c; simpl; auto; discriminate.
Qed.

Lemma leb_ltb_false (x y : float64) : leb x y = true -> ltb y x = false.
Proof.
  unfold ltb, leb, SFltb, SFleb.
  destruct (SFcompare x y) as [c|] eqn:Hc; [|discriminate].
  rewrite (SFcompare_swap _ _ _ Hc). destruct c; simpl; auto; discriminate.
Qed.

Lemma leb_refl (x : float64) : is_nan x = false -> leb x x = true.
Proof. intros H. unfold leb, SFleb. by rewrite SFcompare_refl. Qed.

(** Between two finite bounds there is no infinity. *)
Lemma between_finite (lo x hi : float64) :
  is_finite lo = true -> is_finite hi = true ->
  leb lo x = true -> leb x hi = true -> is_finite x = true.
Proof.
  unfold leb, SFleb.
  destruct lo as [sl|sl| |sl ml el]; try discriminate;
    destruct hi as [sh|sh| |sh mh eh]; try discriminate;
    destruct x as [sx|sx| |sx mx ex]; try reflexivity; simpl; try discriminate;
    destruct sx; try discriminate; intros _ _ H1 H2; try discriminate.
Qed.

End FloatFacts.

(** ** Lagrangian shadow price *)

Section ShadowPriceFacts.
Import F64 Subsidy.

(** A clamped number that is not a NaN lies between the bounds. *)
Lemma clamp_bounds (x lo hi : float64) :
  is_nan x = false -> leb lo hi = true ->
  leb lo (clamp x lo hi) = true /\ leb (clamp x lo hi) hi = true.
Proof.
  intros Hx Hb. destruct (leb_not_nan _ _ Hb) as [Hlo Hhi]. unfold clamp.
  destruct (ltb x lo) eqn:E1.
  - rewrite (leb_ltb_false _ _ Hb). split; [by apply leb_refl | exact Hb].
  - destruct (ltb hi x) eqn:E2.
    + split; [exact Hb | by apply leb_refl].
    + split; by apply ltb_false_leb.
Qed.

Lemma normalizedViolation_not_nan (total limit : Z) :
  is_finite (of_Z limit) = true -> is_nan (normalizedViolation total limit) = false.
Proof.
  intros Hf. unfold normalizedViolation. destruct (ltb zero (of_Z limit)) eqn:E.
  - apply div_finite_nonzero_not_nan; [apply of_Z_not_nan|].
    destruct (of_Z limit) as [s|s| |s m e]; try discriminate; reflexivity.
  - reflexivity.
Qed.

(** What one call with non-nil arguments stores. *)
Lemma UpdateShadowPrice_step (m : Mechanism) (total limit : Z) (now : Time) :
  let P := lagrangianParams (config m) in
  let m' := UpdateShadowPrice m (Some total) (Some limit) now in
  Lambda (lagrangianState m')
  = clamp (add (Lambda (lagrangianState m))
               (mul (Alpha P) (normalizedViolation total limit)))
          (MinLambda P) (MaxLambda P)
  /\ TotalSubsidy (lagrangianState m') = Some total
  /\ config m' = config m.
Proof. repeat split. Qed.

(** One call brings a finite shadow price into the bounds and keeps it
    finite. *)
Lemma UpdateShadowPrice_invariant (m : Mechanism) (total limit : Z) (now : Time) :
  let P := lagrangianParams (config m) in
  is_finite_nonzero (Alpha P) = true ->
  is_finite (MinLambda P) = true -> is_finite (MaxLambda P) = true ->
  leb (MinLambda P) (MaxLambda P) = true ->
  is_finite (Lambda (lagrangianState m)) = true ->
  is_finite (of_Z limit) = true ->
  let m' := UpdateShadowPrice m (Some total) (Some limit) now in
  leb (MinLambda P) (Lambda (lagrangianState m')) = true
  /\ leb (Lambda (lagrangianState m')) (MaxLambda P) = true
  /\ is_finite (Lambda (lagrangianState m')) = true.
Proof.
  intros P Ha Hlo Hhi Hb Hl Hlim m'.
  destruct (UpdateShadowPrice_step m total limit now) as (E & _ & _).
  fold P in E. fold m' in E. rewrite E.
  assert (Hn : is_nan (add (Lambda (lagrangianState m))
                           (mul (Alpha P) (normalizedViolation total limit))) = false).
  { apply add_finite_not_nan; [exact Hl|].
    apply mul_finite_nonzero_not_nan; [exact Ha|].
    by apply normalizedViolation_not_nan. }
  destruct (clamp_bounds _ _ _ Hn Hb) as [B1 B2].
  repeat split; try assumption. by apply (between_finite (MinLambda P) _ (MaxLambda P)).
Qed.

(** A call with a nil argument changes nothing. *)
Lemma UpdateShadowPrice_nil (m : Mechanism) (call : ShadowCall) :
  effective call = false ->
  UpdateShadowPrice m (fst (fst call)) (snd (fst call)) (snd call) = m.
Proof. destruct call as [[[total|] [limit|]] now]; simpl; done. Qed.

(** A run of calls ends with the shadow price in the bounds when it
    started there, or when one of the calls was effective. *)
Lemma updateAll_bounds (calls : list ShadowCall) (m : Mechanism) :
  let P := lagrangianParams (config m) in
  is_finite_nonzero (Alpha P) = true ->
  is_finite (MinLambda P) = true -> is_finite (MaxLambda P) = true ->
  leb (MinLambda P) (MaxLambda P) = true ->
  is_finite (Lambda (lagrangianState m)) = true ->
  Forall (fun call => limitInRange call = true) calls ->
  inBounds P (Lambda (lagrangianState m)) \/ Exists (fun call => effective call = true) calls ->
  inBounds P (Lambda (lagrangianState (updateAll m calls))).
Proof.
  revert m. induction calls as [|call calls IH];
    intros m P Ha Hlo Hhi Hb Hl Hcalls Hstart.
  - destruct Hstart as [Hin|Hex]; [exact Hin|]. by apply Exists_nil in Hex.
  - apply Forall_cons in Hcalls as [Hc Hcalls].
    change (updateAll m (call :: calls))
      with (updateAll (UpdateShadowPrice m (fst (fst call)) (snd (fst call)) (snd call))
              calls).
    destruct (effective call) eqn:Heff.
    + destruct call as [[[total|] [limit|]] now]; try discriminate.
      destruct (UpdateShadowPrice_invariant m total limit now Ha Hlo Hhi Hb Hl Hc)
        as (B1 & B2 & B3).
      apply (IH (UpdateShadowPrice m (Some total) (Some limit) now));
        [exact Ha | exact Hlo | exact Hhi | exact Hb | exact B3 | exact Hcalls |].
      left. by split.
    + rewrite (UpdateShadowPrice_nil m call Heff).
      apply IH; try assumption.
      destruct Hstart as [Hin|Hex]; [by left|right].
      apply Exists_cons in Hex as [Hex|Hex]; [congruence|exact Hex].
Qed.

(** C7, as amended. With parameters that are binary64 numbers ([alpha]
    finite and not zero, finite bounds with [lambda_min <= lambda_max]),
    a finite starting price and limits within the range of binary64,
    after any sequence of [UpdateShadowPrice] calls the shadow price
    lies in [[lambda_min, lambda_max]], provided it started there (as
    the initial 1.0 does under the default bounds) or one of the calls
    had both arguments; each call with both arguments sets it to
    [clamp(lambda + alpha * normalized, lambda_min, lambda_max)] where
    [normalized] is the violation divided by the limit, and 0 when the
    limit is 0, and stores the total it was given. *)
Theorem UpdateShadowPrice_bounds (m : Mechanism) (calls : list ShadowCall) :
  let P := lagrangianParams (config m) in
  is_finite_nonzero (Alpha P) = true ->
  is_finite (MinLambda P) = true -> is_finite (MaxLambda P) = true ->
  leb (MinLambda P) (MaxLambda P) = true ->
  is_finite (Lambda (lagrangianState m)) = true ->
  Forall (fun call => limitInRange call = true) calls ->
  (inBounds P (Lambda (lagrangianState m))
   \/ Exists (fun call => effective call = true) calls ->
   inBounds P (Lambda (lagrangianState (updateAll m calls))))
  /\ (forall total limit now,
        let m' := UpdateShadowPrice m (Some total) (Some limit) now in
        Lambda (lagrangianState m')
        = clamp (add (Lambda (lagrangianState m))
                     (mul (Alpha P) (normalizedViolation total limit)))
                (MinLambda P) (MaxLambda P)
        /\ TotalSubsidy (lagrangianState m') = Some total)
  /\ (forall total, normalizedViolation total 0 = zero).
Proof.
  intros P Ha Hlo Hhi Hb Hl Hcalls. split; [|split].
  - intros Hstart. by apply updateAll_bounds.
  - intros total limit now m'.
    destruct (UpdateShadowPrice_step m total limit now) as (E & T & _). by split.
  - intros total. reflexivity.
Qed.

Lemma UpdateShadowPrice_bounds_witness :
  let P := lagrangianParams (config mechanismS6) in
  (is_finite_nonzero (Alpha P) = true
   /\ is_finite (MinLambda P) = true /\ is_finite (MaxLambda P) = true
   /\ leb (MinLambda P) (MaxLambda P) = true
   /\ is_finite (Lambda (lagrangianState mechanismS6)) = true
   /\ Forall (fun call => limitInRange call = true) (overBudget 2))
  /\ inBounds P (Lambda (lagrangianState (updateAll mechanismS6 (overBudget 2)))).
Proof.
  assert (H6 : Forall (fun call => limitInRange call = true) (overBudget 2)).
  { repeat constructor. }
  split; [repeat split; exact H6|].
  apply (proj1 (UpdateShadowPrice_bounds mechanismS6 (overBudget 2)
                  eq_refl eq_refl eq_refl eq_refl eq_refl H6)).
  left. split; reflexivity.
Defined.

(** C7, as stated, fails: the bounds are enforced by the clamp of a
    call and by nothing else.  A configuration with [lambda_min = 2]
    passes [ValidateConfig]; [NewMechanism] starts the shadow price at
    1.0, below that bound, and it stays there through the empty sequence
    of calls and through every call with a nil argument.  The first call
    with both arguments brings it to the bound. *)
Lemma UpdateShadowPrice_bounds_counterexample :
  ValidateConfig minLambdaConfig = None
  /\ MinLambda (lagrangianParams (config mechanismMinLambda)) = of_Z 2
  /\ Lambda (lagrangianState mechanismMinLambda) = of_Z 1
  /\ Lambda (lagrangianState
               (updateAll mechanismMinLambda
                  [(None, Some 1000000000000000000, 1); (Some 5, None, 2)]))
     = of_Z 1
  /\ leb (of_Z 2) (of_Z 1) = false
  /\ Lambda (lagrangianState
               (updateAll mechanismMinLambda
                  [(Some 1000000000000000000, Some 1000000000000000000, 1)]))
     = of_Z 2
  /\ ~ (forall (m : Mechanism) (calls : list ShadowCall),
          let P := lagrangianParams (config m) in
          is_finite_nonzero (Alpha P) = true ->
          is_finite (MinLambda P) = true -> is_finite (MaxLambda P) = true ->
          leb (MinLambda P) (MaxLambda P) = true ->
          is_finite (Lambda (lagrangianState m)) = true ->
          Forall (fun call => limitInRange call = true) calls ->
          inBounds P (Lambda (lagrangianState (updateAll m calls)))).
Proof.
  split; [reflexivity|]. split; [reflexivity|]. split; [reflexivity|].
  split; [reflexivity|]. split; [reflexivity|]. split; [vm_compute; reflexivity|].
  intros H.
  assert (Hc : Forall (fun call : ShadowCall => limitInRange call = true)
                 [(None, Some 1000000000000000000, 1); (Some 5, None, 2)]).
  { repeat constructor. }
  destruct (H mechanismMinLambda _ eq_refl eq_refl eq_refl eq_refl eq_refl Hc) as [Hlo _].
  vm_compute in Hlo. discriminate.
Qed.

(** Scenario S6: one over-budget block moves the shadow price from 1 to
    the binary64 number [1.002]; after ten such blocks it lies between
    [1.0199] and [1.0201]. *)
Example UpdateShadowPrice_S6 :
  normalizedViolation 6000000000000000000 5000000000000000000 = lit 2 10
  /\ Lambda (lagrangianState (updateAll mechanismS6 (overBudget 1))) = lit 1002 1000
  /\ leb (lit 10199 10000) (Lambda (lagrangianState (updateAll mechanismS6 (overBudget 10))))
     = true
  /\ leb (Lambda (lagrangianState (updateAll mechanismS6 (overBudget 10)))) (lit 10201 10000)
     = true.
Proof. repeat split; vm_compute; reflexivity. Qed.

End ShadowPriceFacts.

(** ** Sorting *)

Section SortFacts.
Context {A : Type} (less : A -> A -> bool).

Lemma insertLess_perm (x : A) (l : list A) : Permutation (insertLess less x l) (x :: l).
Proof.
  induction l as [|y l IH]; simpl; [done|].
  destruct (less x y); [|done]. rewrite IH. apply perm_swap.
Qed.

Lemma insertionSort_perm (l : list A) : Permutation (insertionSort less l) l.
Proof.
  unfold insertionSort. rewrite <- Permutation_rev.
  assert (G : forall acc,
             Permutation (fold_left (fun revPrefix x => insertLess less x revPrefix) l acc)
                         (l ++ acc)).
  { induction l as [|x l IH]; intros acc; simpl; [done|].
    rewrite IH, insertLess_perm. symmetry. apply Permutation_middle. }
  rewrite G. by rewrite app_nil_r.
Qed.

Lemma insertLess_sorted (x : A) (l : list A) :
  StrictWeak less ->
  StronglySorted (fun a b => less a b = false) l ->
  StronglySorted (fun a b => less a b = false) (insertLess less x l).
Proof.
  intros [Hasym Hneg] Hs. induction Hs as [|y l Hs IH Hy]; simpl.
  - repeat constructor.
  - destruct (less x y) eqn:E.
    + constructor; [exact IH|].
      rewrite Forall_forall. intros z Hz.
      rewrite insertLess_perm in Hz. apply elem_of_cons in Hz as [->|Hz].
      * by apply Hasym.
      * rewrite Forall_forall in Hy. by apply Hy.
    + constructor; [by constructor|]. constructor; [exact E|].
      rewrite Forall_forall in Hy |- *. intros z Hz. apply (Hneg x y z E), Hy, Hz.
Qed.

Lemma StronglySorted_rev (R : A -> A -> Prop) (l : list A) :
  StronglySorted R l -> StronglySorted (fun a b => R b a) (rev l).
Proof.
  induction 1 as [|x l Hs IH Hx]; simpl; [constructor|].
  apply StronglySorted_app_2; [|exact IH|repeat constructor].
  intros a b Ha Hb. apply list_elem_of_singleton in Hb as ->.
  rewrite Forall_forall in Hx. apply Hx. apply list_elem_of_In.
  apply list_elem_of_In in Ha. by apply in_rev.
Qed.

Lemma insertionSort_sorted (l : list A) :
  StrictWeak less -> SortedBy less (insertionSort less l).
Proof.
  intros Hsw. unfold SortedBy, insertionSort.
  apply (StronglySorted_rev (fun a b => less a b = false)).
  assert (G : forall acc,
             StronglySorted (fun a b => less a b = false) acc ->
             StronglySorted (fun a b => less a b = false)
               (fold_left (fun revPrefix x => insertLess less x revPrefix) l acc)).
  { induction l as [|x l IH]; intros acc Hacc; simpl; [done|].
    by apply IH, insertLess_sorted. }
  apply G. constructor.
Qed.

End SortFacts.

(** Insertion sort meets the contract of [sort.Slice]. *)
#[local] Instance insertionGoSort : GoSort :=
  {| sort_Slice := @insertionSort;
     sort_Slice_perm := @insertionSort_perm;
     sort_Slice_sorted := @insertionSort_sorted |}.

(** ** Scheduler *)

Section SchedulerFacts.
Context `{GoMath} `{GoSort}.
Import Justitia Subsidy Core Scheduler.




(** The fill loop appends the first transactions of the phase that still
    fit. *)
Lemma fill_spec (capacity : Z) (phase : list TxWithScore) (selected : list Transaction) :
  fill capacity selected phase
  = selected ++ map Tx (take (Z.to_nat (capacity - Z.of_nat (length selected))) phase).
Proof.
  revert selected. induction phase as [|x phase IH]; intros selected; simpl.
  - by rewrite take_nil, app_nil_r.
  - destruct (Z.geb_spec (Z.of_nat (length selected)) capacity) as [Hfull|Hroom].
    + replace (Z.to_nat (capacity - Z.of_nat (length selected))) with 0%nat by lia.
      by rewrite app_nil_r.
    + rewrite IH, length_app. simpl.
      replace (Z.to_nat (capacity - Z.of_nat (length selected)))
        with (S (Z.to_nat (capacity - Z.of_nat (length selected + 1)))) by lia.
      simpl. by rewrite <- app_assoc.
Qed.

Lemma phaseOf_range (EA : Z) (x : TxWithScore) (k : Z) :
  phaseOf EA x = Some k -> k = 1 \/ k = 2 \/ k = 3.
Proof.
  unfold phaseOf. destruct (IsCrossShard (Tx x)).
  - destruct (TxCase x); intros [= <-]; auto.
  - destruct (Score x >=? EA); intros [= <-]; auto.
Qed.

(** The partition loop sorts every scored transaction into its phase. *)
Lemma partition3_spec (EA : Z) (scored : list TxWithScore) :
  partition3 EA scored = (phase EA 1 scored, phase EA 2 scored, phase EA 3 scored).
Proof.
  unfold phase. induction scored as [|x scored IH]; simpl; [done|].
  rewrite IH. destruct (phaseOf EA x) as [k|] eqn:Hk; [|reflexivity].
  destruct (phaseOf_range _ _ _ Hk) as [-> | [-> | ->]]; reflexivity.
Qed.


(** What the scoring loop produces for each transaction of the pool. *)
Lemma scoreCTX_scoredFrom (s s' : Scheduler) (tx tx' : Transaction) (EA : Z) (now : Time)
    (score : Z) (txCase : Case) :
  IsCrossShard tx = true ->
  scoreCTX s tx EA now = Some (tx', score, txCase, s') ->
  scoredFrom tx {| Tx := tx'; Score := score; TxCase := txCase |}.
Proof.
  intros Hx. unfold scoreCTX, scoredFrom. rewrite Hx.
  destruct (subsidyFor s _ _ now) as [[R m']|]; [|discriminate].
  destruct (Split2 _ _ _ _) as [uA uB].
  destruct (FromShard tx =? ShardID s); intros [= <- <- <- <-]; simpl.
  - split; [eauto|].
    unfold Classify. destruct (_ >=? _); [done|].
    destruct (_ >=? _); [destruct (_ <=? _); done|]. simpl.
    destruct (_ <=? _); done.
  - split; [eauto|done].
Qed.

Lemma scoreAll_scoredFrom (txPool : list Transaction) :
  forall (s s' : Scheduler) (EA : Z) (clock : nat -> Time) (i : nat)
         (scored : list TxWithScore),
    scoreAll s EA clock i txPool = Some (scored, s') ->
    Forall2 scoredFrom txPool scored.
Proof.
  induction txPool as [|tx txPool IH]; intros s s' EA clock i scored; simpl.
  - intros [= <- <-]. constructor.
  - destruct (IsCrossShard tx) eqn:Hx.
    + destruct (scoreCTX s tx EA (clock i)) as [[[[tx' score] txCase] s1]|] eqn:E1;
        [|discriminate].
      destruct (scoreAll s1 EA clock (S i) txPool) as [[scored' s2]|] eqn:E2;
        [|discriminate].
      intros [= <- <-]. constructor; [|by eapply IH].
      by eapply scoreCTX_scoredFrom.
    + destruct (scoreAll s EA clock (S i) txPool) as [[scored' s2]|] eqn:E2;
        [|discriminate].
      intros [= <- <-]. constructor; [|by eapply IH].
      unfold scoredFrom. rewrite Hx. done.
Qed.


(** Filling from three lists in turn takes a prefix of their
    concatenation. *)
Lemma take_three {A : Type} (c : nat) (l1 l2 l3 : list A) (n2 n3 : nat) :
  n2 = (c - length (take c l1))%nat ->
  n3 = (c - length (take c l1 ++ take n2 l2))%nat ->
  take c l1 ++ take n2 l2 ++ take n3 l3 = take c (l1 ++ l2 ++ l3).
Proof.
  intros -> ->. rewrite !take_app, length_app, !length_take.
  replace (c - c `min` length l1)%nat with (c - length l1)%nat by lia.
  replace (c - (c `min` length l1 + (c - length l1) `min` length l2))%nat
    with (c - length l1 - length l2)%nat by lia.
  reflexivity.
Qed.

Lemma sort_Slice_nil {A : Type} (less : A -> A -> bool) : sort_Slice less [] = [].
Proof. apply Permutation_nil_r, sort_Slice_perm. Qed.

(** [SelectForBlock] with room in the block: the scoring loop has run,
    and the block is the first [capacity] entries of the three sorted
    phases put one after the other. *)
Lemma SelectForBlock_closed_form (s s' : Scheduler) (capacity : Z)
    (txPool out : list Transaction) (clock : nat -> Time) :
  0 < capacity ->
  SelectForBlock s capacity txPool clock = Some (out, s') ->
  let EA := Expectation.GetAvgITXFee (FeeTracker s) (ShardID s) in
  exists scored,
    scoreAll s EA clock 0 txPool = Some (scored, s')
    /\ out = map Tx (take (Z.to_nat capacity)
                       (sort_Slice lessScore (phase EA 1 scored)
                        ++ sort_Slice lessScore (phase EA 2 scored)
                        ++ sort_Slice lessScore (phase EA 3 scored))).
Proof.
  intros Hcap Hsel EA. unfold SelectForBlock in Hsel. fold EA in Hsel.
  destruct (Z.leb_spec capacity 0) as [?|_]; [lia|]. simpl in Hsel.
  destruct (Z.eqb_spec (Z.of_nat (length txPool)) 0) as [Hempty|Hpool].
  - destruct txPool; [|simpl in Hempty; lia]. injection Hsel as <- <-.
    exists []. split; [reflexivity|]. unfold phase; simpl.
    rewrite !sort_Slice_nil. simpl. by rewrite take_nil.
  - destruct (scoreAll s EA clock 0 txPool) as [[scored s1]|]; [|discriminate].
    rewrite partition3_spec in Hsel. rewrite !fill_spec in Hsel. simpl in Hsel.
    set (S1 := sort_Slice lessScore (phase EA 1 scored)) in *.
    set (S2 := sort_Slice lessScore (phase EA 2 scored)) in *.
    set (S3 := sort_Slice lessScore (phase EA 3 scored)) in *.
    rewrite Z.sub_0_r in Hsel.
    set (c := Z.to_nat capacity) in *.
    set (sel1 := map Tx (take c S1)) in *.
    set (n2 := Z.to_nat (capacity - Z.of_nat (length sel1))) in *.
    assert (E2 : (if Z.of_nat (length sel1) <? capacity
                  then sel1 ++ map Tx (take n2 S2) else sel1)
                 = sel1 ++ map Tx (take n2 S2)).
    { destruct (Z.ltb_spec (Z.of_nat (length sel1)) capacity); [done|].
      replace n2 with 0%nat by (unfold n2; lia). by rewrite app_nil_r. }
    rewrite E2 in Hsel. clear E2.
    set (sel2 := sel1 ++ map Tx (take n2 S2)) in *.
    set (n3 := Z.to_nat (capacity - Z.of_nat (length sel2))) in *.
    assert (E3 : (if (Z.of_nat (length sel2) <? capacity)
                     && (0 <? Z.of_nat (length (phase EA 3 scored)))
                  then sel2 ++ map Tx (take n3 S3) else sel2)
                 = sel2 ++ map Tx (take n3 S3)).
    { destruct (Z.ltb_spec (Z.of_nat (length sel2)) capacity); simpl.
      - destruct (Z.ltb_spec 0 (Z.of_nat (length (phase EA 3 scored)))); [done|].
        assert (E : phase EA 3 scored = []) by (apply length_zero_iff_nil; lia).
        unfold S3. rewrite E, sort_Slice_nil, take_nil. by rewrite app_nil_r.
      - replace n3 with 0%nat by (unfold n3; lia). by rewrite app_nil_r. }
    rewrite E3 in Hsel. clear E3.
    injection Hsel as <- <-. exists scored. split; [reflexivity|].
    unfold sel2, sel1. rewrite <- app_assoc, <- !map_app. f_equal.
    apply take_three.
    + subst n3 sel2 n2 sel1 c S1 S2 S3. rewrite length_map. lia.
    + subst n3 sel2 n2 sel1 c S1 S2 S3. rewrite !length_app, !length_map. lia.
Qed.



(** C6, as amended. The subsidy does not depend on the fee of the
    transaction: two runs of the scoring step that differ only in the
    fee write the same subsidy and leave the same mechanism and epoch
    counters (or panic alike).  The subsidy is what
    [Mechanism.CalculateRAB], or without a mechanism the stateless [RAB],
    returns for the two shard averages and the scheduler's fixed
    metrics.  For every mechanism, averages and metrics, one subsidy [R]
    and one state after the call serve all fees in
    [Mechanism.ComputeCTXScore].  What the subsidy is a function of
    depends on the mode.  The stateless [RAB] is determined by the mode,
    the two averages and the custom function.  [Mechanism.CalculateRAB]
    in a mode other than PID and Lagrangian returns the value of [RAB]
    for its mode, averages and custom function and leaves the mechanism
    as it was.  In PID mode its subsidy is determined by the destination
    average, the metrics, the PID parameters, the PID state and the
    clock; in Lagrangian mode by the destination average, the metrics,
    the Lagrangian parameters and the shadow price. *)
Theorem subsidy_ignores_fee (s : Scheduler) (tx : Transaction) (EA : Z) (now : Time)
    (f1 f2 : option Z) :
  subsidyView (scoreCTX s (withFee tx f1) EA now)
  = subsidyView (scoreCTX s (withFee tx f2) EA now)
  /\ (let isSource := FromShard tx =? ShardID s in
      let EA' := if isSource then EA
                 else Expectation.GetAvgITXFee (FeeTracker s) (FromShard tx) in
      let EB' := if isSource then Expectation.GetAvgITXFee (FeeTracker s) (ToShard tx)
                 else Expectation.GetAvgITXFee (FeeTracker s) (ShardID s) in
      forall f,
        match scoreCTX s (withFee tx f) EA now with
        | Some (tx', _, _, s') =>
            match Mechanism_ s with
            | Some m =>
                exists R m',
                  CalculateRAB m (Some EA') (Some EB') (Some schedulerMetrics) now
                  = Some (R, m')
                  /\ SubsidyR tx' = Some R /\ Mechanism_ s' = Some m'
            | None =>
                SubsidyR tx'
                = Some (RAB (SubsidyMode_ s) (Some EA') (Some EB') None (CustomSubsidy s))
                /\ Mechanism_ s' = None
            end
        | None =>
            exists m, Mechanism_ s = Some m
                      /\ CalculateRAB m (Some EA') (Some EB') (Some schedulerMetrics) now
                         = None
        end)
  /\ (forall (m : Mechanism) (EA EB : option Z) (metrics : option DynamicMetrics)
             (isSourceShard : bool),
        (exists R m',
            CalculateRAB m EA EB metrics now = Some (R, m')
            /\ forall fAB,
                 Subsidy.ComputeCTXScore m fAB EA EB metrics isSourceShard now
                 = Some (Justitia.ComputeCTXScore fAB (Some R) EA EB isSourceShard, m'))
        \/ (CalculateRAB m EA EB metrics now = None
            /\ forall fAB,
                 Subsidy.ComputeCTXScore m fAB EA EB metrics isSourceShard now = None))
  /\ (forall mode EA EB metrics1 metrics2 customF,
        RAB mode EA EB metrics1 customF = RAB mode EA EB metrics2 customF)
  /\ (forall (m : Mechanism) (EA EB : option Z) (metrics : option DynamicMetrics)
             (now' : Time),
        Mode (config m) <> SubsidyPID -> Mode (config m) <> SubsidyLagrangian ->
        CalculateRAB m EA EB metrics now'
        = Some (RAB (Mode (config m)) EA EB metrics (CustomF (config m)), m))
  /\ (forall (m1 m2 : Mechanism) (EA1 EA2 EB : option Z)
             (metrics : option DynamicMetrics) (now' : Time),
        Mode (config m1) = SubsidyPID -> Mode (config m2) = SubsidyPID ->
        pidParams (config m1) = pidParams (config m2) ->
        pidState m1 = pidState m2 ->
        option_map fst (CalculateRAB m1 EA1 EB metrics now')
        = option_map fst (CalculateRAB m2 EA2 EB metrics now'))
  /\ (forall (m1 m2 : Mechanism) (EA1 EA2 EB : option Z)
             (metrics : option DynamicMetrics) (now1 now2 : Time),
        Mode (config m1) = SubsidyLagrangian -> Mode (config m2) = SubsidyLagrangian ->
        lagrangianParams (config m1) = lagrangianParams (config m2) ->
        Lambda (lagrangianState m1) = Lambda (lagrangianState m2) ->
        option_map fst (CalculateRAB m1 EA1 EB metrics now1)
        = option_map fst (CalculateRAB m2 EA2 EB metrics now2)).
Proof.
  split; [|split; [|split; [|split; [|split; [|split]]]]].
  - unfold scoreCTX; simpl.
    destruct (subsidyFor s _ _ now) as [[R m']|]; [|reflexivity].
    destruct (Split2 (Some (orZero f1)) _ _ _) as [uA1 uB1].
    destruct (Split2 (Some (orZero f2)) _ _ _) as [uA2 uB2].
    destruct (FromShard tx =? ShardID s); reflexivity.
  - intros isSource EA' EB' f. unfold scoreCTX; simpl.
    fold isSource. fold EA'. fold EB'. unfold subsidyFor.
    destruct (Mechanism_ s) as [m|] eqn:Hm.
    + destruct (CalculateRAB m _ _ _ now) as [[R m']|] eqn:E; [|by exists m].
      destruct (Split2 _ _ _ _) as [uA uB].
      destruct isSource; exists R, m'; repeat split.
    + destruct (Split2 _ _ _ _) as [uA uB]. destruct isSource; by split.
  - intros m EA0 EB0 metrics isSourceShard. unfold Subsidy.ComputeCTXScore.
    destruct (CalculateRAB m EA0 EB0 metrics now) as [[R m']|].
    + left. exists R, m'. split; [reflexivity|]. intros fAB.
      unfold Justitia.ComputeCTXScore. by destruct (Split2 _ _ _ _).
    + right. by split.
  - intros mode EA0 EB0 metrics1 metrics2 customF. by destruct mode.
  - intros m EA0 EB0 metrics now' Hpid Hlag.
    unfold CalculateRAB, calculateRABInternal, RAB.
    by destruct (Mode (config m)).
  - intros m1 m2 EA1 EA2 EB0 metrics now' H1 H2 Hp Hs.
    unfold CalculateRAB, calculateRABInternal. rewrite H1, H2.
    unfold calcPIDSubsidy. rewrite Hp, Hs.
    destruct metrics as [metrics|], EB0 as [eb|]; try reflexivity.
    by destruct (BigFloat.scaleInt _ _).
  - intros m1 m2 EA1 EA2 EB0 metrics now1 now2 H1 H2 Hp Hl.
    unfold CalculateRAB, calculateRABInternal. rewrite H1, H2.
    unfold calcLagrangianSubsidy. rewrite Hp, Hl.
    destruct metrics as [metrics|], EB0 as [eb|]; try reflexivity.
    by destruct (BigFloat.scaleInt _ _).
Qed.

End SchedulerFacts.

Section SchedulerExamples.
Import Core Scheduler.


Example SelectForBlock_S7_four :
  option_map (fun r => map TxHash (fst r))
    (SelectForBlock schedulerS7 4 poolS7 (fun _ => 0))
  = Some ["ctxHigh"; "itx1200"; "itx500"; "ctxLow"].
Proof. vm_compute. reflexivity. Qed.

(** A Lagrangian scheduler writes the subsidy 356 onto a transfer to
    shard 2, whatever fee the transfer pays. *)
Lemma subsidy_ignores_fee_witness :
  subsidyView (scoreCTX schedulerLagrangian (withFee (txS7 "ctxLow" 2 10 2) (Some 1)) 1000 0)
  = subsidyView (scoreCTX schedulerLagrangian (withFee (txS7 "ctxLow" 2 10 2) (Some 2000)) 1000 0)
  /\ option_map fst
       (subsidyView (scoreCTX schedulerLagrangian (withFee (txS7 "ctxLow" 2 10 2) (Some 1))
                       1000 0))
     = Some (Some 356)
  /\ option_map fst
       (subsidyView (scoreCTX schedulerLagrangian (withFee (txS7 "ctxLow" 2 10 2) (Some 2000))
                       1000 0))
     = Some (Some 356).
Proof.
  split; [|split; vm_compute; reflexivity].
  exact (proj1 (subsidy_ignores_fee schedulerLagrangian (txS7 "ctxLow" 2 10 2) 1000 0
                  (Some 1) (Some 2000))).
Defined.

End SchedulerExamples.

Section SubsidyStateExamples.
Import Subsidy Scheduler.

(** C6, as stated, fails in its last part: the subsidy of
    [Mechanism.CalculateRAB] is not a function of the mode, the two
    averages, the metrics and the custom function only.  In PID mode one
    mechanism, asked with the same averages and metrics, answers 834
    one second after its last update and 827 two seconds after it; in
    Lagrangian mode the answer for the same arguments falls from 359 to
    356 once an epoch over the limit has raised the shadow price. *)
Lemma CalculateRAB_state_counterexample :
  option_map fst
    (CalculateRAB mechanismPID (Some 1000) (Some 1000) (Some schedulerMetrics) 1000000000)
  = Some 834
  /\ option_map fst
       (CalculateRAB mechanismPID (Some 1000) (Some 1000) (Some schedulerMetrics) 2000000000)
     = Some 827
  /\ Mode (config mechanismLagrangianOver) = Mode (config mechanismLagrangian)
  /\ option_map fst
       (CalculateRAB mechanismLagrangian (Some 1000) (Some 1000) (Some schedulerMetrics) 0)
     = Some 359
  /\ option_map fst
       (CalculateRAB mechanismLagrangianOver (Some 1000) (Some 1000) (Some schedulerMetrics) 0)
     = Some 356
  /\ ~ (forall (m1 m2 : Mechanism) (EA EB : option Z) (metrics : option DynamicMetrics)
               (now1 now2 : Time),
          Mode (config m1) = Mode (config m2) ->
          CustomF (config m1) = CustomF (config m2) ->
          option_map fst (CalculateRAB m1 EA EB metrics now1)
          = option_map fst (CalculateRAB m2 EA EB metrics now2)).
Proof.
  assert (E1 : option_map fst
                 (CalculateRAB mechanismPID (Some 1000) (Some 1000) (Some schedulerMetrics)
                    1000000000) = Some 834) by (vm_compute; reflexivity).
  assert (E2 : option_map fst
                 (CalculateRAB mechanismPID (Some 1000) (Some 1000) (Some schedulerMetrics)
                    2000000000) = Some 827) by (vm_compute; reflexivity).
  split; [exact E1|]. split; [exact E2|]. split; [reflexivity|].
  split; [vm_compute; reflexivity|]. split; [vm_compute; reflexivity|].
  intros H.
  specialize (H mechanismPID mechanismPID (Some 1000) (Some 1000) (Some schedulerMetrics)
                1000000000 2000000000 eq_refl eq_refl).
  rewrite E1, E2 in H. discriminate.
Qed.

End SubsidyStateExamples.

(** * Further properties *)

(** Linear arithmetic with the quotients and remainders of [Z.div] and
    [Z.modulo] replaced by their defining equations. *)
Ltac div_lia := Z.to_euclidean_division_equations; lia.
Ltac div_nia := Z.to_euclidean_division_equations; nia.

(** ** Shapley split and classification, continued *)

Section SplitMoreFacts.
Import Justitia.

(** The three regimes of [Split2] on a non-negative total [t = f + R]
    with [d = EA - EB]. *)
Lemma Split2_regimes (f R EA EB : option Z) :
  let t := orZero f + orZero R in
  let d := orZero EA - orZero EB in
  0 <= t ->
  Split2 f R EA EB
  = if d <? - t then (0, t)
    else if t <? d then (t, 0)
    else ((t + d) / 2, (t - d) / 2).
Proof.
  intros t d Ht. unfold Split2. fold t. fold d.
  destruct (Z.ltb_spec ((t + d) / 2) 0), (Z.ltb_spec d (- t)); try div_lia; try done.
  destruct (Z.ltb_spec ((t - d) / 2) 0), (Z.ltb_spec t d); try div_lia; done.
Qed.

(** X1. [Split2] treats the two shards alike: exchanging the
    expectations [EA] and [EB] exchanges the two utilities, whenever the
    total [f + R] is not negative. *)
Theorem Split2_symmetric (f R EA EB : option Z) :
  0 <= orZero f + orZero R ->
  Split2 f R EB EA = (snd (Split2 f R EA EB), fst (Split2 f R EA EB)).
Proof.
  intros Ht. rewrite !Split2_regimes by done. cbv zeta.
  set (t := orZero f + orZero R) in *.
  set (a := orZero EA). set (b := orZero EB).
  destruct (Z.ltb_spec (b - a) (- t)), (Z.ltb_spec t (b - a)),
    (Z.ltb_spec (a - b) (- t)), (Z.ltb_spec t (a - b)); simpl; try lia; try done.
  f_equal; f_equal; lia.
Qed.

Lemma Split2_symmetric_witness :
  0 <= orZero (Some 1000) + orZero (Some 500)
  /\ Split2 (Some 1000) (Some 500) (Some 100) (Some 200) = (700, 800).
Proof.
  split; [simpl; lia|].
  exact (Split2_symmetric (Some 1000) (Some 500) (Some 200) (Some 100) ltac:(simpl; lia)).
Defined.

(** X2. [Split2] never hands out more than the total [f + R] and never
    less than the total minus one unit; both utilities lie between 0 and
    the total.  This holds for every pair of expectations, nil and
    negative ones included. *)
Theorem Split2_budget (f R EA EB : option Z) :
  let t := orZero f + orZero R in
  let uA := fst (Split2 f R EA EB) in
  let uB := snd (Split2 f R EA EB) in
  0 <= t ->
  0 <= uA <= t /\ 0 <= uB <= t /\ t - 1 <= uA + uB <= t.
Proof.
  intros t uA uB Ht. subst uA uB. rewrite Split2_regimes by done. fold t.
  set (d := orZero EA - orZero EB).
  destruct (Z.ltb_spec d (- t)); simpl; [lia|].
  destruct (Z.ltb_spec t d); simpl; [lia|]. div_lia.
Qed.

Lemma Split2_budget_witness :
  0 <= orZero (Some 1) + orZero None
  /\ 1 - 1 <= fst (Split2 (Some 1) None None None) + snd (Split2 (Some 1) None None None) <= 1.
Proof.
  split; [simpl; lia|].
  exact (proj2 (proj2 (Split2_budget (Some 1) None None None ltac:(simpl; lia)))).
Defined.

(** X3. While the gap between the expectations does not exceed the
    total, [Split2] gives both shards the same surplus over their
    expectation: [uA - uB = EA - EB] exactly, whatever the parity.  When
    the gap exceeds the total the shard with the larger expectation
    takes the whole total. *)
Theorem Split2_equal_surplus (f R EA EB : Z) :
  0 <= f + R ->
  let uA := fst (Split2 (Some f) (Some R) (Some EA) (Some EB)) in
  let uB := snd (Split2 (Some f) (Some R) (Some EA) (Some EB)) in
  (Z.abs (EA - EB) <= f + R -> uA - uB = EA - EB)
  /\ (f + R < EA - EB -> uA = f + R /\ uB = 0)
  /\ (f + R < EB - EA -> uA = 0 /\ uB = f + R).
Proof.
  intros Ht uA uB. subst uA uB. rewrite Split2_regimes by done. simpl.
  destruct (Z.ltb_spec (EA - EB) (- (f + R))); simpl;
    [repeat split; lia|].
  destruct (Z.ltb_spec (f + R) (EA - EB)); simpl; [repeat split; lia|].
  repeat split; try lia. div_lia.
Qed.

Lemma Split2_equal_surplus_witness :
  0 <= 1001 + 500
  /\ fst (Split2 (Some 1001) (Some 500) (Some 200) (Some 100))
     - snd (Split2 (Some 1001) (Some 500) (Some 200) (Some 100)) = 200 - 100.
Proof.
  split; [lia|].
  exact (proj1 (Split2_equal_surplus 1001 500 200 100 ltac:(lia)) ltac:(lia)).
Defined.

(** X4. [Classify] is monotone in the utility: with the expectations
    fixed, a transaction that yields at least as much is never classed
    worse.  Raising [uA] cannot turn another case into Case2, and cannot
    lose Case1; and the result is always one of the three cases. *)
Theorem Classify_monotone (uA uA' EA EB : option Z) :
  orZero uA <= orZero uA' ->
  (Classify uA' EA EB = Case2 -> Classify uA EA EB = Case2)
  /\ (Classify uA EA EB = Case1 -> Classify uA' EA EB = Case1)
  /\ Classify uA EA EB <> CaseNone.
Proof.
  intros Hle. unfold Classify.
  set (u := orZero uA) in *. set (u' := orZero uA') in *.
  set (a := orZero EA). set (b := orZero EB).
  destruct (Z.geb_spec u a), (Z.geb_spec u' a), (Z.geb_spec b a); try lia;
    repeat split; try done;
    destruct (Z.leb_spec (Z.sgn u) 0), (Z.leb_spec (Z.sgn u') 0);
    destruct (Z.leb_spec u (a - b)), (Z.leb_spec u' (a - b)); try done; lia.
Qed.

(** A utility of 100 meets the expectation 100 and is Case1, and so is
    the higher utility 150; with expectations 100 and 50 a utility of 50
    is Case2, and so is the lower utility 20. *)
Lemma Classify_monotone_witness :
  (orZero (Some 100) <= orZero (Some 150)
   /\ Classify (Some 100) (Some 100) (Some 500) = Case1
   /\ Classify (Some 150) (Some 100) (Some 500) = Case1)
  /\ (orZero (Some 20) <= orZero (Some 50)
      /\ Classify (Some 50) (Some 100) (Some 50) = Case2
      /\ Classify (Some 20) (Some 100) (Some 50) = Case2).
Proof.
  split.
  - split; [simpl; lia|]. split; [reflexivity|].
    exact (proj1 (proj2 (Classify_monotone (Some 100) (Some 150) (Some 100) (Some 500)
                           ltac:(simpl; lia)))
             eq_refl).
  - split; [simpl; lia|]. split; [reflexivity|].
    exact (proj1 (Classify_monotone (Some 20) (Some 50) (Some 100) (Some 50)
                    ltac:(simpl; lia))
             eq_refl).
Defined.

End SplitMoreFacts.

(** ** Subsidy engine, continued *)

Section SubsidyMoreFacts.
Context `{GoMath}.
Import F64 Subsidy.

(** X5. In the static modes the mechanism computes the subsidy of the
    stateless [RAB] on its own mode and custom function, and the call
    leaves the mechanism as it was; the clock and the metrics play no
    part.  In the two dynamic modes the stateless [RAB] is the
    destination average. *)
Theorem CalculateRAB_static (m : Mechanism) (EA EB : option Z)
    (metrics : option DynamicMetrics) (now : Time) :
  Mode (config m) <> SubsidyPID -> Mode (config m) <> SubsidyLagrangian ->
  CalculateRAB m EA EB metrics now
  = Some (RAB (Mode (config m)) EA EB metrics (CustomF (config m)), m)
  /\ (forall customF,
        RAB SubsidyPID EA EB metrics customF = orZero EB
        /\ RAB SubsidyLagrangian EA EB metrics customF = orZero EB).
Proof.
  intros HP HL. split; [|done].
  unfold CalculateRAB, calculateRABInternal, RAB.
  by destruct (Mode (config m)).
Qed.

(** X6. Outside the custom mode a subsidy is never negative when the
    two averages are not: the static modes return sums of the averages
    or constants, the dynamic modes clamp their result at 0. *)
Theorem CalculateRAB_nonneg (m m' : Mechanism) (EA EB : option Z)
    (metrics : option DynamicMetrics) (now : Time) (R : Z) :
  CalculateRAB m EA EB metrics now = Some (R, m') ->
  Mode (config m) <> SubsidyCustom ->
  0 <= orZero EA -> 0 <= orZero EB ->
  0 <= R.
Proof.
  unfold CalculateRAB, calculateRABInternal. intros E HC HA HB.
  destruct (Mode (config m)); try done; simplify_eq; try done.
  - destruct EA, EB; simpl in *; lia.
  - unfold calcPIDSubsidy in E.
    destruct metrics as [metrics|], EB as [eb|]; simplify_eq; try done.
    destruct (BigFloat.scaleInt _ _) as [r|]; simplify_eq.
    destruct (Z.ltb_spec r 0); lia.
  - unfold calcLagrangianSubsidy in E.
    destruct metrics as [metrics|], EB as [eb|]; simplify_eq; try done.
    destruct (BigFloat.scaleInt _ _) as [r|]; simplify_eq.
    destruct (Z.ltb_spec r 0); lia.
Qed.

(** The anti-windup clamp of [calcPIDSubsidy]. *)
Lemma integral_clamp (x : float64) :
  let c := if ltb (of_Z 10) x then of_Z 10
           else if ltb x (neg (of_Z 10)) then neg (of_Z 10) else x in
  is_nan c = false ->
  leb (neg (of_Z 10)) c = true /\ leb c (of_Z 10) = true.
Proof.
  intros c. subst c.
  destruct (ltb (of_Z 10) x) eqn:E1; [by vm_compute|].
  destruct (ltb x (neg (of_Z 10))) eqn:E2; [by vm_compute|].
  intros Hnan. split; apply ltb_false_leb; done.
Qed.

(** X7. The integral term of the PID controller is kept within
    [-10, 10] (anti-windup): after a call with metrics and a destination
    average, the stored integral is a NaN or lies in that interval,
    whatever the gains, the queue length and the elapsed time; the call
    also stores the clock reading. *)
Theorem calcPIDSubsidy_integral_bounded (metrics : DynamicMetrics) (cfg : Config)
    (state state' : PIDState) (EB R : Z) (now : Time) :
  calcPIDSubsidy (Some metrics) cfg state (Some EB) now = Some (R, state') ->
  is_nan (Integral state') = false ->
  leb (neg (of_Z 10)) (Integral state') = true
  /\ leb (Integral state') (of_Z 10) = true
  /\ pidLastUpdate state' = now.
Proof.
  unfold calcPIDSubsidy. cbv zeta. intros E Hnan.
  match type of E with
  | context [ {| Integral := ?i; PrevError := _; pidLastUpdate := _ |} ] =>
      set (I := i) in E
  end.
  destruct (BigFloat.scaleInt _ _) as [r|]; [|done].
  assert (Integral state' = I /\ pidLastUpdate state' = now) as [EI Enow]
    by (by injection E as _ <-).
  rewrite EI in *. subst I.
  destruct (integral_clamp _ Hnan). done.
Qed.

(** X8. A configuration that [ValidateConfig] accepts in the custom mode
    carries its function, so that a mechanism built from it computes
    the subsidy by that function and never by the destination-average
    fallback; an accepted configuration has a positive window and, when
    it sets a positive upper budget, a lower budget that does not exceed
    it. *)
Theorem ValidateConfig_accepts (cfg : Config) :
  ValidateConfig cfg = None ->
  0 < WindowBlocks cfg
  /\ (forall gammaMin gammaMax,
        GammaMin cfg = Some gammaMin -> GammaMax cfg = Some gammaMax ->
        0 < gammaMax -> gammaMin <= gammaMax)
  /\ (Mode cfg = SubsidyCustom ->
      exists f,
        CustomF cfg = Some f
        /\ forall EA EB metrics now,
             CalculateRAB (NewMechanism (Some cfg) now) EA EB metrics now
             = Some (orZero (f EA EB), NewMechanism (Some cfg) now)).
Proof.
  unfold ValidateConfig. intros E.
  destruct (Z.leb_spec (WindowBlocks cfg) 0) as [|Hw]; [done|].
  split; [done|].
  destruct (bool_decide_reflect (Mode cfg = SubsidyCustom)) as [Hm|Hm]; simpl in E.
  - destruct (CustomF cfg) as [f|] eqn:Ef; [|done]. split.
    + intros gammaMin gammaMax E1 E2 Hpos. rewrite E1, E2 in E.
      destruct (Z.ltb_spec 0 gammaMax), (Z.gtb_spec gammaMin gammaMax); simpl in E; try done; lia.
    + intros _. exists f. split; [done|]. intros EA EB metrics now.
      unfold CalculateRAB, calculateRABInternal. simpl. by rewrite Hm, Ef.
  - split; [|done].
    intros gammaMin gammaMax E1 E2 Hpos. rewrite E1, E2 in E.
    destruct (Z.ltb_spec 0 gammaMax), (Z.gtb_spec gammaMin gammaMax); simpl in E; try done; lia.
Qed.

End SubsidyMoreFacts.

Section SubsidyMoreExamples.
Import F64 Subsidy.

Lemma CalculateRAB_static_witness :
  CalculateRAB (NewMechanism None 0) (Some 7) (Some 9) None 5
  = Some (9, NewMechanism None 0).
Proof.
  exact (proj1 (CalculateRAB_static (NewMechanism None 0) (Some 7) (Some 9) None 5
                  ltac:(done) ltac:(done))).
Defined.

Lemma CalculateRAB_nonneg_witness :
  CalculateRAB (NewMechanism None 0) (Some 7) (Some 9) None 5
  = Some (9, NewMechanism None 0)
  /\ 0 <= 9.
Proof.
  split; [reflexivity|].
  exact (CalculateRAB_nonneg (NewMechanism None 0) (NewMechanism None 0) (Some 7) (Some 9)
           None 5 9 eq_refl ltac:(done) ltac:(simpl; lia) ltac:(simpl; lia)).
Defined.

(** A controller whose integral has run up to 100 is brought back to
    10 by the next call. *)
Lemma calcPIDSubsidy_integral_bounded_witness :
  let state := {| Integral := of_Z 100; PrevError := zero; pidLastUpdate := 0 |} in
  let state' := {| Integral := of_Z 10;
                   PrevError := sub (div (of_Z 600) (of_Z 1000)) (lit 7 10);
                   pidLastUpdate := 1000000000 |} in
  calcPIDSubsidy (Some Scheduler.schedulerMetrics) DefaultConfig state (Some 1000) 1000000000
  = Some (1845, state')
  /\ leb (Integral state') (of_Z 10) = true.
Proof.
  intros state state'.
  assert (E : calcPIDSubsidy (Some Scheduler.schedulerMetrics) DefaultConfig state
                (Some 1000) 1000000000 = Some (1845, state'))
    by (vm_compute; reflexivity).
  split; [exact E|].
  exact (proj1 (proj2 (calcPIDSubsidy_integral_bounded _ _ _ _ _ _ _ E eq_refl))).
Defined.

Lemma ValidateConfig_accepts_witness :
  ValidateConfig DefaultConfig = None /\ 0 < WindowBlocks DefaultConfig.
Proof.
  split; [reflexivity|].
  exact (proj1 (ValidateConfig_accepts DefaultConfig eq_refl)).
Defined.

End SubsidyMoreExamples.

(** ** Pending ledger, continued *)

Section LedgerMoreFacts.
Import Pending.

(** X9. [Add] succeeds exactly on a pair that is neither settled nor
    pending.  A refused entry leaves the ledger as it was, with the
    settled check taking precedence; an accepted entry can be read back
    with [Get], raises the pending count by one, and touches no other
    pair and no settled flag. *)
Theorem Add_outcome (l : Ledger) (p : Pending) :
  (snd (Add l p) = None
   <-> IsSettled l (PairID p) = false /\ IsPending l (PairID p) = false)
  /\ (snd (Add l p) <> None -> fst (Add l p) = l)
  /\ (IsSettled l (PairID p) = true ->
      snd (Add l p) = Some (ErrAlreadySettled (PairID p)))
  /\ (IsSettled l (PairID p) = false -> IsPending l (PairID p) = true ->
      snd (Add l p) = Some (ErrAlreadyPending (PairID p)))
  /\ (snd (Add l p) = None ->
      let l' := fst (Add l p) in
      Get l' (PairID p) = Some p
      /\ GetPendingCount l' = GetPendingCount l + 1
      /\ (forall other, other <> PairID p -> Get l' other = Get l other)
      /\ settled l' = settled l).
Proof.
  unfold Add, IsSettled, IsPending, Get, GetPendingCount.
  destruct (settledFlag l (PairID p)) eqn:Es; simpl.
  { repeat split; try done. by intros [? _]. }
  destruct (pending l !! PairID p) as [q|] eqn:Ep; simpl.
  { repeat split; try done. by intros [_ ?]. }
  repeat split; try done.
  - by rewrite lookup_insert_eq.
  - rewrite map_size_insert_None by done. lia.
  - intros other Ho. by rewrite lookup_insert_ne.
Qed.

(** One call keeps a consistent ledger consistent and never clears a
    settled flag. *)
Lemma call_consistent (l : Ledger) (log : list Credit) (c : Call) :
  consistent l ->
  consistent (fst (fst (call l log c)))
  /\ (forall pairID, settledFlag l pairID = true ->
        settledFlag (fst (fst (call l log c))) pairID = true).
Proof.
  intros Hl. destruct c as [p|id blk|t]; simpl.
  - unfold Add. destruct (settledFlag l (PairID p)) eqn:Es; [done|].
    destruct (pending l !! PairID p) eqn:Ep; [done|]. simpl. split; [|done].
    intros k. destruct (Hl k) as (H1 & H2 & H3). repeat split; simpl.
    + destruct (decide (k = PairID p)) as [->|Hne]; [done|].
      rewrite lookup_insert_ne by done. apply H1.
    + intros q. destruct (decide (k = PairID p)) as [->|Hne].
      * rewrite lookup_insert_eq. by intros [= <-].
      * rewrite lookup_insert_ne by done. apply H2.
    + apply H3.
  - unfold Settle. destruct (settledFlag l id) eqn:Es; [done|].
    destruct (pending l !! id) as [q|] eqn:Ep; [|done]. simpl. split.
    + intros k. destruct (Hl k) as (H1 & H2 & H3). unfold settledFlag in *.
      repeat split; simpl.
      * destruct (decide (k = id)) as [->|Hne].
        -- rewrite lookup_delete_eq. by intros [? ?].
        -- rewrite lookup_delete_ne, lookup_insert_ne by done. apply H1.
      * intros q'. destruct (decide (k = id)) as [->|Hne].
        -- by rewrite lookup_delete_eq.
        -- rewrite lookup_delete_ne by done. apply H2.
      * intros b. destruct (decide (k = id)) as [->|Hne].
        -- rewrite lookup_insert_eq. by intros [= <-].
        -- rewrite lookup_insert_ne by done. apply H3.
    + intros k Hk. unfold settledFlag in *. simpl.
      destruct (decide (k = id)) as [->|Hne].
      * by rewrite lookup_insert_eq.
      * by rewrite lookup_insert_ne.
  - split.
    + intros k. destruct (Hl k) as (H1 & H2 & H3). unfold settledFlag in *.
      rewrite CleanupOld_settled, CleanupOld_lookup. repeat split.
      * intros Hs. apply H1. destruct (pending l !! k); [eauto|by destruct Hs].
      * intros q Hq. apply H2. destruct (pending l !! k) as [q'|]; [|done].
        by destruct (CreatedAt q' <? t).
      * apply H3.
    + intros k. unfold settledFlag. by rewrite CleanupOld_settled.
Qed.

(** X10. Every run of [Add], [Settle] and [CleanupOld] calls keeps a
    consistent ledger consistent: afterwards no pair is both pending and
    settled, every pending entry is filed under its own identifier, and
    a pair that was settled before the run is settled after it.  The
    run reports one outcome per call. *)
Theorem run_consistent (calls : list Call) :
  forall (l : Ledger) (log : list Credit),
    consistent l ->
    let l' := fst (fst (run l log calls)) in
    consistent l'
    /\ (forall pairID, IsPending l' pairID && IsSettled l' pairID = false)
    /\ (forall pairID, IsSettled l pairID = true -> IsSettled l' pairID = true)
    /\ length (snd (run l log calls)) = length calls.
Proof.
  assert (forall l log, consistent l ->
            consistent (fst (fst (run l log calls)))
            /\ (forall pairID, settledFlag l pairID = true ->
                  settledFlag (fst (fst (run l log calls))) pairID = true)
            /\ length (snd (run l log calls)) = length calls) as Hrun.
  { induction calls as [|c rest IH]; intros l log Hl; [done|].
    simpl. destruct (call_consistent l log c Hl) as [Hc Hs].
    destruct (call l log c) as [[l1 log1] e]; simpl in *.
    destruct (IH l1 log1 Hc) as (H1 & H2 & H3).
    destruct (run l1 log1 rest) as [[l2 log2] errs]; simpl in *.
    split; [done|]. split; [auto|]. lia. }
  intros l log Hl. destruct (Hrun l log Hl) as (H1 & H2 & H3).
  cbv zeta. split; [done|]. split; [|done].
  intros k. unfold IsPending, IsSettled.
  destruct (bool_decide_reflect (is_Some (pending (fst (fst (run l log calls))) !! k)))
    as [Hp|Hp]; [|done].
  simpl. by apply (H1 k).
Qed.

(** In a run that starts on a ledger where [pairID] is settled, no call
    settles it again. *)
Lemma settledWithSuccess_settled (pairID : string) (calls : list Call) :
  forall (l : Ledger) (log : list Credit),
    settledFlag l pairID = true ->
    settledWithSuccess pairID calls (snd (run l log calls)) = [].
Proof.
  induction calls as [|c rest IH]; intros l log Hs; [done|]. simpl.
  assert (settledFlag (fst (fst (call l log c))) pairID = true
          /\ match c, snd (call l log c) with
             | CallSettle id _, None => id <> pairID
             | _, _ => True
             end) as [Hs' Hc].
  { destruct c as [p|id blk|t]; simpl.
    - split; [|by destruct (snd (Add l p))]. unfold Add.
      destruct (settledFlag l (PairID p)); [done|].
      by destruct (pending l !! PairID p).
    - unfold Settle. destruct (settledFlag l id) eqn:Es; [done|].
      destruct (pending l !! id); [|done]. simpl. split; [|congruence].
      unfold settledFlag in *. simpl.
      rewrite lookup_insert_ne; [done|congruence].
    - split; [|done]. unfold settledFlag. by rewrite CleanupOld_settled. }
  destruct (call l log c) as [[l1 log1] e]; simpl in *.
  specialize (IH l1 log1 Hs').
  destruct (run l1 log1 rest) as [[l2 log2] errs]; simpl in *.
  destruct c as [p|id blk|t]; try done.
  destruct e; [done|]. by rewrite bool_decide_false.
Qed.

(** X11. No pair is settled twice: in every run of [Add], [Settle] and
    [CleanupOld] calls, from every ledger, at most one [Settle] of a
    given pair returns without error, even when [CleanupOld] and [Add]
    file the pair anew in between. *)
Theorem Settle_at_most_once_in_run (pairID : string) (calls : list Call) :
  forall (l : Ledger) (log : list Credit),
    (length (settledWithSuccess pairID calls (snd (run l log calls))) <= 1)%nat.
Proof.
  induction calls as [|c rest IH]; intros l log; [simpl; lia|].
  pose proof (settledWithSuccess_settled pairID rest) as Hrest. simpl.
  assert (match c, snd (call l log c) with
          | CallSettle id _, None =>
              id = pairID -> settledFlag (fst (fst (call l log c))) pairID = true
          | _, _ => True
          end) as Hc.
  { destruct c as [p|id blk|t]; simpl; [by destruct (snd (Add l p))| |done].
    unfold Settle. destruct (settledFlag l id); [done|].
    destruct (pending l !! id); [|done]. simpl. intros ->.
    unfold settledFlag. simpl. by rewrite lookup_insert_eq. }
  destruct (call l log c) as [[l1 log1] e]; simpl in *.
  specialize (IH l1 log1). specialize (Hrest l1 log1).
  destruct (run l1 log1 rest) as [[l2 log2] errs]; simpl in *.
  destruct c as [p|id blk|t]; try done.
  destruct e; [done|].
  destruct (bool_decide_reflect (id = pairID)) as [->|Hne]; [|done].
  simpl. rewrite Hrest by auto. simpl. lia.
Qed.

(** The loop of [CleanupOld] on a part [m] of the map [base]: the
    entries removed and the entries left add up to [base]. *)
Lemma CleanupOld_loop_count (olderThan : Z) (base m : gmap string Pending) :
  m ⊆ base ->
  let r := map_fold
             (fun pairID p '(pend, count) =>
                if CreatedAt p <? olderThan then (delete pairID pend, count + 1)
                else (pend, count))
             (base, 0) m in
  Z.of_nat (size (fst r)) + snd r = Z.of_nat (size base) /\ 0 <= snd r.
Proof.
  intros Hsub. cbv zeta.
  cut ((forall k, m !! k = None ->
          fst (map_fold
                 (fun pairID p '(pend, count) =>
                    if CreatedAt p <? olderThan then (delete pairID pend, count + 1)
                    else (pend, count))
                 (base, 0) m) !! k = base !! k)
       /\ (m ⊆ base ->
           Z.of_nat (size (fst (map_fold
                 (fun pairID p '(pend, count) =>
                    if CreatedAt p <? olderThan then (delete pairID pend, count + 1)
                    else (pend, count))
                 (base, 0) m)))
           + snd (map_fold
                 (fun pairID p '(pend, count) =>
                    if CreatedAt p <? olderThan then (delete pairID pend, count + 1)
                    else (pend, count))
                 (base, 0) m) = Z.of_nat (size base)
           /\ 0 <= snd (map_fold
                 (fun pairID p '(pend, count) =>
                    if CreatedAt p <? olderThan then (delete pairID pend, count + 1)
                    else (pend, count))
                 (base, 0) m))).
  { intros [_ H]. by apply H. }
  clear Hsub.
  apply (map_fold_weak_ind
           (fun (r : gmap string Pending * Z) (m : gmap string Pending) =>
              (forall k, m !! k = None -> fst r !! k = base !! k)
              /\ (m ⊆ base ->
                  Z.of_nat (size (fst r)) + snd r = Z.of_nat (size base)
                  /\ 0 <= snd r))).
  - split; [done|]. simpl. lia.
  - intros i x m' [pend count] Hi [IH1 IH2]. simpl in *. split.
    + intros k Hk. apply lookup_insert_None in Hk as [Hk Hne].
      destruct (CreatedAt x <? olderThan); simpl; [rewrite lookup_delete_ne by done|];
        by apply IH1.
    + intros Hsub.
      assert (m' ⊆ base) as Hsub'.
      { etrans; [|exact Hsub]. by apply insert_subseteq. }
      destruct (IH2 Hsub') as [IHs IHc].
      assert (pend !! i = Some x) as Hpi.
      { rewrite IH1 by done. eapply lookup_weaken; [|exact Hsub].
        by rewrite lookup_insert_eq. }
      destruct (CreatedAt x <? olderThan); simpl; [|done].
      rewrite map_size_delete_Some by eauto.
      assert (size pend <> 0%nat) by (by eapply map_size_ne_0_lookup_2).
      lia.
Qed.

(** X12. [CleanupOld] returns the number of entries it removed: the
    pending count falls by exactly the returned number.  The entries it
    keeps are those created at or after the threshold, unchanged; the
    settled records are untouched; and a second call with the same
    threshold removes nothing. *)
Theorem CleanupOld_count (l : Ledger) (olderThan : Z) :
  let l' := fst (CleanupOld l olderThan) in
  snd (CleanupOld l olderThan) = GetPendingCount l - GetPendingCount l'
  /\ 0 <= snd (CleanupOld l olderThan) <= GetPendingCount l
  /\ (forall pairID p,
        Get l' pairID = Some p <-> Get l pairID = Some p /\ olderThan <= CreatedAt p)
  /\ settled l' = settled l
  /\ CleanupOld l' olderThan = (l', 0).
Proof.
  cbv zeta.
  assert (forall pairID p,
            Get (fst (CleanupOld l olderThan)) pairID = Some p
            <-> Get l pairID = Some p /\ olderThan <= CreatedAt p) as Hget.
  { intros k p. unfold Get. rewrite CleanupOld_lookup.
    destruct (pending l !! k) as [q|]; [|by split; [|intros []]].
    destruct (Z.ltb_spec (CreatedAt q) olderThan); split; try done.
    - intros [[= ->] ?]. lia.
    - by intros [= ->].
    - by intros []. }
  assert (forall l0, snd (CleanupOld l0 olderThan)
                     = GetPendingCount l0 - GetPendingCount (fst (CleanupOld l0 olderThan))
                     /\ 0 <= snd (CleanupOld l0 olderThan)) as Hcount.
  { intros l0. unfold CleanupOld, GetPendingCount.
    pose proof (CleanupOld_loop_count olderThan (pending l0) (pending l0) (reflexivity _)) as H.
    cbv zeta in H. destruct (map_fold _ _ _) as [pend count]. simpl in *. lia. }
  destruct (Hcount l) as [Hc Hpos].
  split; [done|]. split; [unfold GetPendingCount in *; lia|].
  split; [done|]. split; [apply CleanupOld_settled|].
  assert (pending (fst (CleanupOld (fst (CleanupOld l olderThan)) olderThan))
          = pending (fst (CleanupOld l olderThan))) as Hsame.
  { apply map_eq. intros k. rewrite (CleanupOld_lookup (fst (CleanupOld l olderThan))).
      destruct (pending (fst (CleanupOld l olderThan)) !! k) as [q|] eqn:E; [|done].
      apply Hget in E as [_ E]. by destruct (Z.ltb_spec (CreatedAt q) olderThan); [lia|]. }
    destruct (Hcount (fst (CleanupOld l olderThan))) as [Hc2 _].
    pose proof (CleanupOld_settled (fst (CleanupOld l olderThan)) olderThan) as Hs2.
    destruct (CleanupOld (fst (CleanupOld l olderThan)) olderThan) as [l2 n2].
    simpl in *. unfold GetPendingCount in Hc2. rewrite Hsame in Hc2.
    f_equal; [|lia]. destruct l2 as [p2 s2], (fst (CleanupOld l olderThan)) as [p1 s1].
    simpl in *. by subst.
Qed.

(** The two [uint64] totals of [GetStats] do not depend on the order in
    which the entries are added up. *)
Lemma GetStats_step_comm (p q : Pending) (y : Z * Z) :
  (let '(subsidy, fees) := let '(subsidy, fees) := y in
       (wrap_uint64 (subsidy + R q), wrap_uint64 (fees + FAB q)) in
   (wrap_uint64 (subsidy + R p), wrap_uint64 (fees + FAB p)))
  = (let '(subsidy, fees) := let '(subsidy, fees) := y in
       (wrap_uint64 (subsidy + R p), wrap_uint64 (fees + FAB p)) in
     (wrap_uint64 (subsidy + R q), wrap_uint64 (fees + FAB q))).
Proof.
  destruct y as [s f]. unfold wrap_uint64.
  f_equal; rewrite !Zplus_mod_idemp_l; f_equal; lia.
Qed.

(** X13. [GetStats] follows the ledger: a successful [Add] raises the
    subsidy and fee totals by the entry's [R] and [FAB] (in [uint64]
    arithmetic) and the pending count by one; a successful [Settle]
    takes the same amounts off again.  A fresh ledger has all four
    statistics at 0. *)
Theorem GetStats_tracks (l : Ledger) :
  (forall p,
      snd (Add l p) = None ->
      let st := GetStats l in
      let st' := GetStats (fst (Add l p)) in
      TotalSubsidy st' = wrap_uint64 (TotalSubsidy st + R p)
      /\ TotalFees st' = wrap_uint64 (TotalFees st + FAB p)
      /\ PendingCount st' = PendingCount st + 1
      /\ SettledCount st' = SettledCount st)
  /\ (forall pairID destBlockID log p,
        Get l pairID = Some p ->
        snd (Settle l pairID destBlockID recordCredit log) = None ->
        let st := GetStats l in
        let st' := GetStats (fst (fst (Settle l pairID destBlockID recordCredit log))) in
        TotalSubsidy st = wrap_uint64 (TotalSubsidy st' + R p)
        /\ TotalFees st = wrap_uint64 (TotalFees st' + FAB p)
        /\ PendingCount st' = PendingCount st - 1)
  /\ GetStats NewLedger
     = {| PendingCount := 0; SettledCount := 0; TotalSubsidy := 0; TotalFees := 0 |}.
Proof.
  split; [|split; [|done]].
  - intros p. unfold Add. destruct (settledFlag l (PairID p)); [done|].
    destruct (pending l !! PairID p) eqn:Ep; [done|]. intros _. cbv zeta.
    unfold GetStats. simpl.
    rewrite map_fold_insert_L; [| |done].
    + destruct (map_fold _ _ (pending l)) as [s f]. simpl.
      rewrite map_size_insert_None by done. repeat split; lia.
    + intros. apply GetStats_step_comm.
  - intros pairID destBlockID log p Hp. unfold Settle, Get in *.
    destruct (settledFlag l pairID); [done|]. rewrite Hp. intros _. cbv zeta.
    unfold GetStats. simpl.
    rewrite (map_fold_delete_L _ _ pairID p (pending l)); [| |done].
    + destruct (map_fold _ _ (delete pairID (pending l))) as [s f]. simpl.
      rewrite map_size_delete_Some by eauto.
      assert (size (pending l) <> 0%nat) by (by eapply map_size_ne_0_lookup_2).
      repeat split; lia.
    + intros. apply GetStats_step_comm.
Qed.

End LedgerMoreFacts.

Section LedgerMoreExamples.
Import Pending.

(** The run of scenario S5 extended: add, settle, settle again, clean
    up, add again. *)
Lemma run_consistent_witness :
  consistent NewLedger
  /\ consistent
       (fst (fst (run NewLedger []
                    [CallAdd entryS5; CallSettle "tx1" "blockB"; CallSettle "tx1" "blockC";
                     CallCleanupOld 2000; CallAdd entryS5]))).
Proof.
  assert (consistent NewLedger) as H.
  { intros k. unfold NewLedger, settledFlag. simpl. rewrite !lookup_empty.
    repeat split; done. }
  split; [exact H|].
  exact (proj1 (run_consistent _ NewLedger [] H)).
Defined.

End LedgerMoreExamples.

(** ** Fee tracker, continued *)

Section TrackerMoreFacts.
Import Expectation.

Lemma sum_bounds (l : list Z) (lo hi : Z) :
  Forall (fun x => lo <= x <= hi) l ->
  lo * Z.of_nat (length l) <= fold_left Z.add l 0 <= hi * Z.of_nat (length l).
Proof.
  induction 1 as [|x l Hx _ IH]; simpl; [lia|].
  rewrite fold_left_add_acc. lia.
Qed.

Lemma mean_bounds (l : list Z) (lo hi : Z) :
  l <> [] -> Forall (fun x => lo <= x <= hi) l ->
  lo <= fold_left Z.add l 0 / Z.of_nat (length l) <= hi.
Proof.
  intros Hne Hl. pose proof (sum_bounds l lo hi Hl) as Hs.
  assert (0 < Z.of_nat (length l)) as Hn by (destruct l; [done|simpl; lia]).
  split.
  - apply Z.div_le_lower_bound; lia.
  - apply Z.div_le_upper_bound; lia.
Qed.

Lemma positiveFees_capped (fees : list (option Z)) :
  Forall (fun x => 0 <= x <= feeCap) (map capFee (positiveFees fees)).
Proof.
  induction fees as [|[f|] rest IH]; simpl; [done| |done].
  destruct (Z.ltb_spec 0 f); [|done]. simpl. constructor; [|done].
  unfold capFee, feeCap. lia.
Qed.

(** The mean of a block lies between 0 and the cap. *)
Lemma blockMean_bounds (fees : list (option Z)) : 0 <= blockMean fees <= feeCap.
Proof.
  rewrite blockMean_spec.
  destruct (Z.eqb_spec (Z.of_nat (length (positiveFees fees))) 0) as [|Hn];
    [unfold feeCap; lia|].
  rewrite <- (length_map capFee). apply mean_bounds; [|apply positiveFees_capped].
  destruct (positiveFees fees); [done|by simpl].
Qed.

(** The maps of a tracker outside the shard of a finalized block. *)
Lemma OnBlockFinalized_frame (t t' : Tracker) (shardID other : Z)
    (fees : list (option Z)) :
  OnBlockFinalized t shardID fees = Some t' ->
  other <> shardID ->
  itxWindows t' !! other = itxWindows t !! other
  /\ blockCount t' !! other = blockCount t !! other
  /\ avg t' !! other = avg t !! other
  /\ WindowSize t' = WindowSize t.
Proof.
  unfold OnBlockFinalized. intros E Hne.
  destruct (WindowSize t <? 0); [done|]. injection E as <-.
  destruct (itxWindows t !! shardID); simpl;
    rewrite ?lookup_insert_ne by done; done.
Qed.

(** X14. [OnBlockFinalized] touches one shard only: the window, the
    block count and the average of every other shard, and the window
    size of the tracker, are what they were. *)
Theorem OnBlockFinalized_other_shards (t t' : Tracker) (shardID other : Z)
    (fees : list (option Z)) :
  OnBlockFinalized t shardID fees = Some t' ->
  other <> shardID ->
  itxWindows t' !! other = itxWindows t !! other
  /\ GetBlockCount t' other = GetBlockCount t other
  /\ GetAvgITXFee t' other = GetAvgITXFee t other
  /\ WindowSize t' = WindowSize t.
Proof.
  intros E Hne. unfold GetBlockCount, GetAvgITXFee.
  destruct (OnBlockFinalized_frame t t' shardID other fees E Hne) as (-> & -> & -> & ->).
  done.
Qed.

(** One finalized block: the window grows by one entry up to the window
    size, and the block count by one. *)
Lemma OnBlockFinalized_length (t : Tracker) (shardID : Z) (fees : list (option Z)) :
  0 <= WindowSize t ->
  exists t',
    OnBlockFinalized t shardID fees = Some t'
    /\ Z.of_nat (length (default [] (itxWindows t' !! shardID)))
       = Z.min (Z.of_nat (length (default [] (itxWindows t !! shardID))) + 1) (WindowSize t)
    /\ GetBlockCount t' shardID
       = wrap_int (match itxWindows t !! shardID with Some _ => GetBlockCount t shardID | None => 0 end + 1).
Proof.
  intros HK. destruct (OnBlockFinalized_window t shardID fees HK) as (t' & E & _ & Hw & _).
  exists t'. split; [done|]. cbv zeta in Hw. rewrite Hw. simpl. split.
  - rewrite length_drop, length_app. simpl. lia.
  - clear Hw. unfold OnBlockFinalized, GetBlockCount in *.
    destruct (WindowSize t <? 0); [done|]. injection E as <-.
    destruct (itxWindows t !! shardID); simpl; by rewrite !lookup_insert_eq.
Qed.

Lemma wrap_int_succ (c n : Z) : wrap_int (wrap_int (c + 1) + n) = wrap_int (c + (1 + n)).
Proof.
  unfold wrap_int. f_equal.
  replace (c + 1 + 2 ^ 63) with ((c + 1 + 2 ^ 63)) by lia.
  replace ((c + 1 + 2 ^ 63) mod 2 ^ 64 - 2 ^ 63 + n + 2 ^ 63)
    with ((c + 1 + 2 ^ 63) mod 2 ^ 64 + n) by lia.
  rewrite Zplus_mod_idemp_l. f_equal. lia.
Qed.

Lemma wrap_int_idem (c : Z) : wrap_int (wrap_int c) = wrap_int c.
Proof.
  unfold wrap_int. f_equal.
  replace ((c + 2 ^ 63) mod 2 ^ 64 - 2 ^ 63 + 2 ^ 63) with ((c + 2 ^ 63) mod 2 ^ 64) by lia.
  apply Zmod_mod.
Qed.

(** The number of blocks of a run that belong to a shard. *)
Lemma finalizeAll_length (blocks : list (Z * list (option Z))) (shardID : Z) :
  forall t,
    0 <= WindowSize t ->
    Z.of_nat (length (default [] (itxWindows t !! shardID))) <= WindowSize t ->
    (itxWindows t !! shardID = None -> GetBlockCount t shardID = 0) ->
    wrap_int (GetBlockCount t shardID) = GetBlockCount t shardID ->
    let n := Z.of_nat (length (List.filter (fun b => fst b =? shardID) blocks)) in
    exists t',
      finalizeAll t blocks = Some t'
      /\ WindowSize t' = WindowSize t
      /\ Z.of_nat (length (default [] (itxWindows t' !! shardID)))
         = Z.min (Z.of_nat (length (default [] (itxWindows t !! shardID))) + n) (WindowSize t)
      /\ GetBlockCount t' shardID = wrap_int (GetBlockCount t shardID + n).
Proof.
  induction blocks as [|[s0 fees] rest IH]; intros t HK Hlen Habs Hwrap; cbv zeta.
  { exists t. simpl. repeat split; try done; [lia|]. by rewrite Z.add_0_r. }
  simpl. destruct (Z.eqb_spec s0 shardID) as [->|Hne].
  - destruct (OnBlockFinalized_length t shardID fees HK) as (t1 & E & Hl1 & Hc1).
    destruct (OnBlockFinalized_window t shardID fees HK) as (t1' & E' & HK1 & Hw1 & _).
    rewrite E in E'. injection E' as <-. cbv zeta in Hw1.
    rewrite E.
    assert (GetBlockCount t1 shardID = wrap_int (GetBlockCount t shardID + 1)) as Hc1'.
    { rewrite Hc1. destruct (itxWindows t !! shardID); [done|]. by rewrite Habs. }
    destruct (IH t1) as (t' & Ef & HK' & Hl' & Hc').
    + lia.
    + rewrite Hl1. lia.
    + by rewrite Hw1.
    + rewrite Hc1'. apply wrap_int_idem.
    + exists t'. split; [done|]. split; [congruence|]. split.
      * rewrite Hl', Hl1, HK1. simpl length. lia.
      * rewrite Hc', Hc1', wrap_int_succ. f_equal. simpl length. lia.
  - destruct (OnBlockFinalized_window t s0 fees HK) as (t1 & E & HK1 & _).
    destruct (OnBlockFinalized_frame t t1 s0 shardID fees E ltac:(done))
      as (Hw1 & Hc1 & _ & _).
    assert (GetBlockCount t1 shardID = GetBlockCount t shardID) as Hg1
      by (unfold GetBlockCount; by rewrite Hc1).
    clear Hc1. rename Hg1 into Hc1.
    rewrite E.
    destruct (IH t1) as (t' & Ef & HK' & Hl' & Hc').
    + lia.
    + rewrite Hw1. lia.
    + rewrite Hw1, Hc1. done.
    + by rewrite Hc1.
    + exists t'. split; [done|]. split; [congruence|]. split.
      * rewrite Hl', Hw1, HK1. done.
      * by rewrite Hc', Hc1.
Qed.

(** X15. On a tracker made by [NewTracker], after any run of finalized
    blocks, the window of a shard holds as many entries as blocks were
    finalized for it, up to the window size, and never more; the block
    count of the shard is the number of its blocks (as a Go [int]); the
    window size is at least 1 and the run never panics. *)
Theorem finalizeAll_window_length (windowSize : Z) (blocks : list (Z * list (option Z)))
    (shardID : Z) :
  let K := WindowSize (NewTracker windowSize) in
  let n := Z.of_nat (length (List.filter (fun b => fst b =? shardID) blocks)) in
  exists t,
    finalizeAll (NewTracker windowSize) blocks = Some t
    /\ 1 <= K
    /\ WindowSize t = K
    /\ Z.of_nat (length (default [] (itxWindows t !! shardID))) = Z.min n K
    /\ GetBlockCount t shardID = wrap_int n
    /\ (n < 2 ^ 63 -> GetBlockCount t shardID = n).
Proof.
  intros K n.
  assert (1 <= K) as HK.
  { subst K. unfold NewTracker. cbn. destruct (Z.leb_spec windowSize 0); lia. }
  destruct (finalizeAll_length blocks shardID (NewTracker windowSize)) as (t & E & HK' & Hl & Hc).
  - fold K. lia.
  - replace (itxWindows (NewTracker windowSize)) with (∅ : gmap Z (list Z)) by done.
    rewrite lookup_empty. change (0 <= K). lia.
  - done.
  - done.
  - exists t. split; [done|]. split; [done|]. split; [done|].
    cbv zeta in Hl, Hc. fold n in Hl, Hc. fold K in Hl.
    replace (default [] (itxWindows (NewTracker windowSize) !! shardID)) with (@nil Z) in Hl
      by (unfold NewTracker; simpl; by rewrite lookup_empty).
    replace (GetBlockCount (NewTracker windowSize) shardID) with 0 in Hc by done.
    simpl in Hl, Hc. split; [done|]. split; [done|].
    intros Hn. rewrite Hc. unfold wrap_int.
    rewrite Z.mod_small by lia. lia.
Qed.

(** A run of blocks keeps every window entry and every average between
    0 and the cap. *)
Lemma finalizeAll_bounds (blocks : list (Z * list (option Z))) :
  forall t,
    0 <= WindowSize t ->
    (forall s, Forall (fun x => 0 <= x <= feeCap) (default [] (itxWindows t !! s))
               /\ 0 <= GetAvgITXFee t s <= feeCap) ->
    exists t',
      finalizeAll t blocks = Some t'
      /\ (forall s, Forall (fun x => 0 <= x <= feeCap) (default [] (itxWindows t' !! s))
                    /\ 0 <= GetAvgITXFee t' s <= feeCap).
Proof.
  induction blocks as [|[s0 fees] rest IH]; intros t HK Ht; [by exists t|].
  simpl.
  destruct (OnBlockFinalized_window t s0 fees HK) as (t1 & E & HK1 & Hw1 & Ha1).
  rewrite E. apply IH; [lia|]. intros s.
  destruct (decide (s = s0)) as [->|Hne].
  - cbv zeta in Hw1. unfold GetAvgITXFee. rewrite Hw1, Ha1. simpl.
    set (w' := drop _ _).
    assert (Forall (fun x => 0 <= x <= feeCap) w') as Hw'.
    { apply Forall_drop, Forall_app. split; [apply Ht|].
      constructor; [apply blockMean_bounds|done]. }
    split; [done|].
    destruct (decide (w' = [])) as [->|Hne]; [by vm_compute|].
    by apply mean_bounds.
  - destruct (OnBlockFinalized_frame t t1 s0 s fees E Hne) as (Hw & _ & Ha & _).
    unfold GetAvgITXFee. rewrite Hw, Ha. apply Ht.
Qed.

(** X16. No fee can drive an average beyond the cap: on a tracker made
    by [NewTracker], after any run of finalized blocks, whatever fees
    they carry (nil, negative or huge), the average of every shard lies
    between 0 and [10^14] wei, and so does every entry of every
    window. *)
Theorem finalizeAll_average_capped (windowSize : Z) (blocks : list (Z * list (option Z))) :
  exists t,
    finalizeAll (NewTracker windowSize) blocks = Some t
    /\ forall shardID,
         0 <= GetAvgITXFee t shardID <= feeCap
         /\ Forall (fun x => 0 <= x <= feeCap) (default [] (itxWindows t !! shardID)).
Proof.
  destruct (finalizeAll_bounds blocks (NewTracker windowSize)) as (t & E & Ht).
  - unfold NewTracker. simpl. destruct (Z.leb_spec windowSize 0); lia.
  - intros s. unfold GetAvgITXFee, NewTracker. simpl. rewrite !lookup_empty. simpl.
    split; [done|]. unfold feeCap. lia.
  - exists t. split; [done|]. intros s. destruct (Ht s). done.
Qed.

(** X17. A fee reported by a remote shard is served by [GetAvgITXFee]
    as it is (nil as 0) and changes no other shard; but it takes no part
    in the window: the next block finalized for that shard replaces it
    by the window mean, exactly as if the report had never arrived.
    The tracker is one on which a shard without an average has no
    window, as is the tracker that [NewTracker] returns. *)
Theorem UpdateRemoteShardFee_overwritten (t : Tracker) (shardID : Z) (avgFee : option Z) :
  0 <= WindowSize t ->
  (avg t !! shardID = None -> itxWindows t !! shardID = None) ->
  let t1 := UpdateRemoteShardFee t shardID avgFee in
  GetAvgITXFee t1 shardID = orZero avgFee
  /\ (forall other, other <> shardID ->
        GetAvgITXFee t1 other = GetAvgITXFee t other
        /\ itxWindows t1 !! other = itxWindows t !! other
        /\ GetBlockCount t1 other = GetBlockCount t other)
  /\ default [] (itxWindows t1 !! shardID) = default [] (itxWindows t !! shardID)
  /\ (forall fees, OnBlockFinalized t1 shardID fees = OnBlockFinalized t shardID fees).
Proof.
  intros _ Hfresh t1. subst t1. unfold UpdateRemoteShardFee, GetAvgITXFee, GetBlockCount.
  simpl. split; [by rewrite lookup_insert_eq|]. split; [|split].
  - intros other Hne. rewrite lookup_insert_ne by done.
    destruct (avg t !! shardID); rewrite ?lookup_insert_ne by done; done.
  - destruct (avg t !! shardID); [done|].
    by rewrite lookup_insert_eq, Hfresh.
  - intros fees. unfold OnBlockFinalized, recomputeAvg. simpl.
    destruct (WindowSize t <? 0); [done|]. f_equal.
    destruct (avg t !! shardID) eqn:Ea.
    + destruct (itxWindows t !! shardID) eqn:Ew; simpl; rewrite ?Ew; simpl;
        rewrite !lookup_insert_eq; simpl; by rewrite !insert_insert_eq.
    + rewrite (Hfresh eq_refl). rewrite !lookup_insert_eq. simpl.
      rewrite !lookup_insert_eq. simpl. by rewrite !insert_insert_eq.
Qed.

(** X18. [Reset] forgets a shard and nothing else: its average and
    block count read 0 again, the other shards keep theirs, and the
    next block finalized for the shard alone determines its average.
    [ResetAll] forgets every shard. *)
Theorem Reset_forgets (t : Tracker) (shardID : Z) :
  GetAvgITXFee (Reset t shardID) shardID = 0
  /\ GetBlockCount (Reset t shardID) shardID = 0
  /\ (forall other, other <> shardID ->
        GetAvgITXFee (Reset t shardID) other = GetAvgITXFee t other
        /\ GetBlockCount (Reset t shardID) other = GetBlockCount t other
        /\ itxWindows (Reset t shardID) !! other = itxWindows t !! other)
  /\ (forall fees,
        1 <= WindowSize t ->
        exists t',
          OnBlockFinalized (Reset t shardID) shardID fees = Some t'
          /\ itxWindows t' !! shardID = Some [blockMean fees]
          /\ GetAvgITXFee t' shardID = blockMean fees
          /\ GetBlockCount t' shardID = 1)
  /\ (forall s, GetAvgITXFee (ResetAll t) s = 0 /\ GetBlockCount (ResetAll t) s = 0).
Proof.
  split; [|split; [|split; [|split]]].
  - unfold GetAvgITXFee, Reset. simpl. by rewrite lookup_delete_eq.
  - unfold GetBlockCount, Reset. simpl. by rewrite lookup_delete_eq.
  - intros other Hne. unfold GetAvgITXFee, GetBlockCount, Reset. simpl.
    by rewrite !lookup_delete_ne.
  - intros fees HK.
    assert (itxWindows (Reset t shardID) !! shardID = None) as Hn
      by (simpl; apply lookup_delete_eq).
    destruct (OnBlockFinalized_window (Reset t shardID) shardID fees)
      as (t' & E & _ & Hw & Ha); [simpl; lia|].
    destruct (OnBlockFinalized_length (Reset t shardID) shardID fees)
      as (t'' & E' & _ & Hc); [simpl; lia|].
    rewrite E in E'. injection E' as <-.
    exists t'. split; [done|]. cbv zeta in Hw, Ha. rewrite Hn in Hw, Ha, Hc.
    change (WindowSize (Reset t shardID)) with (WindowSize t) in Hw, Ha.
    simpl in Hw, Ha.
    replace (Z.to_nat (Z.of_nat 1 - WindowSize t)) with 0%nat in Hw, Ha by lia.
    simpl in Hw, Ha. split; [done|]. split; [|done].
    unfold GetAvgITXFee. rewrite Ha. unfold windowSum. simpl. by rewrite Z.div_1_r.
  - intros s. unfold GetAvgITXFee, GetBlockCount, ResetAll. simpl. by rewrite !lookup_empty.
Qed.

End TrackerMoreFacts.

Section TrackerMoreExamples.
Import Expectation.

Lemma OnBlockFinalized_other_shards_witness :
  exists t',
    OnBlockFinalized trackerS7 0 [Some 100; Some 300] = Some t'
    /\ GetAvgITXFee t' 0 = 200
    /\ GetAvgITXFee t' 2 = 990.
Proof.
  eexists. split; [reflexivity|]. split; [reflexivity|].
  exact (proj1 (proj2 (proj2 (OnBlockFinalized_other_shards trackerS7 _ 0 2
                                [Some 100; Some 300] eq_refl ltac:(done))))).
Defined.

Lemma UpdateRemoteShardFee_overwritten_witness :
  0 <= WindowSize (NewTracker 16)
  /\ OnBlockFinalized (UpdateRemoteShardFee (NewTracker 16) 1 (Some 990)) 1 [Some 10]
  = OnBlockFinalized (NewTracker 16) 1 [Some 10].
Proof.
  split; [done|].
  exact (proj2 (proj2 (proj2 (UpdateRemoteShardFee_overwritten (NewTracker 16) 1 (Some 990)
                                ltac:(done) ltac:(done)))) [Some 10]).
Defined.

End TrackerMoreExamples.

(** ** Scheduler, continued *)

Section SchedulerMoreFacts.
Context `{GoMath} `{GoSort}.
Import Justitia Subsidy Core Scheduler.






(** What one call of [scoreCTX] does to the scheduler and writes on the
    transaction. *)
Lemma scoreCTX_books (s s' : Scheduler) (tx tx' : Transaction) (EA : Z) (now : Time)
    (score : Z) (txCase : Case) :
  scoreCTX s tx EA now = Some (tx', score, txCase, s') ->
  exists R uA uB c,
    tx' = setJustitia tx R uA uB c
    /\ epochSubsidyTotal s' = epochSubsidyTotal s + (if keepsEpoch s then R else 0)
    /\ epochTxCount s'
       = (if keepsEpoch s then Expectation.wrap_int (epochTxCount s + 1) else epochTxCount s)
    /\ keepsEpoch s' = keepsEpoch s
    /\ ShardID s' = ShardID s /\ NumShards s' = NumShards s
    /\ FeeTracker s' = FeeTracker s /\ SubsidyMode_ s' = SubsidyMode_ s
    /\ CustomSubsidy s' = CustomSubsidy s.
Proof.
  unfold scoreCTX, keepsEpoch. intros E.
  destruct (subsidyFor s _ _ now) as [[R m']|] eqn:Es; [|done].
  assert (match Mechanism_ s with Some _ => is_Some m' | None => m' = None end) as Hm.
  { unfold subsidyFor in Es. destruct (Mechanism_ s); [|by simplify_eq].
    destruct (CalculateRAB _ _ _ _ _) as [[? ?]|]; by simplify_eq. }
  destruct (Split2 _ _ _ _) as [uA uB].
  destruct (FromShard tx =? ShardID s); injection E as <- <- <- <-;
    eexists R, uA, uB, _; (split; [reflexivity|]); simpl;
    (destruct (Mechanism_ s); [destruct Hm as [? ->]|subst m']);
    try destruct (bool_decide (SubsidyMode_ s = SubsidyLagrangian));
    repeat split; lia.
Qed.

Lemma subsidyWritten_cons (x : TxWithScore) (scored : list TxWithScore) :
  subsidyWritten (x :: scored)
  = (if IsCrossShard (Tx x) then orZero (SubsidyR (Tx x)) else 0) + subsidyWritten scored.
Proof.
  assert (forall l a,
            fold_left (fun acc x0 => if IsCrossShard (Tx x0)
                                     then acc + orZero (SubsidyR (Tx x0)) else acc) l a
            = a + fold_left (fun acc x0 => if IsCrossShard (Tx x0)
                                           then acc + orZero (SubsidyR (Tx x0)) else acc) l 0)
    as Hacc.
  { induction l as [|y l IH]; intros a; simpl; [lia|].
    rewrite IH, (IH (if IsCrossShard (Tx y) then 0 + _ else 0)).
    destruct (IsCrossShard (Tx y)); lia. }
  unfold subsidyWritten. simpl. rewrite Hacc. destruct (IsCrossShard (Tx x)); lia.
Qed.

Lemma scoreAll_books (txPool : list Transaction) :
  forall (s s' : Scheduler) (EA : Z) (clock : nat -> Time) (i : nat)
         (scored : list TxWithScore),
    scoreAll s EA clock i txPool = Some (scored, s') ->
    epochSubsidyTotal s'
    = epochSubsidyTotal s + (if keepsEpoch s then subsidyWritten scored else 0)
    /\ epochTxCount s'
       = (if keepsEpoch s && (0 <? crossShardCount txPool)
          then Expectation.wrap_int (epochTxCount s + crossShardCount txPool)
          else epochTxCount s)
    /\ keepsEpoch s' = keepsEpoch s
    /\ ShardID s' = ShardID s /\ NumShards s' = NumShards s
    /\ FeeTracker s' = FeeTracker s /\ SubsidyMode_ s' = SubsidyMode_ s
    /\ CustomSubsidy s' = CustomSubsidy s.
Proof.
  unfold crossShardCount.
  induction txPool as [|tx rest IH]; intros s s' EA clock i scored E; simpl in E.
  { injection E as <- <-. simpl. rewrite andb_false_r.
    repeat split; try done. destruct (keepsEpoch s); unfold subsidyWritten; simpl; lia. }
  simpl. destruct (IsCrossShard tx) eqn:Ex.
  - destruct (scoreCTX s tx EA (clock i)) as [[[[tx' score] txCase] s1]|] eqn:Ec; [|done].
    destruct (scoreAll s1 EA clock (S i) rest) as [[scored' s2]|] eqn:Er; [|done].
    injection E as <- <-.
    destruct (scoreCTX_books _ _ _ _ _ _ _ _ Ec)
      as (R & uA & uB & c & -> & Ht & Hc & Hk & H1 & H2 & H3 & H4 & H5).
    destruct (IH _ _ _ _ _ _ Er) as (Ht' & Hc' & Hk' & H1' & H2' & H3' & H4' & H5').
    rewrite subsidyWritten_cons. simpl. rewrite Ex. simpl.
    rewrite Ht', Hc', Hk, Ht, Hc, Hk'.
    split; [destruct (keepsEpoch s); lia|].
    split; [|repeat split; congruence].
    destruct (keepsEpoch s); simpl; [|done].
    set (k := Z.of_nat (length (List.filter IsCrossShard rest))).
    replace (Z.of_nat (S (length (List.filter IsCrossShard rest)))) with (1 + k) by lia.
    assert (0 <= k) by lia.
    destruct (Z.ltb_spec 0 k), (Z.ltb_spec 0 (1 + k)); try lia.
    + apply wrap_int_succ.
    + f_equal. lia.
  - destruct (scoreAll s EA clock (S i) rest) as [[scored' s2]|] eqn:Er; [|done].
    injection E as <- <-.
    destruct (IH _ _ _ _ _ _ Er) as (Ht' & Hc' & Hk' & Hrest).
    rewrite subsidyWritten_cons. simpl. rewrite Ex. done.
Qed.

(** X20. The epoch books of [SelectForBlock].  A call with a capacity
    of 0 or less returns the empty block before anything is scored and
    leaves the scheduler, its books included, as it was, whatever the
    pool holds.  A call with a positive capacity scores the whole pool:
    with a mechanism and in the Lagrangian mode it adds to the epoch
    total the subsidy of every cross-shard transaction of the pool,
    selected or not, and to the epoch count their number; in every
    other setting the books stay as they are.  Shard, tracker, mode and
    custom function are never changed. *)
Theorem SelectForBlock_epoch_books (s s' : Scheduler) (capacity : Z)
    (txPool out : list Transaction) (clock : nat -> Time) :
  SelectForBlock s capacity txPool clock = Some (out, s') ->
  (capacity <= 0 -> out = [] /\ s' = s)
  /\ (0 < capacity ->
      exists scored,
        scoreAll s (Expectation.GetAvgITXFee (FeeTracker s) (ShardID s)) clock 0 txPool
        = Some (scored, s')
        /\ Forall2 scoredFrom txPool scored
        /\ epochSubsidyTotal s'
           = epochSubsidyTotal s + (if keepsEpoch s then subsidyWritten scored else 0)
        /\ epochTxCount s'
           = (if keepsEpoch s && (0 <? crossShardCount txPool)
              then Expectation.wrap_int (epochTxCount s + crossShardCount txPool)
              else epochTxCount s))
  /\ ShardID s' = ShardID s /\ NumShards s' = NumShards s
  /\ FeeTracker s' = FeeTracker s /\ SubsidyMode_ s' = SubsidyMode_ s
  /\ CustomSubsidy s' = CustomSubsidy s.
Proof.
  intros Hsel.
  destruct (Z.leb_spec capacity 0) as [Hcap|Hcap].
  - unfold SelectForBlock in Hsel.
    destruct (Z.leb_spec capacity 0) as [_|?]; [|lia]. simpl in Hsel.
    injection Hsel as <- <-. split; [done|]. split; [lia|]. done.
  - destruct (SelectForBlock_closed_form s s' capacity txPool out clock Hcap Hsel)
      as (scored & Hscore & _).
    destruct (scoreAll_books _ _ _ _ _ _ _ Hscore) as (Ht & Hc & _ & Hframe).
    split; [lia|]. split; [|exact Hframe].
    intros _. exists scored. split; [done|]. split; [by eapply scoreAll_scoredFrom|].
    by split.
Qed.

(** X21. The score under which the selector ranks a cross-shard
    transaction is the reward that [EstimateBlockReward] counts for it
    afterwards, on the source shard ([uA]) as on the destination shard
    ([uB]); a shard that is neither counts nothing for it.  On the
    destination side the transaction is always Case1 and keeps the case
    number stamped by the source shard, or gets the number 1 when it
    carries none. *)
Theorem scoreCTX_reward (s s' : Scheduler) (tx tx' : Transaction) (EA : Z) (now : Time)
    (score : Z) (txCase : Case) :
  scoreCTX s tx EA now = Some (tx', score, txCase, s') ->
  (FromShard tx = ShardID s ->
   EstimateBlockReward s' [tx'] = score
   /\ UtilityA tx' = Some score
   /\ JustitiaCase tx' = Case_to_int txCase)
  /\ (FromShard tx <> ShardID s ->
      txCase = Case1
      /\ UtilityB tx' = Some score
      /\ JustitiaCase tx' = (if JustitiaCase tx =? 0 then 1 else JustitiaCase tx)
      /\ (ToShard tx = ShardID s -> EstimateBlockReward s' [tx'] = score)
      /\ (ToShard tx <> ShardID s -> EstimateBlockReward s' [tx'] = 0)).
Proof.
  intros E.
  destruct (scoreCTX_books _ _ _ _ _ _ _ _ E) as (_ & _ & _ & _ & _ & _ & _ & _ & Hid & _).
  unfold scoreCTX in E.
  destruct (subsidyFor s _ _ now) as [[R m']|]; [|done].
  destruct (Split2 _ _ _ _) as [uA uB].
  unfold EstimateBlockReward. rewrite Hid.
  destruct (Z.eqb_spec (FromShard tx) (ShardID s)) as [Hsrc|Hsrc];
    injection E as <- <- <- _; simpl; split; try done.
  - intros _. by destruct (Z.eqb_spec (FromShard tx) (ShardID s)).
  - intros _. destruct (Z.eqb_spec (FromShard tx) (ShardID s)); [done|].
    repeat split; try done; intros Hto;
      by destruct (Z.eqb_spec (ToShard tx) (ShardID s)).
Qed.

(** Without a mechanism a scoring pass does not read the clock and
    leaves the scheduler as it is. *)
Lemma scoreAll_stateless (txPool : list Transaction) (s : Scheduler) (EA : Z) :
  Mechanism_ s = None ->
  exists scored, forall clock i, scoreAll s EA clock i txPool = Some (scored, s).
Proof.
  intros Hm. induction txPool as [|tx rest [scored IH]]; [by exists []|].
  simpl. destruct (IsCrossShard tx).
  - assert (exists r, forall now, scoreCTX s tx EA now = Some (r, s)) as [[[tx' sc] c] Hc].
    { unfold scoreCTX, subsidyFor. rewrite Hm.
      assert (withMechanism s None (epochSubsidyTotal s) (epochTxCount s) = s) as ->
        by (destruct s; simpl in *; by subst).
      destruct (Split2 _ _ _ _) as [uA uB].
      destruct (FromShard tx =? ShardID s); by eexists. }
    eexists. intros clock i. by rewrite Hc, IH.
  - eexists. intros clock i. by rewrite IH.
Qed.

(** X22. A scheduler that [NewScheduler] builds for a static mode
    (every mode but PID and Lagrangian) has no mechanism, and selecting
    with it is a pure function of the pool: [SelectForBlock] always
    returns, its result does not depend on the clock, and the scheduler
    is left exactly as it was. *)
Theorem NewScheduler_static (shardID numShards : Z) (feeTracker : Expectation.Tracker)
    (mode : SubsidyMode) (cfg : Config) (now : Time) (capacity : Z)
    (txPool : list Transaction) :
  mode <> SubsidyPID -> mode <> SubsidyLagrangian ->
  let s := NewScheduler shardID numShards feeTracker mode cfg now in
  Mechanism_ s = None
  /\ exists out, forall clock, SelectForBlock s capacity txPool clock = Some (out, s).
Proof.
  intros HP HL s.
  assert (Mechanism_ s = None) as Hm.
  { subst s. unfold NewScheduler. simpl.
    by rewrite !bool_decide_false. }
  split; [done|]. unfold SelectForBlock.
  destruct ((capacity <=? 0) || (Z.of_nat (length txPool) =? 0)); [by exists []|].
  destruct (scoreAll_stateless txPool s
              (Expectation.GetAvgITXFee (FeeTracker s) (ShardID s)) Hm) as [scored Hs].
  destruct (partition3 (Expectation.GetAvgITXFee (FeeTracker s) (ShardID s)) scored)
    as [[p1 p2] p3] eqn:Ep.
  eexists. intros clock. rewrite Hs, Ep. reflexivity.
Qed.

(** X23. With the destination-average subsidy the source shard ranks
    a cross-shard transaction by the rule it applies to its own
    transactions: the transaction is Case1 exactly when its fee reaches
    the local average [EA].  Its subsidy is the average of the
    destination shard and its score is [(f + EA) / 2], unless the local
    average exceeds [f + 2 EB], when the score is the whole total
    [f + EB]. *)
Theorem scoreCTX_DestAvg (s s' : Scheduler) (tx tx' : Transaction) (EA : Z) (now : Time)
    (score : Z) (txCase : Case) :
  Mechanism_ s = None -> SubsidyMode_ s = SubsidyDestAvg ->
  FromShard tx = ShardID s ->
  0 <= orZero (FeeToProposer tx) -> 0 <= EA ->
  0 <= Expectation.GetAvgITXFee (FeeTracker s) (ToShard tx) ->
  scoreCTX s tx EA now = Some (tx', score, txCase, s') ->
  let f := orZero (FeeToProposer tx) in
  let EB := Expectation.GetAvgITXFee (FeeTracker s) (ToShard tx) in
  (txCase = Case1 <-> EA <= f)
  /\ SubsidyR tx' = Some EB
  /\ score = (if f + 2 * EB <? EA then f + EB else (f + EA) / 2).
Proof.
  intros Hm Hmode Hsrc Hf HEA HEB E f EB. unfold scoreCTX, subsidyFor in E.
  rewrite Hm, Hmode, Hsrc, Z.eqb_refl in E. fold EB f in E.
  cbn [RAB destAvg orZero] in E.
  rewrite (Split2_regimes (Some f) (Some EB) (Some EA) (Some EB)) in E by (simpl; lia).
  cbn [orZero] in E.
  replace (f + EB + (EA - EB)) with (f + EA) in E by lia.
  destruct (Z.ltb_spec (EA - EB) (- (f + EB))); [lia|].
  destruct (Z.ltb_spec (f + EB) (EA - EB)), (Z.ltb_spec (f + 2 * EB) EA); try lia;
    rewrite Classify_unfold in E; injection E as <- <- <- _; (split; [|done]).
  - destruct (Z.geb_spec (f + EB) EA); [lia|].
    split; [|lia]. destruct (EB >=? EA), (f + EB <=? 0), (f + EB <=? EA - EB); done.
  - destruct (Z.geb_spec ((f + EA) / 2) EA) as [Hge|Hlt].
    + split; [intros _; div_lia|done].
    + split; [|intros; div_lia].
      destruct (EB >=? EA), ((f + EA) / 2 <=? 0), ((f + EA) / 2 <=? EA - EB); done.
Qed.

(** X24. [UpdateEpoch] in the Lagrangian mode closes the epoch: the
    mechanism's running total and the two epoch counters of the
    scheduler restart at 0, the epoch starts at the clock reading of the
    reset, and [GetEpochStats] reports the fresh books with the new
    price.  Configuration and PID state are kept, and so are shard,
    tracker, mode and custom function.  With an inflation limit in the
    configuration the shadow price moves by one clamped step computed
    from the epoch total against that limit; with a nil limit the price
    is left as it is, within its bounds or not.  The new price lies
    within the bounds when there is a limit and it converts to a finite
    binary64 number, [alpha] is finite and not zero, the bounds are
    finite with [lambda_min <= lambda_max], and the price before the
    call is finite.  Without a mechanism, or in another mode, the call
    does nothing. *)
Theorem UpdateEpoch_closes_epoch (s : Scheduler) (m : Mechanism) (now1 now2 : Time) :
  let P := lagrangianParams (config m) in
  Mechanism_ s = Some m -> SubsidyMode_ s = SubsidyLagrangian ->
  let s' := UpdateEpoch s now1 now2 in
  (exists m',
      Mechanism_ s' = Some m'
      /\ GetShadowPrice m'
         = match MaxInflation (config m) with
           | Some limit =>
               clamp (F64.add (GetShadowPrice m)
                        (F64.mul (Alpha P)
                           (normalizedViolation (epochSubsidyTotal s) limit)))
                     (MinLambda P) (MaxLambda P)
           | None => GetShadowPrice m
           end
      /\ (forall limit,
            MaxInflation (config m) = Some limit ->
            F64.is_finite_nonzero (Alpha P) = true ->
            F64.is_finite (MinLambda P) = true -> F64.is_finite (MaxLambda P) = true ->
            F64.leb (MinLambda P) (MaxLambda P) = true ->
            F64.is_finite (Lambda (lagrangianState m)) = true ->
            F64.is_finite (F64.of_Z limit) = true ->
            inBounds P (GetShadowPrice m'))
      /\ TotalSubsidy (lagrangianState m') = Some 0
      /\ EpochStartTime (lagrangianState m') = now2
      /\ config m' = config m /\ pidState m' = pidState m
      /\ GetEpochStats s' = (0, 0, GetShadowPrice m'))
  /\ epochSubsidyTotal s' = 0 /\ epochTxCount s' = 0
  /\ (ShardID s' = ShardID s /\ NumShards s' = NumShards s
      /\ FeeTracker s' = FeeTracker s /\ SubsidyMode_ s' = SubsidyMode_ s
      /\ CustomSubsidy s' = CustomSubsidy s)
  /\ (forall s0,
        Mechanism_ s0 = None \/ SubsidyMode_ s0 <> SubsidyLagrangian ->
        UpdateEpoch s0 now1 now2 = s0).
Proof.
  intros P Hm Hmode s'.
  subst s'. unfold UpdateEpoch. rewrite Hm, Hmode.
  rewrite bool_decide_true by done.
  split; [|split; [done|split; [done|split; [done|]]]].
  - eexists. split; [reflexivity|].
    unfold GetEpochStats, withMechanism. cbn -[UpdateShadowPrice ResetEpoch GetShadowPrice].
    rewrite Hmode, bool_decide_true by done.
    destruct (MaxInflation (config m)) as [limit|] eqn:Hlimit.
    + destruct (UpdateShadowPrice_step m (epochSubsidyTotal s) limit now1)
        as (Hstep & _ & Hcfg).
      cbv zeta in Hstep, Hcfg. fold P in Hstep.
      unfold GetShadowPrice, ResetEpoch. cbn -[UpdateShadowPrice].
      split; [exact Hstep|]. split; [|by rewrite Hcfg].
      intros limit' [= <-] Ha Hmin Hmax Hle Hfin Hlim.
      destruct (UpdateShadowPrice_invariant m (epochSubsidyTotal s) limit now1
                  Ha Hmin Hmax Hle Hfin Hlim) as (Hlo & Hhi & _).
      by split.
    + by cbn.
  - intros s0 [Hn|Hn]; unfold UpdateEpoch.
    + by rewrite Hn.
    + destruct (Mechanism_ s0); [|done]. by rewrite bool_decide_false.
Qed.

End SchedulerMoreFacts.

Section SchedulerMoreExamples.
Import Justitia Subsidy Core Scheduler.


(** One pass of the Lagrangian scheduler over the pool of scenario S7
    with room for one transaction: the two cross-shard transactions are
    counted.  With no room the same pool leaves the scheduler as it
    was. *)
Lemma SelectForBlock_epoch_books_witness :
  (exists out s',
      SelectForBlock schedulerLagrangian 1 poolS7 (fun _ => 0) = Some (out, s')
      /\ epochTxCount schedulerLagrangian = 0
      /\ epochTxCount s' = 2)
  /\ (exists out s',
        SelectForBlock schedulerLagrangian 0 poolS7 (fun _ => 0) = Some (out, s')
        /\ crossShardCount poolS7 = 2
        /\ out = [] /\ s' = schedulerLagrangian).
Proof.
  split.
  - destruct (SelectForBlock schedulerLagrangian 1 poolS7 (fun _ => 0)) as [[out s']|] eqn:E;
      [|by vm_compute in E].
    exists out, s'. split; [done|]. split; [reflexivity|].
    destruct (SelectForBlock_epoch_books schedulerLagrangian s' 1 poolS7 out (fun _ => 0) E)
      as (_ & Hpos & _).
    destruct (Hpos ltac:(lia)) as (scored & _ & _ & _ & Hc).
    exact Hc.
  - destruct (SelectForBlock schedulerLagrangian 0 poolS7 (fun _ => 0)) as [[out s']|] eqn:E;
      [|by vm_compute in E].
    exists out, s'. split; [done|]. split; [reflexivity|].
    destruct (SelectForBlock_epoch_books schedulerLagrangian s' 0 poolS7 out (fun _ => 0) E)
      as (Hzero & _).
    exact (Hzero ltac:(lia)).
Defined.

Lemma scoreCTX_reward_witness :
  exists tx' score txCase s',
    scoreCTX schedulerS7 (txS7 "ctxHigh" 1 2000 4) 1000 0 = Some (tx', score, txCase, s')
    /\ EstimateBlockReward s' [tx'] = score.
Proof.
  destruct (scoreCTX schedulerS7 (txS7 "ctxHigh" 1 2000 4) 1000 0)
    as [[[[tx' score] txCase] s']|] eqn:E; [|by vm_compute in E].
  exists tx', score, txCase, s'. split; [done|].
  exact (proj1 (proj1 (scoreCTX_reward _ _ _ _ _ _ _ _ E) eq_refl)).
Defined.

Lemma NewScheduler_static_witness :
  Mechanism_ (NewScheduler 0 3 trackerS7 SubsidyDestAvg DefaultConfig 0) = None.
Proof.
  exact (proj1 (NewScheduler_static 0 3 trackerS7 SubsidyDestAvg DefaultConfig 0 3 poolS7
                  ltac:(done) ltac:(done))).
Defined.

(** Shard 0 of scenario S7 under the destination average: a transfer to
    shard 2 paying 1000, the local average, is Case1. *)
Lemma scoreCTX_DestAvg_witness :
  let s := NewScheduler 0 3 trackerS7 SubsidyDestAvg DefaultConfig 0 in
  exists tx' score txCase s',
    scoreCTX s (txS7 "ctx" 2 1000 4) 1000 0 = Some (tx', score, txCase, s')
    /\ (txCase = Case1 <-> 1000 <= 1000).
Proof.
  intros s.
  destruct (scoreCTX s (txS7 "ctx" 2 1000 4) 1000 0)
    as [[[[tx' score] txCase] s']|] eqn:E; [|by vm_compute in E].
  exists tx', score, txCase, s'. split; [done|].
  exact (proj1 (scoreCTX_DestAvg s s' (txS7 "ctx" 2 1000 4) tx' 1000 0 score txCase
                  eq_refl eq_refl eq_refl ltac:(by vm_compute) ltac:(lia)
                  ltac:(by vm_compute) E)).
Defined.

(** The Lagrangian scheduler of shard 0 with six tenths of the limit
    booked: the price stays at its lower bound 1. *)
(** The end of an epoch that issued two ETH against a limit of one: the
    books held two ETH and seven transactions before the call and are
    empty after it, and the shadow price has risen from 1 within its
    bounds.  Without a limit the books are emptied as well and the price
    stays at 1, below the lower bound 2 of that configuration. *)
Lemma UpdateEpoch_closes_epoch_witness :
  (Mechanism_ schedulerEpoch = Some mechanismLagrangian
   /\ SubsidyMode_ schedulerEpoch = SubsidyLagrangian
   /\ GetEpochStats schedulerEpoch = (2000000000000000000, 7, F64.of_Z 1))
  /\ (exists m',
        Mechanism_ (UpdateEpoch schedulerEpoch 1 2) = Some m'
        /\ GetEpochStats (UpdateEpoch schedulerEpoch 1 2) = (0, 0, GetShadowPrice m')
        /\ GetShadowPrice m' = F64.add (F64.of_Z 1) (F64.lit 1 100)
        /\ inBounds (lagrangianParams lagrangianConfig) (GetShadowPrice m')
        /\ TotalSubsidy (lagrangianState m') = Some 0
        /\ EpochStartTime (lagrangianState m') = 2)
  /\ epochSubsidyTotal (UpdateEpoch schedulerEpoch 1 2) = 0
  /\ epochTxCount (UpdateEpoch schedulerEpoch 1 2) = 0
  /\ (exists m',
        Mechanism_ (UpdateEpoch schedulerUnlimited 1 2) = Some m'
        /\ GetEpochStats schedulerUnlimited = (2000000000000000000, 7, F64.of_Z 1)
        /\ GetEpochStats (UpdateEpoch schedulerUnlimited 1 2) = (0, 0, GetShadowPrice m')
        /\ GetShadowPrice m' = F64.of_Z 1
        /\ F64.leb (MinLambda (lagrangianParams unlimitedConfig)) (GetShadowPrice m') = false).
Proof.
  split; [split; [reflexivity|split; reflexivity]|].
  destruct (UpdateEpoch_closes_epoch schedulerEpoch mechanismLagrangian 1 2 eq_refl eq_refl)
    as ((m' & Hm' & Hprice & Hin & Htot & Hstart & _ & _ & Hstats) & Ht & Hc & _).
  split.
  { exists m'. split; [exact Hm'|]. split; [exact Hstats|].
    split; [rewrite Hprice; vm_compute; reflexivity|].
    split; [|split; [exact Htot|exact Hstart]].
    exact (Hin 1000000000000000000 eq_refl eq_refl eq_refl eq_refl eq_refl eq_refl eq_refl). }
  split; [exact Ht|]. split; [exact Hc|].
  destruct (UpdateEpoch_closes_epoch schedulerUnlimited
              (NewMechanism (Some unlimitedConfig) 0) 1 2 eq_refl eq_refl)
    as ((m'' & Hm'' & Hprice' & _ & _ & _ & _ & _ & Hstats') & _).
  exists m''. split; [exact Hm''|]. split; [reflexivity|]. split; [exact Hstats'|].
  split; [exact Hprice'|]. rewrite Hprice'. reflexivity.
Defined.

End SchedulerMoreExamples.

(** ** Shard maps and proposer fee, continued *)

Section ShardMapFacts.
Context `{GoUnicode}.
Import Ethcsv.

(** X25. [MapShard] returns a shard of the system: a number from 0 to
    [shards - 1], and 0 when there is no shard at all.  [IsCrossShard]
    compares the two shards and nothing else: it is symmetric, false
    for one address taken twice, and false in a system of at most one
    shard.  For an ASCII address it is false for two spellings of the
    address that differ in the case of ASCII letters only.  Nothing is
    said of the letter case of an address that is not ASCII, where the
    result is that of the rune mapping of [strings.ToLower]. *)
Theorem MapShard_range (addr addr' : string) (shards : Z) :
  (1 <= shards -> 0 <= MapShard addr shards < shards)
  /\ (shards <= 0 -> MapShard addr shards = 0)
  /\ (IsCrossShard addr addr' shards = true
      <-> 1 < shards /\ MapShard addr shards <> MapShard addr' shards)
  /\ IsCrossShard addr addr' shards = IsCrossShard addr' addr shards
  /\ IsCrossShard addr addr shards = false
  /\ (isASCII addr = true -> sameModuloCase addr addr' = true ->
      IsCrossShard addr addr' shards = false).
Proof.
  split; [|split; [|split; [|split; [|split]]]].
  - intros Hn. unfold MapShard. destruct (Z.leb_spec shards 0); [lia|].
    apply Z.mod_pos_bound. lia.
  - intros Hn. unfold MapShard. by destruct (Z.leb_spec shards 0); [|lia].
  - unfold IsCrossShard. destruct (Z.leb_spec shards 1).
    + split; [done|lia].
    + destruct (Z.eqb_spec (MapShard addr shards) (MapShard addr' shards)); simpl.
      * split; [done|]. by intros [_ ?].
      * by split.
  - unfold IsCrossShard. destruct (shards <=? 1); [done|]. by rewrite Z.eqb_sym.
  - unfold IsCrossShard. destruct (shards <=? 1); [done|]. by rewrite Z.eqb_refl.
  - intros Hascii Hsame. unfold IsCrossShard, MapShard. destruct (shards <=? 1); [done|].
    rewrite (ToLower_sameModuloCase _ _ Hascii Hsame). by rewrite Z.eqb_refl.
Qed.

(** X26. On ASCII addresses the shard map of package ethcsv is that of
    package utils after the normalisation of the address: for an ASCII
    address [MapShard] is [ShardForAddress] of the address with its
    ASCII letters in lower case and without its [0x] prefix.  The two
    agree on every ASCII address that is already in that form and can
    differ on others: on ["0xab"] with two shards [MapShard] answers 0
    and [ShardForAddress] answers 1.  [ShardForAddress] stays within
    the shards of the system, and [IsCrossShard] of package utils is
    true exactly when there are two shards or more and [GetTxShards]
    returns two different ones.  Nothing is said of [MapShard] on an
    address that is not ASCII. *)
Theorem ShardForAddress_MapShard (addr : string) (numShards : Z) :
  (isASCII addr = true ->
   MapShard addr numShards
   = Utils.ShardForAddress (TrimPrefix (lowerASCII addr) "0x") numShards)
  /\ (isASCII addr = true -> lowerASCII addr = addr -> HasPrefix addr "0x" = false ->
      MapShard addr numShards = Utils.ShardForAddress addr numShards)
  /\ (1 <= numShards -> 0 <= Utils.ShardForAddress addr numShards < numShards)
  /\ (forall recipient,
        Utils.IsCrossShard addr recipient numShards = true
        <-> 1 < numShards
            /\ fst (Utils.GetTxShards addr recipient numShards)
               <> snd (Utils.GetTxShards addr recipient numShards))
  /\ isASCII "0xab" = true
  /\ MapShard "0xab" 2 = 0 /\ Utils.ShardForAddress "0xab" 2 = 1.
Proof.
  split; [|split; [|split; [|split]]].
  - intros Hascii. unfold MapShard, Utils.ShardForAddress.
    by rewrite (ToLower_ASCII _ Hascii).
  - intros Hascii Hlow Hpre. unfold MapShard, Utils.ShardForAddress.
    by rewrite (ToLower_ASCII _ Hascii), Hlow, (TrimPrefix_absent _ _ Hpre).
  - intros Hn. unfold Utils.ShardForAddress. destruct (Z.leb_spec numShards 0); [lia|].
    apply Z.mod_pos_bound. lia.
  - intros recipient. unfold Utils.IsCrossShard, Utils.GetTxShards. simpl.
    destruct (Z.leb_spec numShards 1); [split; [done|lia]|].
    destruct (Z.eqb_spec (Utils.ShardForAddress addr numShards)
                (Utils.ShardForAddress recipient numShards)); simpl.
    + split; [done|]. by intros [_ ?].
    + by split.
  - split; [reflexivity|]. split; vm_compute; reflexivity.
Qed.

End ShardMapFacts.

Section ShardMapMoreExamples.
Import Ethcsv.

Lemma MapShard_range_witness :
  isASCII "ab12CD" = true /\ sameModuloCase "ab12CD" "AB12cd" = true
  /\ IsCrossShard "ab12CD" "AB12cd" 4 = false
  /\ 0 <= MapShard "ab12CD" 4 < 4.
Proof.
  destruct (MapShard_range "ab12CD" "AB12cd" 4) as (Hr & _ & _ & _ & _ & Hc).
  split; [reflexivity|]. split; [reflexivity|].
  split; [apply Hc; reflexivity | apply Hr; lia].
Defined.

Lemma ShardForAddress_MapShard_witness :
  isASCII "ab12cd" = true /\ lowerASCII "ab12cd" = "ab12cd"
  /\ HasPrefix "ab12cd" "0x" = false
  /\ MapShard "ab12cd" 4 = Utils.ShardForAddress "ab12cd" 4
  /\ MapShard "0xAB12cd" 4 = Utils.ShardForAddress "ab12cd" 4.
Proof.
  destruct (ShardForAddress_MapShard "ab12cd" 4) as (_ & Ha & _).
  destruct (ShardForAddress_MapShard "0xAB12cd" 4) as (Hb & _).
  split; [reflexivity|]. split; [reflexivity|]. split; [reflexivity|].
  split; [apply Ha; reflexivity | apply Hb; reflexivity].
Defined.

End ShardMapMoreExamples.

Section ProposerFeeFacts.
Import Ethcsv.

(** X27. [ComputeProposerFee] never charges a negative fee on a row
    whose gas and gas price are not negative; and for an EIP-1559 row
    whose base fee is within its fee cap, the proposer's tip and the
    burnt base fee together never exceed the cap: [fee + gasUsed *
    baseFee <= gasUsed * maxFee].  When the base fee reaches the cap the
    tip is 0. *)
Theorem ComputeProposerFee_bounds (r : TxRow) :
  0 <= GasUsed r ->
  (0 <= orZero (GasPrice r) -> 0 <= ComputeProposerFee r)
  /\ (forall baseFee maxFee maxPriority,
        EIP2718Type r = 2 \/ EIP2718Type r = 3 ->
        BaseFeePerGas r = Some baseFee -> MaxFeePerGas r = Some maxFee ->
        MaxPriorityFeePerGas r = Some maxPriority ->
        (baseFee <= maxFee ->
         ComputeProposerFee r + GasUsed r * baseFee <= GasUsed r * maxFee)
        /\ (maxFee <= baseFee \/ maxPriority <= 0 -> ComputeProposerFee r = 0)).
Proof.
  intros Hgu. unfold ComputeProposerFee. split.
  - intros Hgp. destruct (GasUsed r =? 0); [done|].
    destruct ((EIP2718Type r =? 0) || (EIP2718Type r =? 1)).
    { destruct (GasPrice r); simpl in *; nia. }
    destruct ((EIP2718Type r =? 2) || (EIP2718Type r =? 3)); [|done].
    destruct (BaseFeePerGas r) as [b|], (MaxFeePerGas r) as [m|],
      (MaxPriorityFeePerGas r) as [p|]; try done.
    destruct (b + p <? m), (Z.ltb_spec (Z.sgn (b + p - b)) 0),
      (Z.ltb_spec (Z.sgn (m - b)) 0); nia.
  - intros b m p Hty -> -> ->.
    destruct (Z.eqb_spec (GasUsed r) 0) as [->|Hne]; [split; lia|].
    replace ((EIP2718Type r =? 0) || (EIP2718Type r =? 1)) with false
      by (destruct Hty as [-> | ->]; done).
    replace ((EIP2718Type r =? 2) || (EIP2718Type r =? 3)) with true
      by (destruct Hty as [-> | ->]; done).
    destruct (Z.ltb_spec (b + p) m), (Z.ltb_spec (Z.sgn (b + p - b)) 0),
      (Z.ltb_spec (Z.sgn (m - b)) 0); split; intros; nia.
Qed.

Lemma ComputeProposerFee_bounds_witness :
  0 <= GasUsed exampleRow
  /\ ComputeProposerFee exampleRow + GasUsed exampleRow * 30000000000
     <= GasUsed exampleRow * 31000000000.
Proof.
  split; [by vm_compute|].
  exact (proj1 (proj2 (ComputeProposerFee_bounds exampleRow ltac:(by vm_compute))
                  30000000000 31000000000 2000000000 (or_introl eq_refl)
                  eq_refl eq_refl eq_refl)
           ltac:(lia)).
Defined.

End ProposerFeeFacts.

(** ** Subsidy budget *)

Section BudgetFacts.
Import SubsidyBudget.

Lemma total_cons (r : Z) (subsidies : list Z) : total (r :: subsidies) = r + total subsidies.
Proof.
  unfold total. simpl. rewrite fold_left_add_acc. lia.
Qed.

Lemma total_nonneg (subsidies : list Z) :
  Forall isUint64 subsidies -> 0 <= total subsidies.
Proof.
  induction 1 as [|r l [Hr _] _ IH]; [done|]. rewrite total_cons. lia.
Qed.

(** Without overflow the sum loop computes the plain sum. *)
Lemma sumSubsidies_total (subsidies : list Z) :
  Forall isUint64 subsidies -> total subsidies < 2 ^ 64 ->
  sumSubsidies subsidies = total subsidies.
Proof.
  unfold sumSubsidies.
  assert (forall l a, Forall isUint64 l -> 0 <= a -> a + total l < 2 ^ 64 ->
            fold_left (fun sumR r => wrap_uint64 (sumR + r)) l a = a + total l) as Hacc.
  { induction l as [|x l IH]; intros a Hl Ha Hs; simpl.
    - unfold total. simpl. lia.
    - apply Forall_cons in Hl as [[Hx _] Hl].
      pose proof (total_nonneg l Hl). rewrite total_cons in *.
      unfold wrap_uint64. rewrite Z.mod_small by lia.
      rewrite IH by (done || lia). lia. }
  intros Hl Hs. rewrite Hacc by (done || lia). lia.
Qed.

(** Scaling a block by [num / den]: the floors add up to at most the
    scaled total and lose less than one unit per entry. *)
Lemma scaled_total (num den : Z) (subsidies : list Z) :
  0 < den -> 0 <= num ->
  Forall isUint64 subsidies ->
  Forall (fun r => r * num < 2 ^ 64) subsidies ->
  let scaled := map (ScaleSubsidy {| Num := num; Den := den |}) subsidies in
  den * total scaled <= num * total subsidies
  /\ num * total subsidies - den * Z.of_nat (length subsidies) < den * total scaled
     \/ subsidies = [] /\ total scaled = 0.
Proof.
  intros Hden Hnum Hl Ho. cbv zeta.
  induction subsidies as [|r l IH]; [right; done|]. left.
  apply Forall_cons in Hl as [[Hr _] Hl]. apply Forall_cons in Ho as [Hro Ho].
  simpl map. rewrite !total_cons. simpl length.
  assert (ScaleSubsidy {| Num := num; Den := den |} r = r * num / den) as ->.
  { unfold ScaleSubsidy. simpl. destruct (Z.eqb_spec den 0); [lia|].
    unfold wrap_uint64. rewrite Z.mod_small by nia. done. }
  pose proof (Z.mul_div_le (r * num) den Hden).
  pose proof (Z.mul_succ_div_gt (r * num) den Hden).
  destruct (IH Hl Ho) as [[IH1 IH2]|[-> IH0]].
  - split; nia.
  - rewrite IH0. unfold total. simpl. split; nia.
Qed.

(** The three regimes of [Apply]. *)
Lemma Apply_cases (b : Budget) (sumR : Z) :
  0 <= Bmin b -> 0 <= Bmax b -> 0 <= sumR ->
  (Bmax b = 0 \/ sumR = 0 \/ (sumR <= Bmax b /\ (Bmin b <= sumR \/ Bmin b = 0)))
  /\ Apply b sumR = {| Num := 1; Den := 1 |}
  \/ 0 < Bmax b < sumR /\ Apply b sumR = {| Num := Bmax b; Den := sumR |}
  \/ (0 < Bmax b /\ 0 < sumR < Bmin b /\ sumR <= Bmax b)
     /\ Apply b sumR = {| Num := Bmin b; Den := sumR |}.
Proof.
  intros Hmin Hmax HS. unfold Apply.
  destruct (Z.eqb_spec (Bmax b) 0); [left; split; [lia|done]|].
  destruct (Z.gtb_spec sumR (Bmax b)); [right; left; split; [lia|done]|].
  destruct (Z.gtb_spec (Bmin b) 0), (Z.ltb_spec sumR (Bmin b)), (Z.gtb_spec sumR 0); simpl;
    try (left; split; [lia|done]).
  right; right. split; [lia|done].
Qed.

(** Scaling by a factor below 1 shrinks every subsidy. *)
Lemma scaled_down (num den : Z) (subsidies : list Z) :
  0 <= num < den ->
  Forall isUint64 subsidies ->
  Forall (fun r => r * num < 2 ^ 64) subsidies ->
  Forall2 (fun r r' => 0 <= r' <= r) subsidies
    (map (ScaleSubsidy {| Num := num; Den := den |}) subsidies).
Proof.
  intros Hnum Hl Ho. apply Forall2_fmap_r.
  induction Hl as [|r l [Hr _] _ IH]; constructor.
  - apply Forall_cons in Ho as [Hro _].
    unfold ScaleSubsidy. simpl. destruct (Z.eqb_spec den 0); [lia|].
    unfold wrap_uint64. rewrite Z.mod_small by nia. split.
    + apply Z.div_pos; nia.
    + apply Z.div_le_upper_bound; nia.
  - apply IH. by apply Forall_cons in Ho as [_ ?].
Qed.

(** X28. [ApplyBudgetToBlock] keeps a block within its budget as long
    as nothing overflows 64 bits: the two bounds and every subsidy are
    [uint64] values, the sum of the subsidies is below [2^64], and every
    product [R * Bmax] is below [2^64].  Under these conditions a block
    whose subsidies exceed [Bmax] is scaled down to a total of at most
    [Bmax], and of more than [Bmax] minus the number of subsidies; no
    subsidy grows.  A block below [Bmin] is scaled up, when every
    product [R * Bmin] is below [2^64] as well, to a total of at most
    [Bmin], short of it by less than the number of subsidies.  A block
    within the bounds, a block without subsidy, and every block under an
    unlimited budget ([Bmax = 0]) is returned as it is.  The factor
    never has a zero denominator.  Nothing is promised beyond these
    conditions: the sum loop wraps at [2^64]. *)
Theorem ApplyBudgetToBlock_within_budget (budget : Budget) (subsidies : list Z) :
  isUint64 (Bmin budget) -> isUint64 (Bmax budget) ->
  Forall isUint64 subsidies -> total subsidies < 2 ^ 64 ->
  Forall (fun r => r * Bmax budget < 2 ^ 64) subsidies ->
  let scaled := fst (ApplyBudgetToBlock budget subsidies) in
  let sf := snd (ApplyBudgetToBlock budget subsidies) in
  Den sf <> 0
  /\ sf = Apply budget (total subsidies)
  /\ length scaled = length subsidies
  /\ (0 < Bmax budget < total subsidies ->
      total scaled <= Bmax budget
      /\ Bmax budget - Z.of_nat (length subsidies) < total scaled
      /\ Forall2 (fun r r' => 0 <= r' <= r) subsidies scaled)
  /\ (0 < Bmax budget -> 0 < total subsidies < Bmin budget ->
      total subsidies <= Bmax budget ->
      Forall (fun r => r * Bmin budget < 2 ^ 64) subsidies ->
      total scaled <= Bmin budget
      /\ Bmin budget - Z.of_nat (length subsidies) < total scaled)
  /\ (Bmax budget = 0
      \/ total subsidies = 0
      \/ (total subsidies <= Bmax budget
          /\ (Bmin budget <= total subsidies \/ Bmin budget = 0)) ->
      scaled = subsidies /\ sf = {| Num := 1; Den := 1 |}).
Proof.
  intros [Hmin0 _] [Hmax0 _] Hl Hs Ho. cbv zeta.
  pose proof (total_nonneg subsidies Hl) as Ht.
  unfold ApplyBudgetToBlock. rewrite (sumSubsidies_total _ Hl Hs).
  set (S := total subsidies) in *.
  destruct (Apply_cases budget S Hmin0 Hmax0 Ht) as [[Hc ->]|[[Hc ->]|[Hc ->]]];
    unfold IsScalingNeeded; simpl.
  - repeat split; try done; intros; lia.
  - destruct (Z.eqb_spec (Bmax budget) S) as [|_]; [lia|]. simpl.
    split; [lia|]. split; [done|]. split; [by rewrite length_map|].
    split; [|split; [lia|lia]]. intros _.
    destruct (scaled_total (Bmax budget) S subsidies ltac:(lia) ltac:(lia) Hl Ho)
      as [[H1 H2]|[E _]]; [|subst S; rewrite E in Hc; unfold total in Hc; simpl in Hc; lia].
    fold S in H1, H2. split; [nia|]. split; [nia|].
    apply scaled_down; [lia|done|done].
  - destruct (Z.eqb_spec (Bmin budget) S) as [|_]; [lia|]. simpl.
    split; [lia|]. split; [done|]. split; [by rewrite length_map|].
    split; [lia|]. split; [|lia]. intros _ _ _ Ho'.
    destruct (scaled_total (Bmin budget) S subsidies ltac:(lia) ltac:(lia) Hl Ho')
      as [[H1 H2]|[E _]]; [|subst S; rewrite E in Hc; unfold total in Hc; simpl in Hc; lia].
    fold S in H1, H2. split; nia.
Qed.

(** Three subsidies of 400 against a budget of at most 1000: each is
    scaled to 333. *)
Lemma ApplyBudgetToBlock_within_budget_witness :
  let budget := {| Bmin := 0; Bmax := 1000 |} in
  total (fst (ApplyBudgetToBlock budget [400; 400; 400])) <= 1000.
Proof.
  intros budget.
  assert (Forall isUint64 [400; 400; 400]) as Hl by (repeat constructor; lia).
  assert (Forall (fun r => r * Bmax budget < 2 ^ 64) [400; 400; 400]) as Ho
    by (repeat constructor; simpl; lia).
  destruct (ApplyBudgetToBlock_within_budget budget [400; 400; 400]
              ltac:(done) ltac:(done) Hl ltac:(by vm_compute) Ho)
    as (_ & _ & _ & Hdown & _).
  exact (proj1 (Hdown ltac:(by vm_compute))).
Defined.

(** X29. [ToBudget] turns an annual budget into a per-block budget
    whenever the block interval is positive and at most one year: the
    result is ordered ([Bmin <= Bmax]) when the annual bounds are, and
    a year of blocks at a per-block bound spends no more than the
    annual bound and falls short of it by less than one unit per block.
    A block interval that is not positive, or longer than a year, is
    refused. *)
Theorem ToBudget_per_block (cfg : BudgetConfig) :
  0 <= GammaMinAnnual cfg <= GammaMaxAnnual cfg ->
  let blocksPerYear := ComputeBlocksPerYear (BlockIntervalMs cfg) in
  (0 < BlockIntervalMs cfg <= msPerYear ->
   exists b,
     ToBudget cfg = inl b
     /\ 0 < blocksPerYear
     /\ 0 <= Bmin b <= Bmax b
     /\ Bmax b * blocksPerYear <= GammaMaxAnnual cfg < (Bmax b + 1) * blocksPerYear
     /\ Bmin b * blocksPerYear <= GammaMinAnnual cfg < (Bmin b + 1) * blocksPerYear)
  /\ (BlockIntervalMs cfg <= 0 \/ msPerYear < BlockIntervalMs cfg ->
      ToBudget cfg = inr (ErrBlockInterval (BlockIntervalMs cfg))).
Proof.
  intros Hg blocksPerYear. subst blocksPerYear.
  unfold ToBudget, ComputeBlocksPerYear, AnnualToPerBlock, NewBudget. split.
  - intros [Hpos Hle]. destruct (Z.leb_spec (BlockIntervalMs cfg) 0); [lia|].
    set (n := msPerYear / BlockIntervalMs cfg).
    assert (0 < n) as Hn.
    { subst n. apply Z.div_str_pos. lia. }
    destruct (Z.eqb_spec n 0); [lia|].
    pose proof (Z.div_le_mono (GammaMinAnnual cfg) (GammaMaxAnnual cfg) n Hn ltac:(lia)).
    pose proof (Z.div_pos (GammaMinAnnual cfg) n ltac:(lia) Hn).
    destruct (Z.gtb_spec (GammaMaxAnnual cfg / n) 0),
      (Z.gtb_spec (GammaMinAnnual cfg / n) (GammaMaxAnnual cfg / n)); simpl; try lia.
    all: eexists; split; [reflexivity|]; simpl.
    all: pose proof (Z.mul_div_le (GammaMaxAnnual cfg) n Hn).
    all: pose proof (Z.mul_succ_div_gt (GammaMaxAnnual cfg) n Hn).
    all: pose proof (Z.mul_div_le (GammaMinAnnual cfg) n Hn).
    all: pose proof (Z.mul_succ_div_gt (GammaMinAnnual cfg) n Hn).
    all: repeat split; nia.
  - intros [Hle|Hgt].
    + by destruct (Z.leb_spec (BlockIntervalMs cfg) 0); [|lia].
    + destruct (Z.leb_spec (BlockIntervalMs cfg) 0); [done|].
      rewrite Z.div_small by (unfold msPerYear in *; lia). done.
Qed.

(** An annual budget between 1 and 10 million units with a block every
    five seconds. *)
Lemma ToBudget_per_block_witness :
  let cfg := {| GammaMinAnnual := 1000000; GammaMaxAnnual := 10000000;
                BlockIntervalMs := 5000 |} in
  ToBudget cfg = inl {| Bmin := 0; Bmax := 1 |}
  /\ exists b, ToBudget cfg = inl b /\ 0 <= Bmin b <= Bmax b.
Proof.
  intros cfg. split; [reflexivity|].
  destruct (proj1 (ToBudget_per_block cfg ltac:(simpl; lia)) ltac:(by vm_compute))
    as (b & E & _ & Hb & _).
  exists b. by split.
Defined.

(** Beyond the 64 bits the budget is not kept: two subsidies of [2^63]
    sum to 0 in the loop, so that the block counts as one without
    subsidy and is returned as it is under a budget of at most 1. *)
Example ApplyBudgetToBlock_sum_wraps :
  sumSubsidies [2 ^ 63; 2 ^ 63] = 0
  /\ ApplyBudgetToBlock {| Bmin := 0; Bmax := 1 |} [2 ^ 63; 2 ^ 63]
     = ([2 ^ 63; 2 ^ 63], {| Num := 1; Den := 1 |})
  /\ total [2 ^ 63; 2 ^ 63] = 2 ^ 64.
Proof. split; [|split]; vm_compute; reflexivity. Qed.

End BudgetFacts.

(** ** Trimmed fees *)

Section TrimFacts.
Context `{GoSort}.
Import Expectation TrimmedMean.

Lemma ltb_StrictWeak : StrictWeak Z.ltb.
Proof. split; intros; lia. Qed.

Lemma SortedBy_ltb_le (l : list Z) : SortedBy Z.ltb l -> StronglySorted Z.le l.
Proof.
  unfold SortedBy. induction 1 as [|x l Hs IH Hx]; constructor; [exact IH|].
  eapply Forall_impl; [exact Hx|]. intros y Hy. simpl in Hy. lia.
Qed.

Lemma positiveFees_positive (fees : list (option Z)) : Forall (fun f => 0 < f) (positiveFees fees).
Proof.
  induction fees as [|[f|] rest IH]; simpl; [done| |done].
  destruct (Z.ltb_spec 0 f); [by constructor|done].
Qed.

Lemma positiveFees_length (fees : list (option Z)) :
  (length (positiveFees fees) <= length fees)%nat.
Proof.
  induction fees as [|[f|] rest IH]; simpl; [lia| |lia].
  destruct (0 <? f); simpl; lia.
Qed.

(** X30. [trimExtremes] never panics and never returns an empty list
    on four or more positive fees when the percentile is not negative
    and the product [len(fees) * percentile] does not overflow the
    machine integer (the length and the product are below [2^63]): it
    sorts the positive fees and cuts the same number [k] of entries from
    both ends, where [k] is [n * percentile / 100] reduced to
    [(n - 1) / 2] when it would leave nothing.  What remains is in
    ascending order, made of positive fees of the block, and has
    [n - 2 k >= 1] entries.  Lists of fewer than four fees are returned
    as they are.  Nothing is promised for a larger percentile: the
    product wraps. *)
Theorem trimExtremes_middle (fees : list (option Z)) (percentile : Z) :
  0 <= percentile ->
  Z.of_nat (length fees) < 2 ^ 63 ->
  Z.of_nat (length fees) * percentile < 2 ^ 63 ->
  let valid := positiveFees fees in
  let n := Z.of_nat (length valid) in
  let k := if n * percentile / 100 * 2 >=? n then (n - 1) / 2 else n * percentile / 100 in
  (Z.of_nat (length fees) < 4 -> trimExtremes fees percentile = Some fees)
  /\ (4 <= Z.of_nat (length fees) -> n < 4 ->
      trimExtremes fees percentile = Some (map Some valid))
  /\ (4 <= n ->
      exists kept,
        trimExtremes fees percentile = Some (map Some kept)
        /\ kept = take (Z.to_nat (n - 2 * k)) (drop (Z.to_nat k) (sort_Slice Z.ltb valid))
        /\ Z.of_nat (length kept) = n - 2 * k
        /\ 1 <= n - 2 * k
        /\ kept ⊆+ valid
        /\ Forall (fun f => 0 < f) kept
        /\ StronglySorted Z.le kept).
Proof.
  intros Hp Hint Hov valid n k. unfold trimExtremes. fold valid.
  pose proof (positiveFees_length fees) as Hlen. fold valid in Hlen.
  split; [|split].
  - intros Hshort. by destruct (Z.ltb_spec (Z.of_nat (length fees)) 4); [|lia].
  - intros Hlong Hfew. destruct (Z.ltb_spec (Z.of_nat (length fees)) 4); [lia|].
    by destruct (Z.ltb_spec (Z.of_nat (length valid)) 4); [|lia].
  - intros Hn. destruct (Z.ltb_spec (Z.of_nat (length fees)) 4); [lia|].
    destruct (Z.ltb_spec (Z.of_nat (length valid)) 4); [lia|].
    pose proof (sort_Slice_perm _ Z.ltb valid) as Hperm.
    rewrite (Permutation_length Hperm). fold n.
    assert (0 <= n * percentile < 2 ^ 63) as Hnp by nia.
    assert (wrap_int (n * percentile) = n * percentile) as ->.
    { unfold wrap_int. rewrite Z.mod_small; lia. }
    rewrite Z.quot_div_nonneg by lia.
    set (k0 := n * percentile / 100) in *.
    assert (0 <= k0 /\ 100 * k0 <= n * percentile) as Hk0.
    { subst k0. split; [apply Z.div_pos; lia|apply Z.mul_div_le; lia]. }
    assert (wrap_int (k0 * 2) = k0 * 2) as ->.
    { unfold wrap_int. rewrite Z.mod_small; lia. }
    rewrite (Z.quot_div_nonneg (n - 1) 2) by lia.
    assert (0 <= k /\ 2 * k < n) as [Hk Hkn].
    { subst k. destruct (Z.geb_spec (k0 * 2) n); [div_lia|lia]. }
    fold k.
    assert (wrap_int (n - k) = n - k) as ->.
    { unfold wrap_int. rewrite Z.mod_small; lia. }
    destruct (Z.ltb_spec k 0); [lia|]. destruct (Z.ltb_spec (n - k) k); [lia|].
    destruct (Z.ltb_spec (Z.of_nat (length fees)) (n - k)); [lia|]. simpl.
    replace (n - k - k) with (n - 2 * k) by lia.
    eexists. split; [reflexivity|]. split; [reflexivity|].
    assert (take (Z.to_nat (n - 2 * k)) (drop (Z.to_nat k) (sort_Slice Z.ltb valid))
            `sublist_of` sort_Slice Z.ltb valid) as Hsub.
    { etrans; [apply sublist_take|apply sublist_drop]. }
    split; [|split; [lia|split; [|split]]].
    + rewrite length_take, length_drop, (Permutation_length Hperm). lia.
    + etrans; [by apply sublist_submseteq|by apply Permutation_submseteq].
    + apply Forall_take, Forall_drop.
      eapply Permutation_Forall; [symmetry; exact Hperm|]. apply positiveFees_positive.
    + pose proof (sort_Slice_sorted _ Z.ltb valid ltb_StrictWeak) as Hsorted.
      apply SortedBy_ltb_le in Hsorted as Hle.
      rewrite <- (take_drop (Z.to_nat k) (sort_Slice Z.ltb valid)) in Hle.
      apply StronglySorted_app_1_r in Hle.
      rewrite <- (take_drop (Z.to_nat (n - 2 * k))
                    (drop (Z.to_nat k) (sort_Slice Z.ltb valid))) in Hle.
      by apply StronglySorted_app_1_l in Hle.
Qed.

End TrimFacts.

Section TrimExamples.
Import Expectation TrimmedMean.

(** Eight fees at 25 percent: the two lowest and the two highest go. *)
Lemma trimExtremes_middle_witness :
  trimExtremes (map Some [80; 10; 70; 20; 60; 30; 50; 40]) 25
  = Some (map Some [30; 40; 50; 60]).
Proof.
  destruct (proj2 (proj2 (trimExtremes_middle (map Some [80; 10; 70; 20; 60; 30; 50; 40]) 25
                            ltac:(lia) ltac:(by vm_compute) ltac:(by vm_compute)))
              ltac:(by vm_compute)) as (kept & E & Ek & _).
  rewrite E, Ek. vm_compute. reflexivity.
Defined.

(** With the percentile [2^61 + 25] the product of four fees and the
    percentile wraps to a negative number, and the slice expression
    panics. *)
Example trimExtremes_percentile_wraps :
  wrap_int (4 * (2 ^ 61 + 25)) = - 2 ^ 63 + 100
  /\ trimExtremes (map Some [1; 2; 3; 4]) (2 ^ 61 + 25) = None.
Proof. split; vm_compute; reflexivity. Qed.

End TrimExamples.
